(** * autoscout: the column-normalisation and code-safety pipeline

    A shallow embedding of [utils/visualization_utils.py] (class
    [VisualizationUtils] with its module constants [COLUMN_ALIASES] and
    [DANGEROUS_PATTERNS]) together with the parts of the Python standard
    library the class calls ([str] methods, the [re] calls it makes,
    [difflib.get_close_matches]), followed by the properties of the
    pipeline.

    Conventions of the embedding
    - a Python [str] is a list of Unicode code points ([list N]); the
      source's literals are written [py "..."], with the characters Rocq
      strings cannot hold (quotes, newline, the arrow U+2192) given by
      their code points;
    - a DataFrame is an ordered association list from column names to
      columns; objects that the source mutates live in a store ([gmap]
      from locations to tables);
    - calls that leave the program (autopep8, [exec], matplotlib, the
      textual rendering of pandas cells) are Section variables;
    - the calls to [logger], which only write to the process log, are
      left out, except in [execute_code_safely]: there they run beside
      code that can reach the logger, and are Section variables that
      can raise. *)

From Stdlib Require Import NArith ZArith QArith List String Ascii Bool Lia.
From Stdlib Require Import DecimalString.
From stdpp Require Import base decidable option list gmap.

Import ListNotations.
Local Open Scope N_scope.

(** ** Python strings *)

Module PyStr.

Abbreviation pystr := (list N).

(** The code points of a source literal (ASCII literals only). *)
Fixpoint py (s : string) : pystr :=
  match s with
  | EmptyString => []
  | String a r => N_of_ascii a :: py r
  end.

Definition squote : N := 39.     (* ' *)
Definition dquote : N := 34.     (* the double quote *)
Definition backslash : N := 92.
Definition newline : N := 10.
Definition arrow : N := 8594.    (* U+2192 *)

Definition pystr_eqb (a b : pystr) : bool := bool_decide (a = b).

(** [s.startswith(p)] *)
Fixpoint startswith (p s : pystr) : bool :=
  match p, s with
  | [], _ => true
  | _ :: _, [] => false
  | c :: p', d :: s' => (c =? d) && startswith p' s'
  end.

(** [sub in s] *)
Fixpoint contains (s sub : pystr) : bool :=
  startswith sub s ||
  match s with
  | [] => false
  | _ :: t => contains t sub
  end.

(** [s.find(sub)]: the lowest index where [sub] occurs, [-1] if none. *)
Fixpoint find (s sub : pystr) : Z :=
  if startswith sub s then 0%Z
  else match s with
       | [] => (-1)%Z
       | _ :: t => let r := find t sub in
                   if (r =? -1)%Z then (-1)%Z else (r + 1)%Z
       end.

(** [s[i:]] for an index [0 <= i]. *)
Definition slice_from (s : pystr) (i : Z) : pystr := drop (Z.to_nat i) s.

(** [s.replace(old, new)] for a non-empty [old]: occurrences are taken
    left to right and do not overlap.  [skip] counts the characters of the
    occurrence just replaced that are still to be passed over. *)
Fixpoint replace_from (skip : nat) (old new s : pystr) : pystr :=
  match s with
  | [] => []
  | c :: t =>
      match skip with
      | S k => replace_from k old new t
      | O => if startswith old s
             then new ++ replace_from (length old - 1) old new t
             else c :: replace_from 0 old new t
      end
  end.

Definition replace (s old new : pystr) : pystr := replace_from 0 old new s.

(** [Py_UNICODE_ISSPACE]: the characters [str.strip()] removes and the
    class [\s] of a [str] pattern matches. *)
Definition isspace (c : N) : bool :=
  ((9 <=? c) && (c <=? 13)) || ((28 <=? c) && (c <=? 32)) ||
  (c =? 133) || (c =? 160) || (c =? 5760) ||
  ((8192 <=? c) && (c <=? 8202)) || (c =? 8232) || (c =? 8233) ||
  (c =? 8239) || (c =? 8287) || (c =? 12288).

Fixpoint lstrip (s : pystr) : pystr :=
  match s with
  | c :: t => if isspace c then lstrip t else s
  | [] => []
  end.

Definition rstrip (s : pystr) : pystr := rev (lstrip (rev s)).

(** [s.strip()] *)
Definition strip (s : pystr) : pystr := rstrip (lstrip s).

(** [sep.join(l)] *)
Fixpoint join (sep : pystr) (l : list pystr) : pystr :=
  match l with
  | [] => []
  | [x] => x
  | x :: rest => x ++ sep ++ join sep rest
  end.

End PyStr.
Export PyStr.

(** ** The part of [re] used by the safety gate *)

Module SafetyRe.

(** The patterns of [DANGEROUS_PATTERNS] are built from literal
    characters, escaped punctuation, the class [\s] and the quantifier
    [+]. *)
Inductive atom : Type :=
  | Lit (c : N)
  | Space.

Inductive tok : Type :=
  | TAtom (a : atom)
  | TPlus.

(** One [atom] with its quantifier: [true] for [+]. *)
Definition item : Type := atom * bool.

Fixpoint lex (p : pystr) : list tok :=
  match p with
  | [] => []
  | c :: rest =>
      if c =? backslash then
        match rest with
        | e :: rest' =>
            TAtom (if e =? 115 then Space else Lit e) :: lex rest'
        | [] => [TAtom (Lit c)]
        end
      else if c =? 43 then TPlus :: lex rest
      else TAtom (Lit c) :: lex rest
  end.

Fixpoint group (ts : list tok) : list item :=
  match ts with
  | [] => []
  | TPlus :: rest => group rest
  | TAtom a :: rest =>
      match rest with
      | TPlus :: rest' => (a, true) :: group rest'
      | _ => (a, false) :: group rest
      end
  end.

Definition compile (p : pystr) : list item := group (lex p).

Definition is_ascii_upper (c : N) : bool := (65 <=? c) && (c <=? 90).
Definition is_ascii_lower (c : N) : bool := (97 <=? c) && (c <=? 122).

(** The simple lower-case mapping, on the characters whose image is an
    ASCII letter: the capitals, U+0130 and the Kelvin sign U+212A. *)
Definition unicode_tolower (c : N) : N :=
  if is_ascii_upper c then c + 32
  else if c =? 304 then 105
  else if c =? 8490 then 107
  else c.

(** The extra case-equivalent characters [re] adds under IGNORECASE:
    dotless i for [i], long s for [s]. *)
Definition casefix (lo : N) : list N :=
  if lo =? 105 then [305]
  else if lo =? 115 then [383]
  else [].

(** A literal of the pattern against one character, under
    [re.IGNORECASE]: an uncased literal matches itself only; a letter is
    lowered and compared with the lowered character. *)
Definition lit_matches (p x : N) : bool :=
  if is_ascii_upper p || is_ascii_lower p then
    let lo := unicode_tolower p in
    let lx := unicode_tolower x in
    (lx =? lo) || existsb (N.eqb lx) (casefix lo)
  else x =? p.

Definition atom_matches (a : atom) (x : N) : bool :=
  match a with
  | Lit p => lit_matches p x
  | Space => isspace x
  end.

(** Does some prefix of [s] match the items?  [+] backtracks. *)
Fixpoint match_here (its : list item) (s : pystr) {struct s} : bool :=
  match its with
  | [] => true
  | (a, plus) :: rest =>
      match s with
      | [] => false
      | x :: t =>
          atom_matches a x &&
          (if plus then match_here its t || match_here rest t
           else match_here rest t)
      end
  end.

Fixpoint search_items (its : list item) (s : pystr) : bool :=
  match_here its s ||
  match s with
  | [] => false
  | _ :: t => search_items its t
  end.

(** [re.search(pattern, code, re.IGNORECASE)] as a truth value. *)
Definition re_search_ignorecase (pattern code : pystr) : bool :=
  search_items (compile pattern) code.

End SafetyRe.
Export SafetyRe.

(** ** Module constants *)

(** Dangerous code patterns to block *)
Definition DANGEROUS_PATTERNS : list pystr :=
  map py
  [ "import\s+os"; "import\s+subprocess"; "import\s+sys"; "open\(";
    "eval\("; "exec\("; "__import__"; "globals\("; "locals\(";
    "compile\("; "file\("; "input\("; "raw_input\("; "help\("; "vars\(";
    "dir\("; "type\("; "getattr\("; "setattr\("; "delattr\(";
    "hasattr\("; "property\("; "super\("; "staticmethod\(";
    "classmethod\("; "issubclass\("; "isinstance\("; "callable\(";
    "hash\("; "id\("; "len\("; "abs\("; "all\("; "any\("; "bin\(";
    "bool\("; "chr\("; "complex\("; "dict\("; "divmod\("; "enumerate\(";
    "filter\("; "float\("; "format\("; "frozenset\("; "hex\("; "int\(";
    "list\("; "map\("; "max\("; "min\("; "next\("; "oct\("; "ord\(";
    "pow\("; "print\("; "range\("; "repr\("; "reversed\("; "round\(";
    "set\("; "slice\("; "sorted\("; "str\("; "sum\("; "tuple\(";
    "zip\(" ]%string.

(** ** [check_code_safety] *)

Definition blocked_msg (pattern : pystr) : pystr :=
  py "Blocked dangerous pattern: " ++ pattern.

(** The loop body: append one issue when the pattern is found. *)
Definition check_step (code : pystr) (issues : list pystr) (pattern : pystr)
  : list pystr :=
  if re_search_ignorecase pattern code
  then issues ++ [blocked_msg pattern]
  else issues.

Definition check_code_safety (code : pystr) : bool * list pystr :=
  let issues := fold_left (check_step code) DANGEROUS_PATTERNS [] in
  (Nat.eqb (length issues) 0, issues).

(** ** Tables *)

Module Pandas.
Section Frames.

(** The type of cell values is left open: no operation of the pipeline
    inspects a cell. *)
Context {cell : Type}.

Definition column : Type := list cell.

(** A DataFrame: its columns in order, each with its name.  Column names
    are strings and pairwise distinct ([well_formed]), as for a frame
    read from a CSV file. *)
Definition DataFrame : Type := list (pystr * column).

(** [df.columns] *)
Definition columns (df : DataFrame) : list pystr := map fst df.

Definition well_formed (df : DataFrame) : Prop := NoDup (columns df).

(** [name in df.columns] *)
Definition has_column (df : DataFrame) (name : pystr) : bool :=
  existsb (pystr_eqb name) (columns df).

(** [df[name]]; [None] stands for the KeyError of a missing column. *)
Fixpoint getitem (df : DataFrame) (name : pystr) : option column :=
  match df with
  | [] => None
  | (k, v) :: rest => if pystr_eqb name k then Some v else getitem rest name
  end.

(** [df[name] = col]: an existing column is replaced where it stands, a
    new one is appended as the last column. *)
Fixpoint setitem (df : DataFrame) (name : pystr) (col : column) : DataFrame :=
  match df with
  | [] => [(name, col)]
  | (k, v) :: rest =>
      if pystr_eqb name k then (k, col) :: rest
      else (k, v) :: setitem rest name col
  end.

End Frames.
Arguments column : clear implicits.
Arguments DataFrame : clear implicits.
End Pandas.
Export Pandas.

(** Column name mapping for different data providers, in the order of the
    dict literal (the order [COLUMN_ALIASES.items()] iterates in). *)
Definition COLUMN_ALIASES : list (pystr * pystr) :=
  map (fun '(a, c) => (py a, py c))
  [ ("Squad", "Team"); ("Team Name", "Team"); ("Squad Name", "Team");
    ("Club", "Team"); ("Club Name", "Team");
    ("Player Name", "Player"); ("Player_Name", "Player"); ("Name", "Player");
    ("Full Name", "Player"); ("playerName", "Player");
    ("Position", "Pos"); ("Player Position", "Pos"); ("Role", "Pos");
    ("X", "x"); ("Y", "y"); ("End X", "end_x"); ("End Y", "end_y");
    ("Start X", "start_x"); ("Start Y", "start_y");
    ("Event", "Event Type"); ("Action", "Event Type"); ("Type", "Event Type");
    ("Match", "Match ID"); ("Game", "Match ID"); ("Fixture", "Match ID")
  ]%string.

(** ** The object store and the class *)

(** References to DataFrame objects. *)
Abbreviation loc := positive.

(** The fields of a [VisualizationUtils] instance.  [df] is a reference:
    the instance shares the caller's table. *)
Record VisualizationUtils : Type := mkViz {
  df : loc;
  original_columns : gset pystr;
  corrections_log : list pystr
}.

Definition set_corrections_log (self : VisualizationUtils)
    (log : list pystr) : VisualizationUtils :=
  {| df := df self;
     original_columns := original_columns self;
     corrections_log := log |}.

Section Normalizer.

Context {cell : Type}.

(** The store of DataFrame objects.  Reading a reference is total: the
    program holds no dangling reference. *)
Abbreviation store := (gmap loc (DataFrame cell)).

(** [VisualizationUtils(df)] *)
Definition init (h : store) (l : loc) : VisualizationUtils :=
  {| df := l;
     original_columns := list_to_set (columns (h !!! l));
     corrections_log := [] |}.

(** [df.copy()]: a new object with the same contents. *)
Definition copy (h : store) (l : loc) : loc * store :=
  let l' := fresh (dom h) in (l', <[l' := h !!! l]> h).

Definition mapping_msg (alias canonical : pystr) : pystr :=
  py "Column mapping: '" ++ alias ++ py "' " ++ [arrow] ++ py " '"
     ++ canonical ++ py "'".

(** One round of the loop over [COLUMN_ALIASES.items()], on a table and
    the log. *)
Definition normalize_step (st : DataFrame cell * list pystr)
    (entry : pystr * pystr) : DataFrame cell * list pystr :=
  let '(t, log) := st in
  let '(alias, canonical) := entry in
  if has_column t alias && negb (has_column t canonical) then
    match getitem t alias with
    | Some col => (setitem t canonical col,
                   log ++ [mapping_msg alias canonical])
    | None => st                  (* KeyError: excluded by the guard *)
    end
  else st.

(** The same round on the store: the object at [l'] is updated in place
    and the entry goes to [self.corrections_log]. *)
Definition normalize_step_at (l' : loc) (st : store * list pystr)
    (entry : pystr * pystr) : store * list pystr :=
  let '(h, log) := st in
  let '(t', log') := normalize_step (h !!! l', log) entry in
  (<[l' := t']> h, log').

(** [normalize_columns]: returns the reference to the normalized copy,
    with the store and the instance after the call. *)
Definition normalize_columns (self : VisualizationUtils) (h : store)
  : loc * store * VisualizationUtils :=
  let '(df_normalized, h1) := copy h (df self) in
  let '(h2, log) :=
    fold_left (normalize_step_at df_normalized) COLUMN_ALIASES
              (h1, corrections_log self) in
  (df_normalized, h2, set_corrections_log self log).

(** *** [get_available_columns_info] *)

(** What pandas computes from a column and how Python prints it. *)
Variable dtype_str : column cell -> pystr.       (* str(series.dtype) *)
Variable isna : cell -> bool.                    (* removed by dropna() *)
Variable list_str : list cell -> pystr.          (* str of a list *)

Definition column_line (name : pystr) (col : column cell) : pystr :=
  let dtype := dtype_str col in
  let sample_values := take 3 (filter (fun c => negb (isna c)) col) in
  py "- " ++ name ++ py " (" ++ dtype ++ py "): " ++ list_str sample_values.

Definition get_available_columns_info (self : VisualizationUtils) (h : store)
  : pystr :=
  join [newline] (map (fun '(n, c) => column_line n c) (h !!! df self)).

End Normalizer.

(** ** [difflib.get_close_matches] *)

Module Difflib.

(** [SequenceMatcher] with [isjunk=None] and [autojunk=True], as
    [get_close_matches] builds it: [a] is the candidate ([set_seq1]) and
    [b] the word looked for ([set_seq2]).  Indices are naturals. *)

Definition count (elt : N) (s : pystr) : nat :=
  length (filter (fun c => c =? elt) s).

Fixpoint indices_from (j : nat) (elt : N) (b : pystr) : list nat :=
  match b with
  | [] => []
  | c :: rest =>
      if c =? elt then j :: indices_from (S j) elt rest
      else indices_from (S j) elt rest
  end.

(** [__chain_b]: with no junk predicate the junk set is empty; when [b]
    has at least 200 elements, those occurring more than [n // 100 + 1]
    times are "popular" and lose their entry. *)
Definition popular (b : pystr) (elt : N) : bool :=
  let n := length b in
  (200 <=? n)%nat && (n / 100 + 1 <? count elt b)%nat.

(** [b2j.get(elt, nothing)] *)
Definition b2j_get (b : pystr) (elt : N) : list nat :=
  if popular b elt then [] else indices_from 0 elt b.

Definition block : Type := nat * nat * nat.      (* besti, bestj, bestsize *)

(** The inner [for j in b2j.get(a[i], nothing)] of [find_longest_match],
    with its [continue] and [break]. *)
Fixpoint scan_row (i blo bhi : nat) (j2len : gmap nat nat) (js : list nat)
    (newj2len : gmap nat nat) (best : block) : gmap nat nat * block :=
  match js with
  | [] => (newj2len, best)
  | j :: js' =>
      if (j <? blo)%nat then scan_row i blo bhi j2len js' newj2len best
      else if (bhi <=? j)%nat then (newj2len, best)
      else
        let k := (match j with
                  | O => 0               (* j2len.get(-1, 0) *)
                  | S j' => default 0 (j2len !! j')
                  end + 1)%nat in
        let '(besti, bestj, bestsize) := best in
        scan_row i blo bhi j2len js' (<[j := k]> newj2len)
                 (if (bestsize <? k)%nat
                  then (i + 1 - k, j + 1 - k, k)%nat
                  else best)
  end.

(** The outer [for i in range(alo, ahi)]. *)
Definition scan_rows (a b : pystr) (alo ahi blo bhi : nat)
  : gmap nat nat * block :=
  fold_left
    (fun '(j2len, best) i =>
       let js := match a !! i with
                 | Some elt => b2j_get b elt
                 | None => []
                 end in
       scan_row i blo bhi j2len js ∅ best)
    (seq alo (ahi - alo))
    (∅, (alo, blo, 0)%nat).

(** [while besti > alo and bestj > blo and a[besti-1] == b[bestj-1]] *)
Fixpoint extend_left (a b : pystr) (alo blo : nat)
    (besti bestj bestsize : nat) : block :=
  match besti, bestj with
  | S i', S j' =>
      if (alo <? besti)%nat && (blo <? bestj)%nat &&
         bool_decide (a !! i' = b !! j')
      then extend_left a b alo blo i' j' (S bestsize)
      else (besti, bestj, bestsize)
  | _, _ => (besti, bestj, bestsize)
  end.

(** [while besti+bestsize < ahi and bestj+bestsize < bhi and
    a[besti+bestsize] == b[bestj+bestsize]]; [n] bounds the number of
    rounds by the distance to [ahi]. *)
Fixpoint extend_right (a b : pystr) (ahi bhi : nat) (n : nat)
    (besti bestj bestsize : nat) : block :=
  match n with
  | O => (besti, bestj, bestsize)
  | S n' =>
      if (besti + bestsize <? ahi)%nat && (bestj + bestsize <? bhi)%nat &&
         bool_decide (a !! (besti + bestsize)%nat = b !! (bestj + bestsize)%nat)
      then extend_right a b ahi bhi n' besti bestj (S bestsize)
      else (besti, bestj, bestsize)
  end.

(** [find_longest_match(alo, ahi, blo, bhi)].  The two closing loops of
    the source extend the block over junk only, and there is none. *)
Definition find_longest_match (a b : pystr) (alo ahi blo bhi : nat) : block :=
  let '(_, (besti, bestj, bestsize)) := scan_rows a b alo ahi blo bhi in
  let '(besti, bestj, bestsize) :=
    extend_left a b alo blo besti bestj bestsize in
  extend_right a b ahi bhi (ahi - (besti + bestsize)) besti bestj bestsize.

(** The [while queue] loop of [get_matching_blocks].  The head of the
    list is the end of the Python list ([pop] and [append] work there);
    [None] when [fuel] rounds do not empty the queue. *)
Fixpoint blocks_loop (fuel : nat) (a b : pystr)
    (queue : list (nat * nat * nat * nat)) (matching_blocks : list block)
  : option (list block) :=
  match queue with
  | [] => Some matching_blocks
  | (alo, ahi, blo, bhi) :: queue' =>
      match fuel with
      | O => None
      | S fuel' =>
          let '(i, j, k) := find_longest_match a b alo ahi blo bhi in
          if (k =? 0)%nat then blocks_loop fuel' a b queue' matching_blocks
          else
            let q1 := if (alo <? i)%nat && (blo <? j)%nat
                      then (alo, i, blo, j) :: queue' else queue' in
            let q2 := if (i + k <? ahi)%nat && (j + k <? bhi)%nat
                      then (i + k, ahi, j + k, bhi)%nat :: q1 else q1 in
            blocks_loop fuel' a b q2 (matching_blocks ++ [(i, j, k)])
      end
  end.

(** The blocks found by [get_matching_blocks], before it sorts them and
    merges adjacent ones (neither changes the sum of the sizes).  Every
    round takes a range of [a] off the queue and puts back at most two
    shorter ones, so [2 * len(a) + 1] rounds are enough. *)
Definition matching_blocks (a b : pystr) : list block :=
  default []
    (blocks_loop (2 * length a + 1) a b [(0, length a, 0, length b)%nat] []).

(** [_calculate_ratio]: the float [2.0 * matches / length] as a
    rational.  The comparisons made below agree with those on the floats
    as long as the lengths stay far below [2^26]. *)
Definition calculate_ratio (matches length : nat) : Q :=
  match length with
  | O => 1%Q
  | S _ => Qmake (2 * Z.of_nat matches) (Pos.of_nat length)
  end.

Definition ratio (a b : pystr) : Q :=
  let matches := list_sum (map (fun '(_, _, k) => k) (matching_blocks a b)) in
  calculate_ratio matches (length a + length b).

(** The loop of [quick_ratio]: [avail] counts what is left of each
    element of [b]. *)
Fixpoint quick_matches (b : pystr) (a : pystr) (avail : gmap N Z)
    (matches : nat) : nat :=
  match a with
  | [] => matches
  | elt :: a' =>
      let numb := match avail !! elt with
                  | Some n => n
                  | None => Z.of_nat (count elt b)
                  end in
      quick_matches b a' (<[elt := (numb - 1)%Z]> avail)
                    (if (0 <? numb)%Z then S matches else matches)
  end.

Definition quick_ratio (a b : pystr) : Q :=
  calculate_ratio (quick_matches b a ∅ 0) (length a + length b).

Definition real_quick_ratio (a b : pystr) : Q :=
  calculate_ratio (Nat.min (length a) (length b)) (length a + length b).

Definition Qge_bool (x y : Q) : bool := Qle_bool y x.

(** Python's order on [str]: lexicographic on code points. *)
Fixpoint str_lt (x y : pystr) : bool :=
  match x, y with
  | _, [] => false
  | [], _ :: _ => true
  | c :: x', d :: y' => (c <? d) || ((c =? d) && str_lt x' y')
  end.

(** [(s1, x1) > (s2, x2)] on tuples of a score and a string. *)
Definition scored_gt (p q : Q * pystr) : bool :=
  negb (Qle_bool (fst p) (fst q)) ||
  (Qeq_bool (fst p) (fst q) && str_lt (snd q) (snd p)).

(** [max(it, default=sentinel)]: the first of the greatest elements. *)
Definition max_scored (l : list (Q * pystr)) : option (Q * pystr) :=
  fold_left (fun best p =>
               match best with
               | None => Some p
               | Some q => if scored_gt p q then Some p else Some q
               end) l None.

Definition cutoff : Q := 6 # 10.

(** [get_close_matches(word, possibilities, n=1, cutoff=0.6)] *)
Definition get_close_matches (word : pystr) (possibilities : list pystr)
  : list pystr :=
  let result :=
    fold_left
      (fun result x =>
         if Qge_bool (real_quick_ratio x word) cutoff &&
            Qge_bool (quick_ratio x word) cutoff &&
            Qge_bool (ratio x word) cutoff
         then result ++ [(ratio x word, x)]
         else result)
      possibilities [] in
  match max_scored result with         (* heapq.nlargest(1, result) *)
  | Some (score, x) => [x]
  | None => []
  end.

End Difflib.

(** ** Exceptions *)

(** An exception, as far as a handler looks at it: whether its class
    derives from [Exception] (what [except Exception] catches), and
    what [str(e)] and [traceback.format_exc()] give for it where the
    two are the interpreter's own: the class has the [__str__] of
    [BaseException] or one of a library, and [traceback.format_exc] is
    the function of the standard library.  So it is for the exceptions
    of library code (pandas, the API client).  The executor handles
    exceptions of code it has just run, which can define the
    exception's class and replace the function of the module: there the
    two calls are the oracles [str_] and [traceback_format_exc] of
    [execute_code_safely], which can raise. *)
Record thrown : Type := mkThrown {
  derives_from_Exception : bool;
  message : pystr;
  format_exc : pystr
}.

(** An exception in flight: the one [re.sub] raises for a replacement
    template it cannot parse ([re.error], or [IndexError] for an unknown
    group name), or one thrown by executed code. *)
Inductive exn : Type :=
  | TemplateError
  | Thrown (t : thrown).

Inductive result (A : Type) : Type :=
  | Returns (a : A)
  | Raises (e : exn).
Arguments Returns {A} a.
Arguments Raises {A} e.

Definition bind {A B : Type} (r : result A) (k : A -> result B) : result B :=
  match r with
  | Returns a => k a
  | Raises e => Raises e
  end.

(** ** The [re] calls of the repair pass *)

Module RepairRe.

Definition is_quote (c : N) : bool := (c =? squote) || (c =? dquote).
Definition rbracket : N := 93.

(** The rest of [df\[['\"](.*?)['\"]\]] after the opening quote: the
    lazy group stops at the first quote followed by [\]]; [.] does not
    pass a newline. *)
Fixpoint lazy_until_close (s : pystr) : option pystr :=
  match s with
  | [] => None
  | c :: t =>
      if is_quote c && match t with
                       | d :: _ => d =? rbracket
                       | [] => false
                       end
      then Some []
      else if c =? newline then None
      else option_map (cons c) (lazy_until_close t)
  end.

(** A match of [column_pattern] at the start of [s]: its group. *)
Definition match_column_ref (s : pystr) : option pystr :=
  if startswith (py "df[") s then
    match drop 3 s with
    | q :: rest => if is_quote q then lazy_until_close rest else None
    | [] => None
    end
  else None.

(** [re.findall(column_pattern, s)]: the groups of the successive
    matches, which do not overlap. *)
Fixpoint findall_from (skip : nat) (s : pystr) : list pystr :=
  match s with
  | [] => []
  | _ :: t =>
      match skip with
      | S k => findall_from k t
      | O => match match_column_ref s with
             | Some col => col :: findall_from (length col + 5) t
             | None => findall_from 0 t
             end
      end
  end.

Definition findall_column_refs (s : pystr) : list pystr := findall_from 0 s.

(** A match of [df\[['\"]{re.escape(col)}['\"]\]] at the start of [s]. *)
Definition ref_matches (col s : pystr) : bool :=
  startswith (py "df[") s &&
  match drop 3 s with
  | q :: rest =>
      is_quote q && startswith col rest &&
      match drop (length col) rest with
      | q' :: r :: _ => is_quote q' && (r =? rbracket)
      | _ => false
      end
  | [] => false
  end.

(** *** The replacement template *)

(** A parsed template: literal characters and references to the whole
    match (the pattern has no group of its own). *)
Inductive piece : Type :=
  | PChar (c : N)
  | PMatch.

Definition is_digit (c : N) : bool := (48 <=? c) && (c <=? 57).
Definition is_octdigit (c : N) : bool := (48 <=? c) && (c <=? 55).
Definition is_ascii_letter (c : N) : bool :=
  is_ascii_upper c || is_ascii_lower c.

(** [ESCAPES] *)
Definition escapes (c : N) : option N :=
  if c =? 97 then Some 7            (* \a *)
  else if c =? 98 then Some 8       (* \b *)
  else if c =? 102 then Some 12     (* \f *)
  else if c =? 110 then Some 10     (* \n *)
  else if c =? 114 then Some 13     (* \r *)
  else if c =? 116 then Some 9      (* \t *)
  else if c =? 118 then Some 11     (* \v *)
  else if c =? backslash then Some backslash
  else None.

(** The name of [\g<name>] up to [>]: with no group in the pattern only
    the number 0 is a valid reference, spelt with ASCII digits (so
    CPython 3.12 and later; earlier versions also take a signed or padded
    spelling of 0, with a deprecation warning).  Gives the length of the
    name. *)
Fixpoint group_zero_name (s : pystr) : option nat :=
  match s with
  | [] => None
  | c :: t =>
      if c =? 48 then option_map S (group_zero_name t)
      else if c =? 62 then Some O
      else None
  end.

(** What follows a backslash: the pieces it stands for and the number of
    characters it takes, [None] when [parse_template] raises. *)
Definition escape (s : pystr) : option (list piece * nat) :=
  match s with
  | [] => None                                   (* bad escape (end) *)
  | c :: t =>
      if c =? 103 then                           (* \g *)
        match t with
        | lt :: t' =>
            if lt =? 60 then
              match group_zero_name t' with
              | Some (S n) => Some ([PMatch], S n + 3)%nat
              | _ => None
              end
            else None                            (* missing < *)
        | [] => None
        end
      else if c =? 48 then                       (* \0 and octal digits *)
        match t with
        | d1 :: t1 =>
            if is_octdigit d1 then
              match t1 with
              | d2 :: _ =>
                  if is_octdigit d2
                  then Some ([PChar (N.land (8 * (d1 - 48) + (d2 - 48)) 255)],
                             3%nat)
                  else Some ([PChar (d1 - 48)], 2%nat)
              | [] => Some ([PChar (d1 - 48)], 2%nat)
              end
            else Some ([PChar 0], 1%nat)
        | [] => Some ([PChar 0], 1%nat)
        end
      else if is_digit c then                    (* \1 .. \9 *)
        match t with
        | d1 :: d2 :: _ =>
            if is_digit d1 && is_octdigit c && is_octdigit d1 && is_octdigit d2
            then let v := 64 * (c - 48) + 8 * (d1 - 48) + (d2 - 48) in
                 if 255 <? v then None else Some ([PChar v], 3%nat)
            else None                            (* invalid group reference *)
        | _ => None
        end
      else
        match escapes c with
        | Some code => Some ([PChar code], 1%nat)
        | None => if is_ascii_letter c then None  (* bad escape *)
                  else Some ([PChar backslash; PChar c], 1%nat)
        end
  end.

(** [parse_template(repl, pattern)] for a pattern without groups. *)
Fixpoint parse_template_from (skip : nat) (s : pystr) : option (list piece) :=
  match s with
  | [] => Some []
  | c :: t =>
      match skip with
      | S k => parse_template_from k t
      | O =>
          if c =? backslash then
            match escape t with
            | Some (ps, n) => option_map (app ps) (parse_template_from n t)
            | None => None
            end
          else option_map (cons (PChar c)) (parse_template_from 0 t)
      end
  end.

Definition parse_template (repl : pystr) : option (list piece) :=
  parse_template_from 0 repl.

(** [expand_template] *)
Definition expand_template (tmpl : list piece) (matched : pystr) : pystr :=
  concat (map (fun p => match p with
                        | PChar c => [c]
                        | PMatch => matched
                        end) tmpl).

(** The substitution loop of [re.sub]: matches are taken left to right
    and do not overlap. *)
Fixpoint sub_from (skip : nat) (col : pystr) (tmpl : list piece) (s : pystr)
  : pystr :=
  match s with
  | [] => []
  | c :: t =>
      match skip with
      | S k => sub_from k col tmpl t
      | O =>
          if ref_matches col s
          then expand_template tmpl (take (length col + 6) s)
                 ++ sub_from (length col + 5) col tmpl t
          else c :: sub_from 0 col tmpl t
      end
  end.

(** [re.sub(rf"df\[['\"]{re.escape(col)}['\"]\]", repl, s)]: the
    template is parsed first, whether or not the pattern occurs. *)
Definition re_sub_column_ref (col repl s : pystr) : result pystr :=
  match parse_template repl with
  | Some tmpl => Returns (sub_from 0 col tmpl s)
  | None => Raises TemplateError
  end.

End RepairRe.
Export RepairRe.

(** ** [auto_fix_plot_code] *)

(** Common replacements, in the order of the dict literal. *)
Definition replacements : list (pystr * pystr) :=
  map (fun '(w, r) => (py w, py r))
  [ ("mplsoccer()", "Pitch()");
    ("mplsoccer.Pitch()", "Pitch()");
    ("from mplsoccer import *", "from mplsoccer import Pitch");
    ("plt.show()()", "plt.show()");
    ("plt.plt.", "plt.");
    ("plt..", "plt.");
    ("df.plot()", "df.plot()")      (* Keep as is *)
  ]%string.

Definition arrow_msg (kind a b : pystr) : pystr :=
  kind ++ py ": '" ++ a ++ py "' " ++ [arrow] ++ py " '" ++ b ++ py "'".

Definition code_fix_msg (wrong right : pystr) : pystr :=
  arrow_msg (py "Code fix") wrong right.

Definition column_fix_msg (col close : pystr) : pystr :=
  arrow_msg (py "Column fix") col close.

Definition warning_msg (col : pystr) : pystr :=
  py "Warning: Column '" ++ col
     ++ py "' not found and no close match available".

Definition formatted_msg : pystr := py "Code auto-formatted with autopep8".

Definition format_failed_msg (e : pystr) : pystr :=
  py "Auto-formatting failed: " ++ e.

(** The loop over [replacements.items()]. *)
Definition replacement_step (st : pystr * list pystr)
    (entry : pystr * pystr) : pystr * list pystr :=
  let '(fixed_code, corrections) := st in
  let wrong := fst entry in
  let right := snd entry in
  if contains fixed_code wrong
  then (replace fixed_code wrong right,
        corrections ++ [code_fix_msg wrong right])
  else st.

(** The loop over [matches]; [re.sub] may raise. *)
Definition column_step (cols : list pystr)
    (st : result (pystr * list pystr)) (col : pystr)
  : result (pystr * list pystr) :=
  bind st (fun '(fixed_code, corrections) =>
    if negb (existsb (pystr_eqb col) cols) then
      match Difflib.get_close_matches col cols with
      | close :: _ =>
          bind (re_sub_column_ref col (py "df['" ++ close ++ py "']")
                                  fixed_code)
               (fun fixed_code' =>
                  Returns (fixed_code',
                           corrections ++ [column_fix_msg col close]))
      | [] => Returns (fixed_code, corrections ++ [warning_msg col])
      end
    else Returns (fixed_code, corrections)).

(** The bytes of a rendered image. *)
Definition buffer : Type := list N.

Section Repair.

Context {cell : Type}.

(** [autopep8.fix_code(code, options={'aggressive': 1})]: the formatted
    code, or the [str(e)] of the [Exception] it raises. *)
Variable autopep8_fix_code : pystr -> pystr + pystr.

(** The [try] around the formatter. *)
Definition format_step (st : pystr * list pystr) : pystr * list pystr :=
  let '(fixed_code, corrections) := st in
  match autopep8_fix_code fixed_code with
  | inl formatted => (formatted, corrections ++ [formatted_msg])
  | inr e => (fixed_code, corrections ++ [format_failed_msg e])
  end.

Definition auto_fix_plot_code (self : VisualizationUtils)
    (h : gmap loc (DataFrame cell)) (code : pystr)
  : result (pystr * list pystr) :=
  let st := fold_left replacement_step replacements (code, []) in
  let matches := findall_column_refs (fst st) in
  let cols := columns (h !!! df self) in
  bind (fold_left (column_step cols) matches (Returns st))
       (fun st' => Returns (format_step st')).

(** ** [execute_code_safely] *)

(** The execution namespace: [plt], [Pitch], [np] and [pd] are the same
    modules at every call; [df] is the table handed over. *)
Record safe_globals : Type := { g_df : loc }.

(** The dict literal bound to [safe_globals]: ['df': self.df]. *)
Definition make_safe_globals (self : VisualizationUtils) : safe_globals :=
  {| g_df := df self |}.

(** The state of matplotlib, of the imported modules and of whatever
    else executed code can reach. *)
Variable world : Type.

(** What a call into a library or into executed code works on: the
    tables and the world. *)
#[local] Abbreviation env := (gmap loc (DataFrame cell) * world)%type.

(** What the function calls after [exec] runs in the world that the
    executed code leaves.  The calls go through names of modules
    ([plt], [io], [traceback], [logger]) and through the class of the
    exception; code that passes the safety gate can rebind the former
    ([import traceback], then an assignment to [traceback.format_exc])
    and define the latter.  Each of these calls is therefore an oracle
    on the tables and the world that can raise, and so is the logging
    call before [exec].  The names the function takes from the
    builtins ([str], [len], [Exception], [exec]) are bound as the
    interpreter binds them, and the [re] and [difflib] calls of the
    safety gate and of the repair pass are those of the standard
    library. *)

(** [logger.info(correction)] *)
Variable logger_info : pystr -> env -> option thrown * env.

(** [exec(code, safe_globals)]: the exception the code ends with, if
    any; the code may change the tables and the world. *)
Variable exec_ : pystr -> safe_globals -> env -> option thrown * env.

(** Lines 237-239, [buffer = io.BytesIO()],
    [plt.savefig(buffer, format='png', dpi=150, bbox_inches='tight')]
    and [buffer.seek(0)]: the buffer as the function returns it, or the
    exception that one of the three calls raises. *)
Variable savefig : env -> (buffer + thrown) * env.

(** [plt.clf()] *)
Variable clf : env -> option thrown * env.

(** [str(e)], which calls the [__str__] of the class of [e]. *)
Variable str_ : thrown -> env -> (pystr + thrown) * env.

(** [traceback.format_exc()] while [e] is handled, as the f-string
    formats what it returns. *)
Variable traceback_format_exc : thrown -> env -> (pystr + thrown) * env.

(** [logger.error(error_msg)] *)
Variable logger_error : pystr -> env -> option thrown * env.

Definition str_of_nat (n : nat) : pystr :=
  py (NilEmpty.string_of_uint (Nat.to_uint n)).

Definition blocked_result_msg (safety_issues : list pystr) : pystr :=
  py "Code blocked for security reasons: " ++ join (py "; ") safety_issues.

Definition success_msg (corrections : list pystr) : pystr :=
  py "Code executed successfully. Corrections made: "
     ++ str_of_nat (length corrections).

(** [f"Execution error: {str(e)}\nTraceback: {traceback.format_exc()}"],
    from what the two calls returned. *)
Definition error_msg (str_e format_exc_ : pystr) : pystr :=
  py "Execution error: " ++ str_e ++ [newline] ++ py "Traceback: "
     ++ format_exc_.

(** The state a call runs in and leaves behind. *)
Definition state : Type :=
  VisualizationUtils * gmap loc (DataFrame cell) * world.

Definition leave (self : VisualizationUtils) (en : env) : state :=
  (self, fst en, snd en).

(** Lines 220-222: each correction is logged, then appended to
    [self.corrections_log].  The loop is outside the [try]: a logging
    call that raises ends the function there, with the corrections
    before it appended. *)
Fixpoint log_corrections (corrections : list pystr)
    (self : VisualizationUtils) (en : env)
  : option thrown * (VisualizationUtils * env) :=
  match corrections with
  | [] => (None, (self, en))
  | correction :: rest =>
      match logger_info correction en with
      | (Some e, en1) => (Some e, (self, en1))
      | (None, en1) =>
          log_corrections rest
            (set_corrections_log self (corrections_log self ++ [correction]))
            en1
      end
  end.

(** [except Exception as e]: an exception of another class goes on to
    the caller.  The handler evaluates [str(e)], then
    [traceback.format_exc()], then logs the message; nothing is around
    the three calls, so an exception one of them raises goes on to the
    caller as well, whatever its class. *)
Definition handle (e : thrown) (self : VisualizationUtils) (en : env)
  : result (bool * pystr * option buffer) * state :=
  if derives_from_Exception e then
    match str_ e en with
    | (inr e1, en1) => (Raises (Thrown e1), leave self en1)
    | (inl str_e, en1) =>
        match traceback_format_exc e en1 with
        | (inr e2, en2) => (Raises (Thrown e2), leave self en2)
        | (inl format_exc_, en2) =>
            let error_msg := error_msg str_e format_exc_ in
            match logger_error error_msg en2 with
            | (Some e3, en3) => (Raises (Thrown e3), leave self en3)
            | (None, en3) => (Returns (false, error_msg, None), leave self en3)
            end
        end
    end
  else (Raises (Thrown e), leave self en).

Definition execute_code_safely (self : VisualizationUtils)
    (h : gmap loc (DataFrame cell)) (w : world) (code : pystr)
  : result (bool * pystr * option buffer) * state :=
  let '(is_safe, safety_issues) := check_code_safety code in
  if negb is_safe then
    (Returns (false, blocked_result_msg safety_issues, None), (self, h, w))
  else
    match auto_fix_plot_code self h code with
    | Raises e => (Raises e, (self, h, w))
    | Returns (fixed_code, corrections) =>
        match log_corrections corrections self (h, w) with
        | (Some e, (self', en)) => (Raises (Thrown e), leave self' en)
        | (None, (self', en)) =>
            match exec_ fixed_code (make_safe_globals self') en with
            | (Some e, en1) => handle e self' en1
            | (None, en1) =>
                match savefig en1 with
                | (inr e, en2) => handle e self' en2
                | (inl buf, en2) =>
                    match clf en2 with
                    | (Some e, en3) => handle e self' en3
                    | (None, en3) =>
                        (Returns (true, success_msg corrections, Some buf),
                         leave self' en3)
                    end
                end
            end
        end
    end.

End Repair.

(** ** [extract_code_blocks] *)

Definition marker : pystr := py "## SUGGESTED VISUALIZATIONS".
Definition fence_open : pystr := py "```python".
Definition fence_close : pystr := py "```".

(** The lazy group of [```python(.*?)```] under [re.DOTALL]: everything
    up to the first closing fence. *)
Fixpoint lazy_until (close s : pystr) : option pystr :=
  if startswith close s then Some []
  else match s with
       | [] => None
       | c :: t => option_map (cons c) (lazy_until close t)
       end.

Definition match_fence (s : pystr) : option pystr :=
  if startswith fence_open s
  then lazy_until fence_close (drop (length fence_open) s)
  else None.

(** [re.findall(r"```python(.*?)```", s, re.DOTALL)] *)
Fixpoint findall_fences_from (skip : nat) (s : pystr) : list pystr :=
  match s with
  | [] => []
  | _ :: t =>
      match skip with
      | S k => findall_fences_from k t
      | O => match match_fence s with
             | Some body =>
                 body :: findall_fences_from
                           (length fence_open + length body
                            + length fence_close - 1) t
             | None => findall_fences_from 0 t
             end
      end
  end.

Definition findall_fences (s : pystr) : list pystr := findall_fences_from 0 s.

Definition nonempty (s : pystr) : bool :=
  match s with
  | [] => false
  | _ :: _ => true
  end.

Definition extract_code_blocks (text : pystr) : list pystr :=
  let start_idx := find text marker in
  let code_blocks :=
    if (start_idx =? -1)%Z then findall_fences text
    else findall_fences (slice_from text start_idx) in
  map strip (filter (fun block => nonempty (strip block)) code_blocks).

(** * The rest of the application

    The remaining method of [VisualizationUtils], the configuration
    ([config/settings.py]), the validators ([utils/validators.py]), the
    text processing of [generate_report] and [detect_file_type]
    ([app_improved.py]) and the client of the generation service
    ([services/openai_service.py]).  What Streamlit draws on the page is
    left out; what the program reads from outside (secrets, the
    environment, the CSV parser, the remote service) is a Section
    variable. *)

(** ** [get_corrections_summary] *)

Definition bullet : N := 8226.       (* U+2022 *)

Definition get_corrections_summary (self : VisualizationUtils) : pystr :=
  match corrections_log self with
  | [] => py "No corrections were made."
  | _ :: _ =>
      join [newline]
           (map (fun correction => [bullet] ++ py " " ++ correction)
                (corrections_log self))
  end.

(** ** More of Python's strings, and [pathlib] *)

Module PyStrMore.

Definition is_ascii (c : N) : bool := c <? 128.

Definition ascii_tolower (c : N) : N :=
  if is_ascii_upper c then c + 32 else c.

Section Lower.

(** [str.lower()] on a string that is not ASCII only: the full case
    mapping of the Unicode database, left open. *)
Variable unicode_lower : pystr -> pystr.

(** [s.lower()]: CPython lowers an ASCII string character by character
    and hands every other string to the Unicode mapping. *)
Definition lower (s : pystr) : pystr :=
  if forallb is_ascii s then map ascii_tolower s else unicode_lower s.

End Lower.

(** [s.rfind(c)] for a single character: the highest index, [-1] if
    none. *)
Fixpoint rfind_from (i : nat) (c : N) (s : pystr) (best : Z) : Z :=
  match s with
  | [] => best
  | x :: t => rfind_from (S i) c t (if x =? c then Z.of_nat i else best)
  end.

Definition rfind (s : pystr) (c : N) : Z := rfind_from 0 c s (-1).

(** [s.split(sep)] for a single character. *)
Fixpoint split (sep : N) (s : pystr) : list pystr :=
  match s with
  | [] => [[]]
  | c :: t =>
      if c =? sep then [] :: split sep t
      else match split sep t with
           | w :: ws => (c :: w) :: ws
           | [] => [[c]]
           end
  end.

Definition slash : N := 47.
Definition dot : N := 46.

(** [PurePosixPath(p).name]: the last component of the path that is
    neither empty nor a single dot; the empty string if there is none. *)
Definition path_name (p : pystr) : pystr :=
  List.last
    (filter (fun x => nonempty x && negb (pystr_eqb x [dot])) (split slash p))
    [].

(** [PurePosixPath(p).suffix]: the name from its last dot on, when that
    dot is neither the first nor the last character of the name. *)
Definition suffix (p : pystr) : pystr :=
  let name := path_name p in
  let i := rfind name dot in
  if ((0 <? i) && (i <? Z.of_nat (length name) - 1))%Z
  then drop (Z.to_nat i) name
  else [].

(** [s.split(sep, 1)] when [sep in s]: the text before the first
    occurrence and the text after it. *)
Definition split_once (s sep : pystr) : pystr * pystr :=
  let k := Z.to_nat (find s sep) in
  (take k s, drop (k + length sep) s).

(** [a or b] on values that are [None] or a string. *)
Definition or_ (a b : option pystr) : option pystr :=
  match a with
  | Some (_ :: _) => a
  | _ => b
  end.

(** [d.get(k)] on a dict kept in the order of its literal. *)
Fixpoint dict_get {V : Type} (d : list (pystr * V)) (k : pystr) : option V :=
  match d with
  | [] => None
  | (k', v) :: rest => if pystr_eqb k k' then Some v else dict_get rest k
  end.

End PyStrMore.
Export PyStrMore.

(** ** [config/settings.py] *)

Module Settings.

(** The fields of [AppConfig] read by the code below. *)
Definition OPENAI_BASE_URL : pystr := py "https://openrouter.ai/api/v1".
Definition DEFAULT_MODEL : pystr := py "meta-llama/llama-3-70b-instruct".
Definition TEMPERATURE : Q := 7 # 10.
Definition MAX_FILE_SIZE_MB : Z := 50.

(** Set by [__post_init__]. *)
Definition REQUIRED_VISUALIZATION_COLUMNS : gset pystr :=
  {[ py "x"; py "y"; py "end_x"; py "end_y" ]}.

(** Column mapping configuration: the dict of this module, which is not
    the one of [visualization_utils]. *)
Definition COLUMN_ALIASES : list (pystr * pystr) :=
  map (fun '(a, c) => (py a, py c))
  [ ("Squad", "Team"); ("Team Name", "Team"); ("Squad Name", "Team");
    ("Club", "Team"); ("Club Name", "Team"); ("squadName", "Team");
    ("Player Name", "Player"); ("Player_Name", "Player"); ("Name", "Player");
    ("Full Name", "Player");
    ("Position", "Pos"); ("Player Position", "Pos"); ("Role", "Pos");
    ("X", "x"); ("Y", "y"); ("End X", "end_x"); ("End Y", "end_y");
    ("Start X", "start_x"); ("Start Y", "start_y");
    ("Event", "Event Type"); ("Action", "Event Type"); ("Type", "Event Type");
    ("Match", "Match ID"); ("Game", "Match ID"); ("Fixture", "Match ID")
  ]%string.

Record report_type_config : Type := {
  description : pystr;
  required_columns : list pystr;
  system_prompt : pystr
}.

(** Report types configuration *)
Definition REPORT_TYPES : list (pystr * report_type_config) :=
  [ (py "Player Report",
     {| description :=
          py "Detailed analysis of individual player performance";
        required_columns := [py "Player"];
        system_prompt :=
          py "You are a senior professional football scout preparing "
             ++ py "reports for coaching and recruitment staff. "
          ++ [newline]
          ++ py "Your writing should be concise, insightful, and focused "
             ++ py "on decision-making. Evaluate players in terms of:"
          ++ [newline] ++ py "- Technical ability"
          ++ [newline] ++ py "- Tactical intelligence  "
          ++ [newline] ++ py "- Physical performance"
          ++ [newline] ++ py "- Psychological attributes"
          ++ [newline] ++ [newline]
          ++ py "Use analytical language but avoid unnecessary jargon. "
             ++ py "Summarize performance without just listing raw stats." |});
    (py "Match Report",
     {| description :=
          py "Comprehensive analysis of match events and performance";
        required_columns := [];
        system_prompt :=
          py "You are a match analyst writing a post-match report for "
             ++ py "technical staff. "
          ++ [newline]
          ++ py "Summarize key events, trends, standout performers, and "
             ++ py "tactical observations using the provided match data. "
          ++ [newline]
          ++ py "Be objective, insightful, and provide interpretation "
             ++ py "rather than raw numbers." |});
    (py "Opposition Report",
     {| description :=
          py "Tactical analysis of opponent team and players";
        required_columns := [py "Team"];
        system_prompt :=
          py "You are a tactical analyst preparing an opposition "
             ++ py "scouting report for coaches. "
          ++ [newline]
          ++ py "Your focus is on team shape, strengths, weaknesses, key "
             ++ py "players, transitions, set pieces, and tendencies. "
          ++ [newline]
          ++ py "Use bullet points where appropriate and provide "
             ++ py "actionable insights backed by data." |})
  ].

End Settings.

(** ** [utils/validators.py] *)

(** An uploaded file: its name and its content. *)
Record UploadedFile : Type := {
  file_name : pystr;
  getvalue : list Byte.byte
}.

(** [len(df)]: the number of rows; the columns of a table have the same
    length. *)
Definition nrows {cell : Type} (df : DataFrame cell) : nat :=
  match df with
  | [] => 0
  | (_, col) :: _ => length col
  end.

(** [df.empty]: no column or no row. *)
Definition empty {cell : Type} (df : DataFrame cell) : bool :=
  Nat.eqb (length (columns df)) 0 || Nat.eqb (nrows df) 0.

(** [df.drop(columns=names)], for names that are columns of [df]. *)
Definition drop_columns {cell : Type} (df : DataFrame cell)
    (names : list pystr) : DataFrame cell :=
  filter (fun kv => negb (existsb (pystr_eqb (fst kv)) names)) df.

Module DataValidator.
Section DataValidator.

Context {cell : Type}.

Variable unicode_lower : pystr -> pystr.

(** [pd.read_csv(uploaded_file)]: the table, or the exception raised. *)
Variable read_csv : UploadedFile -> DataFrame cell + thrown.

Definition too_large_msg : pystr :=
  py "File too large. Maximum size is "
     ++ str_of_nat (Z.to_nat Settings.MAX_FILE_SIZE_MB) ++ py "MB".

(** [validate_uploaded_file].  The size in megabytes is the float
    [len / 2**20]; the division by a power of two and the comparison
    with 50 come out as in the rationals. *)
Definition validate_uploaded_file (uploaded_file : option UploadedFile)
  : result (bool * pystr * option (DataFrame cell)) :=
  match uploaded_file with
  | None => Returns (false, py "No file uploaded", None)
  | Some f =>
      let file_size_mb :=
        (inject_Z (Z.of_nat (length (getvalue f))) / inject_Z (1024 * 1024))%Q in
      if negb (Qle_bool file_size_mb (inject_Z Settings.MAX_FILE_SIZE_MB))
      then Returns (false, too_large_msg, None)
      else
        let file_extension := lower unicode_lower (suffix (file_name f)) in
        if negb (existsb (pystr_eqb file_extension) [py ".csv"])
        then Returns (false,
                      py "Unsupported file type. Please upload a CSV file.",
                      None)
        else
          match read_csv f with
          | inl df =>
              if empty df then Returns (false, py "File is empty", None)
              else if (length (columns df) <? 2)%nat
              then Returns (false, py "File must have at least 2 columns",
                            None)
              else Returns (true, py "File validated successfully", Some df)
          | inr e =>
              if derives_from_Exception e
              then Returns (false, py "Error reading file: " ++ message e,
                            None)
              else Raises (Thrown e)
          end
  end.

(** [COLUMN_ALIASES.get(original_col, original_col)] *)
Definition normalized_col (original_col : pystr) : pystr :=
  default original_col (dict_get Settings.COLUMN_ALIASES original_col).

(** The inner loop with its [found] flag: some column of the table is
    [col] after the alias lookup. *)
Definition found (df : DataFrame cell) (col : pystr) : bool :=
  existsb (fun original_col => pystr_eqb (normalized_col original_col) col)
          (columns df).

(** What pandas and the float formatting compute for the data-quality
    notes. *)
Variable isnull : cell -> bool.
Variable format_1f : Q -> pystr.                 (* f"{x:.1f}" *)
Variable nunique : column cell -> nat.           (* series.nunique() *)

(** [df[col].isnull().sum() / len(df) * 100]; the float comparison with
    50 comes out as in the rationals, and a table without rows gives no
    percentage above 50. *)
Definition null_percentage (df : DataFrame cell) (col : pystr) : Q :=
  (inject_Z (Z.of_nat
               (length (filter (fun c => isnull c = true)
                               (default [] (getitem df col)))))
   / inject_Z (Z.of_nat (nrows df)) * 100)%Q.

Definition null_warning (col : pystr) (p : Q) : pystr :=
  py "Column '" ++ col ++ py "' has " ++ format_1f p ++ py "% null values".

Definition unique_warning (col : pystr) : pystr :=
  py "Column '" ++ col ++ py "' has only one unique value".

(** One round of the loop over the columns. *)
Definition quality_step (df : DataFrame cell) (warnings : list pystr)
    (col : pystr) : list pystr :=
  let p := null_percentage df col in
  let warnings :=
    if negb (Qle_bool p 50) then warnings ++ [null_warning col p]
    else warnings in
  if Nat.eqb (nunique (default [] (getitem df col))) 1
  then warnings ++ [unique_warning col]
  else warnings.

Definition validate_dataframe_for_report (df : DataFrame cell)
    (report_type : pystr) : bool * list pystr :=
  match dict_get Settings.REPORT_TYPES report_type with
  | None => (false, [py "Invalid report type: " ++ report_type])
  | Some cfg =>
      let missing_columns :=
        filter (fun col => found df col = false)
               (Settings.required_columns cfg) in
      match missing_columns with
      | _ :: _ =>
          (false,
           [py "Missing required columns for " ++ report_type ++ py ": "
               ++ join (py ", ") missing_columns])
      | [] => (true, fold_left (quality_step df) (columns df) [])
      end
  end.

(** The order in which Python iterates over a set of strings; it changes
    from one run of the interpreter to the next. *)
Variable iter : gset pystr -> list pystr.

Definition validate_visualization_columns (df : DataFrame cell)
  : bool * list pystr :=
  let missing_columns :=
    filter (fun required_col => found df required_col = false)
           (iter Settings.REQUIRED_VISUALIZATION_COLUMNS) in
  (Nat.eqb (length missing_columns) 0, missing_columns).

(** *** [sanitize_dataframe] *)

Definition sensitive_columns : list pystr :=
  map py ["password"; "token"; "key"; "secret"; "id"; "email"]%string.

(** Keep football-related IDs *)
Definition football_ids : list pystr :=
  map py ["player id"; "team id"; "match id"]%string.

(** The test of the first loop: the column goes to [columns_to_remove]. *)
Definition to_remove (col : pystr) : bool :=
  let col_lower := lower unicode_lower col in
  existsb (fun sensitive => contains col_lower sensitive) sensitive_columns
  && negb (existsb (pystr_eqb col_lower) football_ids).

(** The dtype of a column is [object]; [str(x)] for a cell; the cell
    that holds a string. *)
Variable is_object : column cell -> bool.
Variable cell_str : cell -> pystr.
Variable str_cell : pystr -> cell.

(** [series.astype(str).str.strip()] *)
Definition astype_str_strip (col : column cell) : column cell :=
  map (fun x => str_cell (strip (cell_str x))) col.

(** [df.select_dtypes(include=['object']).columns] *)
Definition object_columns (df : DataFrame cell) : list pystr :=
  columns (filter (fun kv => is_object (snd kv)) df).

(** One round of the second loop, on the object [df_clean]. *)
Definition clean_step (df_clean : loc) (h : gmap loc (DataFrame cell))
    (col : pystr) : gmap loc (DataFrame cell) :=
  <[df_clean := setitem (h !!! df_clean) col
                  (astype_str_strip
                     (default [] (getitem (h !!! df_clean) col)))]> h.

(** [sanitize_dataframe(df)]: the reference to the sanitized table and
    the store after the call.  [df.copy()] and [drop] each make a new
    object. *)
Definition sanitize_dataframe (h : gmap loc (DataFrame cell)) (df : loc)
  : loc * gmap loc (DataFrame cell) :=
  let '(df_clean, h1) := copy h df in
  let columns_to_remove := filter (fun col => to_remove col = true)
                                  (columns (h1 !!! df_clean)) in
  let '(df_clean, h2) :=
    match columns_to_remove with
    | _ :: _ =>
        let l := fresh (dom h1) in
        (l, <[l := drop_columns (h1 !!! df_clean) columns_to_remove]> h1)
    | [] => (df_clean, h1)
    end in
  (df_clean,
   fold_left (clean_step df_clean) (object_columns (h2 !!! df_clean)) h2).

End DataValidator.
End DataValidator.

Module InputValidator.
Section InputValidator.

(** [st.secrets.get(key)], which raises when Streamlit finds no secrets
    file, and [os.getenv(key)]. *)
Variable secrets_get : pystr -> option pystr + thrown.
Variable getenv : pystr -> option pystr.

Definition OPENROUTER_API_KEY : pystr := py "OPENROUTER_API_KEY".

Definition validate_api_key : result (bool * pystr) :=
  match secrets_get OPENROUTER_API_KEY with
  | inr e => Raises (Thrown e)
  | inl secret =>
      let api_key := or_ secret (getenv OPENROUTER_API_KEY) in
      match api_key with
      | None | Some [] =>
          Returns
            (false,
             py "OpenRouter API key not found. Please set "
                ++ py "OPENROUTER_API_KEY in Streamlit secrets or as an "
                ++ py "environment variable.")
      | Some api_key =>
          if (length api_key <? 10)%nat
          then Returns (false, py "API key appears to be invalid (too short).")
          else Returns (true, py "API key validated")
      end
  end.

End InputValidator.

Definition validate_report_type (report_type : pystr) : bool :=
  bool_decide (is_Some (dict_get Settings.REPORT_TYPES report_type)).

Definition validate_model_selection (model : pystr) : bool := true.

End InputValidator.

(** ** [services/openai_service.py] *)

Module OpenAIService.

(** The client object, as far as the service looks at it. *)
Record Client : Type := {
  api_key : pystr;
  client_base_url : pystr
}.

(** The fields of an [OpenAIService] instance. *)
Record OpenAIService : Type := {
  base_url : pystr;
  model : pystr;
  temperature : Q;
  client : option Client
}.

(** [OpenAIService()] *)
Definition init : OpenAIService :=
  {| base_url := Settings.OPENAI_BASE_URL;
     model := Settings.DEFAULT_MODEL;
     temperature := Settings.TEMPERATURE;
     client := None |}.

Definition set_client (self : OpenAIService) (c : Client) : OpenAIService :=
  {| base_url := base_url self;
     model := model self;
     temperature := temperature self;
     client := Some c |}.

(** The keyword arguments of [chat.completions.create]. *)
Record request : Type := {
  req_model : pystr;
  req_messages : list (pystr * pystr);          (* role, content *)
  req_temperature : option Q;
  req_max_tokens : option nat;
  req_stream : bool
}.

Definition cross : N := 10060.       (* U+274C *)

Definition key_missing_msg : pystr :=
  [cross] ++ py " Error: OpenRouter API key not found. Please set "
     ++ py "OPENROUTER_API_KEY environment variable.".

Definition error_text (msg : pystr) : pystr :=
  [cross] ++ py " Error generating report: " ++ msg.

(** [temperature or self.temperature]: [None] and zero are falsy. *)
Definition or_temperature (t : option Q) (d : Q) : Q :=
  match t with
  | Some q => if Qeq_bool q 0 then d else q
  | None => d
  end.

Section Service.

Variable secrets_get : pystr -> option pystr + thrown.
Variable getenv : pystr -> option pystr.

(** [OpenAI(base_url=..., api_key=...)]: the exception the constructor
    raises, if any. *)
Variable OpenAI : pystr -> pystr -> option thrown.

(** [client.chat.completions.create(..., stream=True)] and the iteration
    over what it returns: the [delta.content] of the chunks that
    arrived, and the exception that ended the request or the iteration,
    if any. *)
Variable create_stream : Client -> request -> list (option pystr) * option thrown.

(** The same call without [stream]: the content of the first choice, or
    the exception raised on the way to it. *)
Variable create : Client -> request -> option pystr + thrown.

Definition _get_api_key : option pystr + thrown :=
  match secrets_get InputValidator.OPENROUTER_API_KEY with
  | inl secret => inl (or_ secret (getenv InputValidator.OPENROUTER_API_KEY))
  | inr e => inr e
  end.

(** [_ensure_client]: the value returned or the exception raised, and
    the instance after the call. *)
Definition _ensure_client (self : OpenAIService)
  : (bool + thrown) * OpenAIService :=
  match _get_api_key with
  | inr e => (inr e, self)
  | inl None | inl (Some []) => (inl false, self)
  | inl (Some key) =>
      if match client self with
         | None => true
         | Some c => negb (pystr_eqb (api_key c) key)
         end
      then
        match OpenAI (base_url self) key with
        | None =>
            (inl true,
             set_client self {| api_key := key;
                                client_base_url := base_url self |})
        | Some e =>
            if derives_from_Exception e then (inl false, self)
            else (inr e, self)
        end
      else (inl true, self)
  end.

(** What reading [self.client.chat] raises when [self.client] is
    [None]. *)
Definition no_client_msg : pystr :=
  py "'NoneType' object has no attribute 'chat'".

Definition test_request (self : OpenAIService) : request :=
  {| req_model := model self;
     req_messages := [(py "user", py "test")];
     req_temperature := None;
     req_max_tokens := Some 5%nat;
     req_stream := false |}.

Definition validate_api_key (self : OpenAIService)
  : (bool + thrown) * OpenAIService :=
  match _ensure_client self with
  | (inl true, self') =>
      match client self' with
      | None => (inl false, self')
      | Some c =>
          match create c (test_request self') with
          | inl _ => (inl true, self')
          | inr e =>
              if derives_from_Exception e then (inl false, self')
              else (inr e, self')
          end
      end
  | r => r
  end.

Definition report_request (self : OpenAIService)
    (system_prompt user_prompt : pystr) (model_arg : option pystr)
    (temperature_arg : option Q) (stream : bool) : request :=
  {| req_model := default (model self) (or_ model_arg (Some (model self)));
     req_messages := [(py "system", system_prompt); (py "user", user_prompt)];
     req_temperature := Some (or_temperature temperature_arg
                                             (temperature self));
     req_max_tokens := None;
     req_stream := stream |}.

(** A run of the generator to its end: the chunks it yields, the
    exception that leaves it, if any, and the instance afterwards. *)
Record run : Type := {
  yielded : list pystr;
  raised : option thrown;
  after : OpenAIService
}.

(** [except Exception as e: yield ...] *)
Definition caught (sofar : list pystr) (e : thrown) (self : OpenAIService)
  : run :=
  if derives_from_Exception e
  then {| yielded := sofar ++ [error_text (message e)];
          raised := None; after := self |}
  else {| yielded := sofar; raised := Some e; after := self |}.

Definition generate_report_stream (self : OpenAIService)
    (system_prompt user_prompt : pystr) (model_arg : option pystr)
    (temperature_arg : option Q) : run :=
  match _ensure_client self with
  | (inr e, self') => caught [] e self'
  | (inl false, self') =>
      {| yielded := [key_missing_msg]; raised := None; after := self' |}
  | (inl true, self') =>
      if negb (nonempty system_prompt) || negb (nonempty user_prompt)
      then {| yielded :=
                [error_text (py "System and user prompts are required")];
              raised := None; after := self' |}
      else
        match client self' with
        | None => {| yielded := [error_text no_client_msg];
                     raised := None; after := self' |}
        | Some c =>
            let '(chunks, e) :=
              create_stream c (report_request self' system_prompt user_prompt
                                              model_arg temperature_arg true) in
            let contents := omap id chunks in
            match e with
            | Some e => caught contents e self'
            | None => {| yielded := contents; raised := None;
                         after := self' |}
            end
        end
  end.

(** [generate_report_sync]: the value returned ([None] when the
    response holds no content) or the exception raised. *)
Definition generate_report_sync (self : OpenAIService)
    (system_prompt user_prompt : pystr) (model_arg : option pystr)
    (temperature_arg : option Q)
  : (option pystr + thrown) * OpenAIService :=
  let handle (e : thrown) (self' : OpenAIService) :=
    if derives_from_Exception e
    then (inl (Some (error_text (message e))), self')
    else (inr e, self') in
  match _ensure_client self with
  | (inr e, self') => handle e self'
  | (inl false, self') => (inl (Some key_missing_msg), self')
  | (inl true, self') =>
      match client self' with
      | None => (inl (Some (error_text no_client_msg)), self')
      | Some c =>
          match create c (report_request self' system_prompt user_prompt
                                         model_arg temperature_arg false) with
          | inl content => (inl content, self')
          | inr e => handle e self'
          end
      end
  end.

End Service.

(** [get_available_models] *)
Definition get_available_models : list (pystr * pystr) :=
  [ (py "meta-llama/llama-3-70b-instruct", py "Llama 3 70B (Free)") ].

End OpenAIService.

(** ** [app_improved.py] *)

Module App.

(** [re.sub(open + r'[\s\S]*?```', '', s)] for a literal [open]: every
    stretch from an [open] to the first closing fence after it is taken
    out, left to right.  [skip] counts the characters of the stretch
    still to be passed over. *)
Fixpoint re_sub_fence_from (skip : nat) (open s : pystr) : pystr :=
  match s with
  | [] => []
  | c :: t =>
      match skip with
      | S k => re_sub_fence_from k open t
      | O =>
          match (if startswith open s
                 then lazy_until fence_close (drop (length open) s)
                 else None) with
          | Some body =>
              re_sub_fence_from
                (length open + length body + length fence_close - 1) open t
          | None => c :: re_sub_fence_from 0 open t
          end
      end
  end.

Definition re_sub_fence (open s : pystr) : pystr := re_sub_fence_from 0 open s.

(** The text processing of [generate_report], after the response has
    arrived: the response is cut at the marker, ... *)
Definition report_text_viz_section (full_response : pystr) : pystr * pystr :=
  if contains full_response marker then split_once full_response marker
  else (full_response, []).

(** ... the code blocks are taken out of the written report, ... *)
Definition report_text_clean (full_response : pystr) : pystr :=
  let report_text := fst (report_text_viz_section full_response) in
  let report_text_clean := re_sub_fence fence_open report_text in
  re_sub_fence fence_close report_text_clean.

(** ... and the blocks to show are read from the marker and what
    followed it. *)
Definition code_blocks (full_response : pystr) : list pystr :=
  let viz_section := snd (report_text_viz_section full_response) in
  extract_code_blocks (marker ++ viz_section).

Section DetectFileType.

Context {cell : Type}.
Variable unicode_lower : pystr -> pystr.

Definition scout_cols : gset pystr :=
  {[ py "Strengths"; py "Weaknesses"; py "Summary" ]}.

Definition event_cols : gset pystr :=
  {[ py "x"; py "y"; py "end_x"; py "end_y"; py "Event Type" ]}.

(** [detect_file_type], the function local to [main]. *)
Definition detect_file_type (df : DataFrame cell) : pystr :=
  let norm_cols : gset pystr :=
    list_to_set (map (fun c => lower unicode_lower (strip c)) (columns df)) in
  if bool_decide (scout_cols ∩ list_to_set (columns df) ≠ ∅)
  then py "scout_report"
  else if bool_decide (event_cols ∩ norm_cols ≠ ∅)
  then py "event_data"
  else py "unknown".

End DetectFileType.

End App.

(** * The vocabulary of the properties *)

(** ** What the patterns of the safety gate match *)

(** The strings a compiled pattern matches as a whole. *)
Inductive matches : list item -> pystr -> Prop :=
  | matches_nil : matches [] []
  | matches_one (a : atom) (x : N) (its : list item) (s : pystr) :
      atom_matches a x = true -> matches its s ->
      matches ((a, false) :: its) (x :: s)
  | matches_plus (a : atom) (x : N) (xs : pystr) (its : list item)
      (s : pystr) :
      Forall (fun y => atom_matches a y = true) (x :: xs) ->
      matches its s ->
      matches ((a, true) :: its) (x :: xs ++ s).

(** The pattern matches somewhere in the code. *)
Definition found_in (pattern code : pystr) : Prop :=
  exists pre m post, code = pre ++ m ++ post /\ matches (compile pattern) m.

(** The patterns found in [code], in the order of the list. *)
Definition matched_patterns (code : pystr) : list pystr :=
  filter (fun p => re_search_ignorecase p code = true) DANGEROUS_PATTERNS.

(** ** What the normalizer does, told from the table it starts with *)

Section AliasVocabulary.

Context {cell : Type}.
Implicit Types (T : DataFrame cell) (e : pystr * pystr).
Implicit Types (A : list (pystr * pystr)).

(** The entry maps a column of [T] to [canonical]. *)
Definition present T (canonical : pystr) e : bool :=
  pystr_eqb (snd e) canonical && has_column T (fst e).

(** The first entry of the dict, in its order, that maps a column of [T]
    to [canonical]. *)
Definition first_alias A T (canonical : pystr) : option (pystr * pystr) :=
  List.find (present T canonical) A.

(** The mapping is applied: [T] lacks the canonical column and the entry
    is the first that can supply it. *)
Definition applies A T e : bool :=
  negb (has_column T (snd e)) &&
  bool_decide (first_alias A T (snd e) = Some e).

(** The applied mappings, in the order of the dict. *)
Definition applied A T : list (pystr * pystr) :=
  filter (fun e => applies A T e) A.

(** The canonical column an applied mapping adds. *)
Definition shadow T e : pystr * column cell :=
  (snd e, default [] (getitem T (fst e))).

Definition shadows A T : DataFrame cell := map (shadow T) (applied A T).

End AliasVocabulary.

(** The log entry of a mapping. *)
Definition entry_msg (e : pystr * pystr) : pystr :=
  mapping_msg (fst e) (snd e).

(** No alias of the dict is the canonical name of an entry. *)
Definition no_chain (A : list (pystr * pystr)) : Prop :=
  forall e e', e ∈ A -> e' ∈ A -> fst e <> snd e'.

(** The message [normalize_columns] logs for Squad Name. *)
Definition squad_name_entry : pystr :=
  py "Column mapping: 'Squad Name' " ++ [arrow] ++ py " 'Team'".

(** ** Occurrences that cannot overlap *)

(** One of the two strings is a prefix of the other. *)
Definition compat (a b : pystr) : bool := startswith a b || startswith b a.

(** The non-empty suffixes of a string. *)
Fixpoint tails (l : pystr) : list pystr :=
  match l with
  | [] => []
  | _ :: t => l :: tails t
  end.

(** No occurrence of [w] can share a character with one of [n]. *)
Definition apart (n w : pystr) : bool :=
  forallb (fun n2 => negb (compat n2 w)) (tails n) &&
  forallb (fun w2 => negb (compat w2 n)) (tails w).

(** ** The stages of the repair pass *)

Definition df_plot : pystr := py "df.plot()".

(** The entries of [replacements] before the last one. *)
Definition replacements_before_plot : list (pystr * pystr) :=
  take 6 replacements.

(** The code after the loop over [replacements], and its corrections. *)
Definition after_replacements (code : pystr) : pystr * list pystr :=
  fold_left replacement_step replacements (code, []).

(** The code and the corrections as the formatter finds them. *)
Definition before_format {cell : Type} (self : VisualizationUtils)
    (h : gmap loc (DataFrame cell)) (code : pystr)
  : result (pystr * list pystr) :=
  fold_left (column_step (columns (h !!! df self)))
    (findall_column_refs
       (fst (fold_left replacement_step replacements (code, []))))
    (Returns (fold_left replacement_step replacements (code, []))).

Definition Players : pystr := py "Players".
Definition Player : pystr := py "Player".

(** The template [re.sub] gets for the column Player, parsed. *)
Definition player_template : list piece := map PChar (py "df['Player']").

(** [re.sub] of the references to Players by [df['Player']]. *)
Definition sub_players (s : pystr) : pystr :=
  sub_from 0 Players player_template s.

(** How often the scan found the reference. *)
Definition players_count (ms : list pystr) : nat :=
  length (filter (fun m => m = Players) ms).

Definition players_fix : pystr := column_fix_msg Players Player.

(** What the column pass logs when Players is the one name it rewrites:
    a column fix each time it meets Players, a warning for each other
    name that is no column. *)
Definition column_entries (cols ms : list pystr) : list pystr :=
  flat_map (fun m => if decide (m = Players) then [players_fix]
                     else if existsb (pystr_eqb m) cols then []
                     else [warning_msg m]) ms.

(** The column fixes for Players among logged entries. *)
Definition players_fixes (entries : list pystr) : list pystr :=
  filter (fun e => e = players_fix) entries.

(** ** The [try] block of the executor *)

Section TryBlock.

Context {cell : Type}.
Variable world : Type.

#[local] Abbreviation env := (gmap loc (DataFrame cell) * world)%type.

Variable logger_info : pystr -> env -> option thrown * env.
Variable exec_ : pystr -> safe_globals -> env -> option thrown * env.
Variable savefig : env -> (buffer + thrown) * env.
Variable clf : env -> option thrown * env.



End TryBlock.

(** ** Fenced blocks *)

(** [sub] occurs in [s] at index [k] and at no lower index. *)
Definition first_at (sub s : pystr) (k : nat) : Prop :=
  startswith sub (drop k s) = true /\
  forall j, (j < k)%nat -> startswith sub (drop j s) = false.

(** The python-tagged fenced blocks of a text, in the order they appear:
    a block opens at the first [```python] of the text and holds
    everything up to the first [```] after it; the next blocks are those
    of the text after that closing fence.  There is none when no
    [```python] of the text has a [```] after it. *)
Inductive fenced_blocks : pystr -> list pystr -> Prop :=
  | fenced_none (s : pystr) :
      (forall k, startswith fence_open (drop k s) = true ->
                 contains (drop (k + length fence_open) s) fence_close = false) ->
      fenced_blocks s []
  | fenced_cons (s : pystr) (k : nat) (body : pystr) (bs : list pystr) :
      first_at fence_open s k ->
      first_at fence_close (drop (k + length fence_open) s) (length body) ->
      body = take (length body) (drop (k + length fence_open) s) ->
      fenced_blocks
        (drop (k + length fence_open + length body + length fence_close) s) bs ->
      fenced_blocks s (body :: bs).

(** White space only. *)
Definition blank (s : pystr) : Prop := Forall (fun c => isspace c = true) s.

(** Trimmed, with the blocks of white space only left out. *)
Definition trimmed (blocks : list pystr) : list pystr :=
  map strip (filter (fun b => ~ blank b) blocks).

(** The text of the extraction example of the specification. *)
Definition extraction_example : pystr :=
  py "prose ## SUGGESTED VISUALIZATIONS " ++ [newline] ++ py "```python"
     ++ [newline] ++ py "X" ++ [newline] ++ py "```".

(** ** The queue of [get_matching_blocks] *)

(** The block lies in [a[alo:ahi]]. *)
Definition in_range (alo ahi : nat) (blk : Difflib.block) : Prop :=
  let '(besti, _, bestsize) := blk in
  (alo <= besti)%nat /\ (besti + bestsize <= ahi)%nat.

(** What the queue still holds: each range counts for twice its length
    plus one. *)
Definition queue_weight (queue : list (nat * nat * nat * nat)) : nat :=
  list_sum (map (fun '(alo, ahi, _, _) => 2 * (ahi - alo) + 1)%nat queue).

(** Every range of the queue is well formed. *)
Definition queue_ok (queue : list (nat * nat * nat * nat)) : Prop :=
  Forall (fun '(alo, ahi, _, _) => (alo <= ahi)%nat) queue.

(** ** Tables, formatters and interpreters for the instances *)

Module NormalizerExamples.

Definition squad_table : DataFrame N :=
  [ (py "Squad Name", [7; 8]); (py "X", [1; 2]) ].

Definition two_alias_table : DataFrame N :=
  [ (py "Squad", [1]); (py "Club", [2]) ].

Definition squad_and_squad_name : DataFrame N :=
  [ (py "Squad", [1]); (py "Squad Name", [2]) ].

(** A store holding one table, at reference 1. *)
Definition store_of (T : DataFrame N) : gmap loc (DataFrame N) :=
  {[ 1%positive := T ]}.

(** The entry the log would hold if the names were quoted with double
    quotes. *)
Definition squad_name_entry_double_quoted : pystr :=
  py "Column mapping: " ++ [dquote] ++ py "Squad Name" ++ [dquote]
     ++ py " " ++ [arrow] ++ py " " ++ [dquote] ++ py "Team" ++ [dquote].

(** The caller's two lines: build the instance on the table, normalize. *)
Definition normalized (T : DataFrame N) : DataFrame N :=
  let '(l', h', _) := normalize_columns (init (store_of T) 1) (store_of T) in
  h' !!! l'.

Definition log_after (T : DataFrame N) : list pystr :=
  let '(_, _, self') :=
    normalize_columns (init (store_of T) 1) (store_of T) in
  corrections_log self'.

End NormalizerExamples.
Import NormalizerExamples.

Module RepairExamples.

Definition player_table : DataFrame N :=
  [ (py "Player", [1; 2]); (py "Team", [3; 4]) ].

(** Tables in which Players is a column, and in which another column
    is closer to Players than Player is. *)
Definition players_table : DataFrame N :=
  [ (py "Player", [1; 2]); (py "Players", [3; 4]) ].

Definition playerss_table : DataFrame N :=
  [ (py "Player", [1; 2]); (py "Playerss", [3; 4]) ].

(** A table with a backslash in a column name. *)
Definition backslash_table : DataFrame N := [ (py "Player\1", [1]) ].

(** A formatter that finds nothing to change. *)
Definition no_format (s : pystr) : pystr + pystr := inl s.

Definition repair (T : DataFrame N) (code : pystr)
  : result (pystr * list pystr) :=
  auto_fix_plot_code no_format (init (store_of T) 1) (store_of T) code.

End RepairExamples.
Import RepairExamples.

Module ExecutorExamples.

(** What [raise SystemExit] throws. *)
Definition SystemExit : thrown :=
  {| derives_from_Exception := false;
     message := [];
     format_exc := py "Traceback (most recent call last): SystemExit" |}.

(** What [1 / 0] throws. *)
Definition ZeroDivisionError : thrown :=
  {| derives_from_Exception := true;
     message := py "division by zero";
     format_exc :=
       py "Traceback (most recent call last): ZeroDivisionError: division by zero" |}.

(** What [raise Bad] throws after [class Bad(Exception)] with a
    [__str__] that evaluates [1 / 0]. *)
Definition Bad : thrown :=
  {| derives_from_Exception := true;
     message := [];
     format_exc :=
       py "Traceback (most recent call last): Bad: <exception str() failed>" |}.

Definition bad_code : pystr :=
  py "class Bad(Exception):" ++ [newline]
  ++ py "    def __str__(self):" ++ [newline]
  ++ py "        return 1 / 0" ++ [newline]
  ++ py "raise Bad".

#[local] Abbreviation env := (gmap loc (DataFrame N) * unit)%type.

(** An interpreter in which code with [raise SystemExit] in it ends
    with that exception, [bad_code] ends with [Bad], code with
    [x = 1 / 0] in it ends with [ZeroDivisionError], and other code
    runs through. *)
Definition exec_with_exit (code : pystr) (g : safe_globals) (st : env)
  : option thrown * env :=
  if contains code (py "raise SystemExit") then (Some SystemExit, st)
  else if pystr_eqb code bad_code then (Some Bad, st)
  else if contains code (py "x = 1 / 0") then (Some ZeroDivisionError, st)
  else (None, st).

Definition savefig_blank (st : env) : (buffer + thrown) * env :=
  (inl ([] : buffer), st).

Definition clf_blank (st : env) : option thrown * env := (None, st).

(** A logger that takes every message. *)
Definition logger_quiet (msg : pystr) (st : env) : option thrown * env :=
  (None, st).

#[local] Instance thrown_eq_dec : EqDecision thrown.
Proof. solve_decision. Defined.

(** [str(e)]: the [__str__] of [Bad] raises, that of the interpreter's
    classes returns. *)
Definition str_class (e : thrown) (st : env) : (pystr + thrown) * env :=
  if bool_decide (e = Bad) then (inr ZeroDivisionError, st)
  else (inl (message e), st).

(** [traceback.format_exc] as the standard library has it. *)
Definition format_exc_own (e : thrown) (st : env) : (pystr + thrown) * env :=
  (inl (format_exc e), st).

Definition execute (T : DataFrame N) (code : pystr) :=
  execute_code_safely no_format unit logger_quiet exec_with_exit savefig_blank
                      clf_blank str_class format_exc_own logger_quiet
                      (init (store_of T) 1) (store_of T) tt code.

End ExecutorExamples.
Import ExecutorExamples.


(** ** The rest of the application *)

(** *** More on the safety gate *)

(** Two characters that are the same, or the same ASCII letter in two
    cases. *)
Definition same_letter (c d : N) : Prop :=
  c = d \/
  ((is_ascii_upper c || is_ascii_lower c) = true /\
   (is_ascii_upper d || is_ascii_lower d) = true /\
   ascii_tolower c = ascii_tolower d).

#[global] Instance same_letter_dec (c d : N) : Decision (same_letter c d).
Proof. unfold same_letter. apply _. Defined.

(** *** Code the repair pass leaves alone *)

(** The warnings of the column pass: one for each reference found that
    names no column. *)
Definition warnings (cols ms : list pystr) : list pystr :=
  map warning_msg (filter (fun m => m ∉ cols) ms).

(** The entry of the last replacement, logged when the code holds
    [df.plot()]. *)
Definition plot_entry (code : pystr) : list pystr :=
  if contains code df_plot then [code_fix_msg df_plot df_plot] else [].

(** *** The entries of the column pass *)

(** An entry of the column pass: a warning for a reference found that
    names no column and has no close match, or a fix of such a
    reference to a column of the table. *)
Definition column_entry (cols refs : list pystr) (e : pystr) : Prop :=
  exists col,
    col ∈ refs /\ (col ∉ cols) /\
    ((Difflib.get_close_matches col cols = [] /\ e = warning_msg col) \/
     (exists close, close ∈ cols /\ e = column_fix_msg col close)).

(** *** The text processing of [generate_report] *)

(** Two closing fences of the text that do not overlap: a fenced block,
    tagged or not. *)
Definition fence_pair (t : pystr) : Prop :=
  exists i j, (i + length fence_close <= j)%nat /\
              startswith fence_close (drop i t) = true /\
              startswith fence_close (drop j t) = true.

(** The stretch [re.sub] takes out at the head of the text, if any: the
    body between the opening and the first closing fence after it. *)
Definition fence_match (open s : pystr) : option pystr :=
  if startswith open s then lazy_until fence_close (drop (length open) s)
  else None.

(** *** [detect_file_type] *)

(** What is known of [str.lower()] on strings that are not ASCII only:
    the result holds no capital ASCII letter. *)
Definition lowers (unicode_lower : pystr -> pystr) : Prop :=
  forall s c, c ∈ unicode_lower s -> is_ascii_upper c = false.

(** The names of the scout-report columns, in the order of the set
    literal. *)
Definition scout_columns : list pystr :=
  map py ["Strengths"; "Weaknesses"; "Summary"]%string.

(** *** The validators and the normalizer *)

(** The canonical name is no alias itself, and every alias the
    configuration gives it is one the normalizer knows. *)
Definition aliases_agree (col : pystr) : Prop :=
  dict_get Settings.COLUMN_ALIASES col = None /\
  forall c, (c, col) ∈ Settings.COLUMN_ALIASES -> (c, col) ∈ COLUMN_ALIASES.

(** The coordinate columns, in the order of the set literal. *)
Definition coordinate_columns : list pystr :=
  [py "x"; py "y"; py "end_x"; py "end_y"].

(** The aliases of Team the normalizer knows. *)
Definition team_names : list pystr :=
  map py ["Team"; "Squad"; "Team Name"; "Squad Name"; "Club";
          "Club Name"]%string.

(** *** [sanitize_dataframe] *)

Section SanitizeVocabulary.

Context {cell : Type}.
Variable unicode_lower : pystr -> pystr.
Variable is_object : column cell -> bool.
Variable cell_str : cell -> pystr.
Variable str_cell : pystr -> cell.

(** The columns [sanitize_dataframe] keeps. *)
Definition kept (T : DataFrame cell) : DataFrame cell :=
  filter (fun kv => DataValidator.to_remove unicode_lower (fst kv) = false) T.

(** The table with the cells of its object columns turned into stripped
    strings. *)
Definition cleaned (T : DataFrame cell) : DataFrame cell :=
  map (fun kv =>
         (fst kv,
          if is_object (snd kv)
          then DataValidator.astype_str_strip cell_str str_cell (snd kv)
          else snd kv)) T.

(** One assignment of the cleaning loop, on a table. *)
Definition clean_column (t : DataFrame cell) (col : pystr) : DataFrame cell :=
  setitem t col
          (DataValidator.astype_str_strip cell_str str_cell
             (default [] (getitem t col))).

End SanitizeVocabulary.

(** ** Tables and oracles for the instances *)

Module AppExamples.

(** A table with the alias only the configuration knows. *)
Definition squadName_table : DataFrame N :=
  [ (py "squadName", [1; 2]); (py "x", [3; 4]) ].

(** A table with names the sensitive-name test catches. *)
Definition sensitive_table : DataFrame N :=
  [ (py "Player", [1]); (py "Width", [2]); (py "Player ID", [3]);
    (py "email", [4]) ].

(** The oracles: sets gone through in the order of [elements]; no null
    cell; every cell printed as one character. *)
Definition iter_elements (s : gset pystr) : list pystr := elements s.
Definition no_null (c : N) : bool := false.
Definition format_none (p : Q) : pystr := [].
Definition nunique_zero (c : column N) : nat := 0.
Definition lower_none (s : pystr) : pystr := [].
Definition all_object (c : column N) : bool := true.
Definition cell_str_char (c : N) : pystr := [c].
Definition str_cell_head (s : pystr) : N := List.hd 0 s.

Definition validate_report : DataFrame N -> pystr -> bool * list pystr :=
  DataValidator.validate_dataframe_for_report no_null format_none nunique_zero.

Definition validate_visualization : DataFrame N -> bool * list pystr :=
  DataValidator.validate_visualization_columns iter_elements.

Definition sanitize : gmap loc (DataFrame N) -> loc
                      -> loc * gmap loc (DataFrame N) :=
  DataValidator.sanitize_dataframe lower_none all_object cell_str_char
                                   str_cell_head.

(** An environment with a key in the secrets, and a constructor that
    does not raise. *)
Definition secrets_with_key (k : pystr) : option pystr + thrown :=
  inl (Some (py "sk-or-0123456789")).
Definition getenv_none (k : pystr) : option pystr := None.
Definition OpenAI_ok (base_url api_key : pystr) : option thrown := None.
Definition OpenAI_fails (base_url api_key : pystr) : option thrown :=
  Some {| derives_from_Exception := true; message := py "no network";
          format_exc := [] |}.

(** A service that sends two chunks and ends. *)
Definition create_stream_two (c : OpenAIService.Client)
    (r : OpenAIService.request) : list (option pystr) * option thrown :=
  ([Some (py "Report"); None; Some (py ".")], None).

End AppExamples.
Import AppExamples.

(** * Properties *)

(** ** Strings *)

Lemma pystr_eqb_eq (a b : pystr) : pystr_eqb a b = true <-> a = b.
Proof. unfold pystr_eqb. apply bool_decide_eq_true. Qed.

Lemma pystr_eqb_refl (a : pystr) : pystr_eqb a a = true.
Proof. by apply pystr_eqb_eq. Qed.

Lemma pystr_eqb_neq (a b : pystr) : pystr_eqb a b = false <-> a <> b.
Proof. unfold pystr_eqb. apply bool_decide_eq_false. Qed.

Lemma startswith_app (p r : pystr) : startswith p (p ++ r) = true.
Proof.
  induction p as [|c p IH]; simpl; [done|].
  by rewrite N.eqb_refl, IH.
Qed.

Lemma startswith_inv (p s : pystr) :
  startswith p s = true -> s = p ++ drop (length p) s.
Proof.
  revert s. induction p as [|c p IH]; intros [|d s] H; simpl in *; try done.
  apply andb_true_iff in H as [Hc Hp].
  apply N.eqb_eq in Hc as ->. f_equal. by apply IH.
Qed.

Lemma startswith_iff (p s : pystr) :
  startswith p s = true <-> exists r, s = p ++ r.
Proof.
  split.
  - intros H. eexists. by apply startswith_inv.
  - intros [r ->]. apply startswith_app.
Qed.

(** ** What the patterns of the safety gate match *)

Section SafetyReFacts.

Implicit Types (its : list item) (s m : pystr).

Lemma match_here_nil s : match_here [] s = true.
Proof. by destruct s. Qed.

Lemma match_here_cons (a : atom) (plus : bool) its (x : N) s :
  match_here ((a, plus) :: its) (x :: s)
  = atom_matches a x &&
    (if plus then match_here ((a, plus) :: its) s || match_here its s
     else match_here its s).
Proof. reflexivity. Qed.

Lemma match_here_sound its s :
  match_here its s = true ->
  exists m post, s = m ++ post /\ matches its m.
Proof.
  revert its. induction s as [|x t IH]; intros its H.
  - destruct its as [|[a plus] rest]; [|done].
    exists [], []. split; [done | constructor].
  - destruct its as [|[a plus] rest].
    { exists [], (x :: t). split; [done | constructor]. }
    cbn [match_here] in H. apply andb_true_iff in H as [Ha H].
    destruct plus.
    + apply orb_true_iff in H as [H|H].
      * apply IH in H as (m & post & -> & Hm).
        inversion Hm as [| |a' y ys its' s' Hall Hrest]; subst.
        exists (x :: y :: ys ++ s'), post. split; [done|].
        apply (matches_plus a x (y :: ys)); [|done]. by constructor.
      * apply IH in H as (m & post & -> & Hm).
        exists (x :: m), post. split; [done|].
        apply (matches_plus a x [] rest m); [|done].
        by constructor.
    + apply IH in H as (m & post & -> & Hm).
      exists (x :: m), post. split; [done|]. by constructor.
Qed.

Lemma match_here_complete its m post :
  matches its m -> match_here its (m ++ post) = true.
Proof.
  induction 1 as [|a x its s Ha Hm IH|a x xs its s Hall Hm IH].
  - apply match_here_nil.
  - cbn [app]. by rewrite match_here_cons, Ha, IH.
  - revert x Hall. induction xs as [|y ys IHxs]; intros x Hall.
    + cbn [app]. rewrite match_here_cons.
      apply Forall_cons in Hall as [-> _].
      by rewrite IH, orb_true_r.
    + apply Forall_cons in Hall as [Hx Hall].
      specialize (IHxs y Hall).
      change ((x :: (y :: ys) ++ s) ++ post)
        with (x :: ((y :: ys ++ s) ++ post)).
      by rewrite match_here_cons, Hx, IHxs.
Qed.

Lemma search_items_spec its s :
  search_items its s = true <->
  exists pre m post, s = pre ++ m ++ post /\ matches its m.
Proof.
  split.
  - induction s as [|x t IH]; cbn [search_items]; intros H.
    + rewrite orb_false_r in H.
      apply match_here_sound in H as (m & post & -> & Hm).
      by exists [], m, post.
    + apply orb_true_iff in H as [H|H].
      * apply match_here_sound in H as (m & post & -> & Hm).
        by exists [], m, post.
      * destruct (IH H) as (pre & m & post & -> & Hm).
        by exists (x :: pre), m, post.
  - intros (pre & m & post & -> & Hm).
    induction pre as [|x pre IH].
    + cbn [app]. pose proof (match_here_complete its m post Hm) as H.
      destruct (m ++ post); cbn [search_items]; by rewrite H.
    + cbn [app search_items]. by rewrite IH, orb_true_r.
Qed.

(** [re.search] finds a pattern exactly when some part of the code
    matches it. *)
Lemma re_search_ignorecase_spec (pattern code : pystr) :
  re_search_ignorecase pattern code = true <-> found_in pattern code.
Proof. apply search_items_spec. Qed.

End SafetyReFacts.

(** ** The safety gate *)

Section SafetyGate.

Variable code : pystr.

Lemma check_loop (ps : list pystr) (acc : list pystr) :
  fold_left (check_step code) ps acc
  = acc ++ map blocked_msg
             (filter (fun p => re_search_ignorecase p code = true) ps).
Proof.
  revert acc. induction ps as [|p ps IH]; intros acc; simpl.
  - by rewrite app_nil_r.
  - rewrite IH. unfold check_step. rewrite filter_cons.
    destruct (re_search_ignorecase p code) eqn:E.
    + rewrite decide_True by done. simpl. by rewrite <- app_assoc.
    + rewrite decide_False by done. done.
Qed.

Lemma check_code_safety_issues :
  snd (check_code_safety code) = map blocked_msg (matched_patterns code).
Proof. unfold check_code_safety. cbn [snd]. apply check_loop. Qed.

Lemma check_code_safety_safe :
  fst (check_code_safety code) = true <-> matched_patterns code = [].
Proof.
  unfold check_code_safety. cbn [fst]. rewrite check_loop.
  fold (matched_patterns code). rewrite app_nil_l, Nat.eqb_eq, length_map.
  destruct (matched_patterns code); cbn [length]; split; intros; done.
Qed.

Lemma matched_patterns_nil :
  matched_patterns code = [] <->
  forall p, p ∈ DANGEROUS_PATTERNS -> re_search_ignorecase p code = false.
Proof.
  unfold matched_patterns. split.
  - intros H p Hp. destruct (re_search_ignorecase p code) eqn:E; [|done].
    assert (p ∈ @nil pystr) as Hin; [|by apply not_elem_of_nil in Hin].
    rewrite <- H. apply list_elem_of_filter. done.
  - intros H. induction DANGEROUS_PATTERNS as [|p ps IH]; [done|].
    rewrite filter_cons. rewrite decide_False.
    + apply IH. intros q Hq. apply H. by right.
    + rewrite H; [done | by left].
Qed.

End SafetyGate.

(** C1. [check_code_safety] reports one violation per pattern of
    [DANGEROUS_PATTERNS] found in the code (searched case-insensitively),
    in the order of the list; the code is unsafe, with a non-empty list
    of violations, exactly when some pattern is found, and safe with no
    violation when none is.  A pattern is found when some part of the
    code matches it. *)
Theorem check_code_safety_verdict (code : pystr) :
  snd (check_code_safety code) = map blocked_msg (matched_patterns code) /\
  ((fst (check_code_safety code) = false /\ snd (check_code_safety code) <> [])
   <-> exists p, p ∈ DANGEROUS_PATTERNS /\
                 re_search_ignorecase p code = true) /\
  ((forall p, p ∈ DANGEROUS_PATTERNS -> re_search_ignorecase p code = false)
   -> check_code_safety code = (true, [])) /\
  (forall p, re_search_ignorecase p code = true <-> found_in p code).
Proof.
  pose proof (check_code_safety_issues code) as Hi.
  destruct (check_code_safety_safe code) as [Hs1 Hs2].
  destruct (matched_patterns_nil code) as [Hn1 Hn2].
  split; [done|]. split.
  - split.
    + intros [Hf Hne].
      destruct (matched_patterns code) as [|p l] eqn:Em.
      * rewrite Hs2 in Hf; done.
      * assert (p ∈ matched_patterns code) as Hin by (rewrite Em; left).
        apply list_elem_of_filter in Hin as [Hm Hp]. by exists p.
    + intros (p & Hp & Hm).
      assert (matched_patterns code <> []) as Hne.
      { intros E. specialize (Hn1 E p Hp). congruence. }
      split.
      * destruct (fst (check_code_safety code)) eqn:E; [|done].
        by specialize (Hs1 eq_refl).
      * rewrite Hi. destruct (matched_patterns code); done.
  - split; [|intros p; apply re_search_ignorecase_spec].
    intros H. specialize (Hn2 H).
    destruct (check_code_safety code) as [safe issues] eqn:E.
    cbn [fst snd] in *. rewrite Hi, Hn2. cbn [map]. f_equal. by apply Hs2.
Qed.

(** The gate on two inputs: an import of [os], in capitals and with
    several blanks, and plain code. *)
Example check_code_safety_import_os :
  check_code_safety (py "IMPORT   os")
  = (false, [py "Blocked dangerous pattern: import\s+os"]).
Proof. vm_compute. reflexivity. Qed.

Example check_code_safety_plain :
  check_code_safety (py "x = df['Player']") = (true, []).
Proof. vm_compute. reflexivity. Qed.

(** ** Tables *)

Section TableFacts.

Context {cell : Type}.
Implicit Types (t : DataFrame cell) (name : pystr) (col : column cell).

Lemma has_column_true t name : has_column t name = true <-> name ∈ columns t.
Proof.
  unfold has_column. rewrite existsb_exists. split.
  - intros (x & Hx & Heq). apply pystr_eqb_eq in Heq as ->.
    by apply list_elem_of_In.
  - intros H. exists name. split; [by apply list_elem_of_In|].
    apply pystr_eqb_refl.
Qed.

Lemma has_column_false t name : has_column t name = false <-> name ∉ columns t.
Proof.
  rewrite <- has_column_true. destruct (has_column t name); split; done.
Qed.

Lemma has_column_app t1 t2 name :
  has_column (t1 ++ t2) name = has_column t1 name || has_column t2 name.
Proof. unfold has_column, columns. by rewrite map_app, existsb_app. Qed.

Lemma getitem_app t1 t2 name :
  getitem (t1 ++ t2) name =
  match getitem t1 name with
  | Some col => Some col
  | None => getitem t2 name
  end.
Proof.
  induction t1 as [|[k v] t1 IH]; simpl; [done|].
  destruct (pystr_eqb name k); done.
Qed.

Lemma getitem_None t name : getitem t name = None <-> has_column t name = false.
Proof.
  induction t as [|[k v] t IH]; simpl; [done|].
  unfold has_column in *. simpl.
  destruct (pystr_eqb name k); simpl; [split; done | done].
Qed.

Lemma getitem_has t name :
  has_column t name = true -> exists col, getitem t name = Some col.
Proof.
  intros H. destruct (getitem t name) as [col|] eqn:E; [by exists col|].
  apply getitem_None in E. congruence.
Qed.

Lemma getitem_elem t name col : getitem t name = Some col -> (name, col) ∈ t.
Proof.
  induction t as [|[k v] t IH]; simpl; [done|].
  destruct (pystr_eqb name k) eqn:E.
  - apply pystr_eqb_eq in E as ->. intros [= ->]. left.
  - intros H. right. by apply IH.
Qed.

Lemma setitem_new t name col :
  has_column t name = false -> setitem t name col = t ++ [(name, col)].
Proof.
  induction t as [|[k v] t IH]; simpl; [done|].
  unfold has_column in *. simpl.
  destruct (pystr_eqb name k); simpl; [done|].
  intros H. by rewrite IH.
Qed.

End TableFacts.

(** ** The normalizer on a table *)

(** What the loop does, told from the table it starts with, for any
    alias dict [A]. *)
Section AliasMap.

Context {cell : Type}.
Implicit Types (T : DataFrame cell) (e : pystr * pystr).

Lemma find_app {X} (f : X -> bool) (l1 l2 : list X) :
  List.find f (l1 ++ l2) =
  match List.find f l1 with
  | Some x => Some x
  | None => List.find f l2
  end.
Proof.
  induction l1 as [|x l1 IH]; simpl; [done|]. destruct (f x); done.
Qed.

Lemma find_elem {X} (f : X -> bool) (l : list X) x :
  List.find f l = Some x -> x ∈ l /\ f x = true.
Proof.
  intros H. apply find_some in H as [H1 H2]. split; [|done].
  by apply list_elem_of_In.
Qed.

Lemma find_None_elem {X} (f : X -> bool) (l : list X) x :
  List.find f l = None -> x ∈ l -> f x = false.
Proof.
  intros H Hx. apply list_elem_of_In in Hx. by eapply find_none.
Qed.

Lemma filter_ext_elem {X} (f g : X -> bool) (l : list X) :
  (forall x, x ∈ l -> f x = g x) ->
  filter (fun x => f x) l = filter (fun x => g x) l.
Proof.
  induction l as [|x l IH]; intros H; [done|].
  rewrite !filter_cons, IH by (intros y Hy; apply H; by right).
  rewrite (H x) by left. done.
Qed.

(** An applied mapping of a prefix of the dict stays applied when the
    dict grows, and no other entry of the prefix becomes applied. *)
Lemma applies_snoc (A1 : list (pystr * pystr)) e0 T e :
  e ∈ A1 -> applies (A1 ++ [e0]) T e = applies A1 T e.
Proof.
  intros He. unfold applies, first_alias. rewrite find_app.
  destruct (List.find (present T (snd e)) A1) as [x|] eqn:E; [done|].
  f_equal. rewrite (bool_decide_eq_false_2 (None = Some e)) by done.
  apply bool_decide_eq_false_2. simpl.
  destruct (present T (snd e) e0) eqn:E0; [|done].
  intros [= ->].
  pose proof (find_None_elem _ _ _ E He). congruence.
Qed.

Lemma applies_last (A1 : list (pystr * pystr)) e0 T :
  e0 ∉ A1 ->
  applies (A1 ++ [e0]) T e0 =
  has_column T (fst e0) && negb (has_column T (snd e0)) &&
  bool_decide (first_alias A1 T (snd e0) = None).
Proof.
  intros Hnew. unfold applies, first_alias. rewrite find_app.
  destruct (List.find (present T (snd e0)) A1) as [x|] eqn:E.
  - rewrite (bool_decide_eq_false_2 (Some x = None)) by done.
    rewrite andb_false_r.
    apply andb_false_intro2, bool_decide_eq_false_2.
    intros [= ->]. apply find_elem in E as [E _]. done.
  - rewrite (bool_decide_eq_true_2 (None = None)) by done.
    rewrite andb_true_r. cbn [List.find]. unfold present.
    rewrite (pystr_eqb_refl (snd e0)). cbn [andb].
    destruct (has_column T (fst e0)); cbn [andb].
    + rewrite bool_decide_eq_true_2 by done. by rewrite andb_true_r.
    + rewrite bool_decide_eq_false_2 by done. by rewrite andb_false_r.
Qed.

Lemma applied_snoc (A1 : list (pystr * pystr)) e0 T :
  e0 ∉ A1 ->
  applied (A1 ++ [e0]) T =
  applied A1 T ++ (if applies (A1 ++ [e0]) T e0 then [e0] else []).
Proof.
  intros Hnew. unfold applied. rewrite filter_app. f_equal.
  - apply filter_ext_elem. intros e He. by apply applies_snoc.
  - rewrite filter_cons, filter_nil.
    destruct (applies (A1 ++ [e0]) T e0).
    + by rewrite decide_True by exact I.
    + by rewrite decide_False by (intros []).
Qed.

End AliasMap.

Section NormalizeLoop.

Context {cell : Type}.
Implicit Types (T : DataFrame cell) (e : pystr * pystr).

Lemma applied_elem A T e :
  e ∈ applied A T <-> e ∈ A /\ applies A T e = true.
Proof.
  unfold applied. rewrite list_elem_of_filter.
  rewrite Is_true_true. tauto.
Qed.

Lemma columns_shadows A T : columns (shadows A T) = map snd (applied A T).
Proof. unfold shadows, columns. rewrite map_map. done. Qed.

Lemma has_shadows_alias A T (a : pystr) :
  (forall e, e ∈ A -> a <> snd e) -> has_column (shadows A T) a = false.
Proof.
  intros H. apply has_column_false. rewrite columns_shadows.
  intros Hin. apply list_elem_of_fmap in Hin as (e & -> & He).
  apply applied_elem in He as [He _]. by apply (H e).
Qed.

Lemma has_shadows_canonical A T (c : pystr) :
  has_column T c = false ->
  has_column (shadows A T) c = negb (bool_decide (first_alias A T c = None)).
Proof.
  intros HT. destruct (first_alias A T c) as [e|] eqn:E.
  - rewrite bool_decide_eq_false_2 by done. simpl.
    apply has_column_true. rewrite columns_shadows.
    pose proof E as E'. apply find_elem in E' as [He Hp].
    unfold present in Hp. apply andb_true_iff in Hp as [Hc Ha].
    apply pystr_eqb_eq in Hc. subst c.
    apply list_elem_of_fmap. exists e. split; [done|].
    apply applied_elem. split; [done|]. unfold applies.
    rewrite HT, E. simpl. by apply bool_decide_eq_true_2.
  - rewrite bool_decide_eq_true_2 by done. simpl.
    apply has_column_false. rewrite columns_shadows.
    intros Hin. apply list_elem_of_fmap in Hin as (e & -> & He).
    apply applied_elem in He as [He Ha]. unfold applies in Ha.
    apply andb_true_iff in Ha as [_ Ha]. apply bool_decide_eq_true in Ha.
    congruence.
Qed.

(** The loop adds the shadow columns of the applied mappings after the
    columns of [T] and logs one entry for each, in the order of the
    dict. *)
Lemma normalize_loop A T (log : list pystr) :
  NoDup (map fst A) -> no_chain A ->
  fold_left normalize_step A (T, log)
  = (T ++ shadows A T, log ++ map entry_msg (applied A T)).
Proof.
  induction A as [|e0 A1 IH] using rev_ind; intros Hnd Hnc.
  - simpl. by rewrite !app_nil_r.
  - rewrite fold_left_app. cbn [fold_left].
    assert (e0 ∉ A1) as Hnew.
    { rewrite map_app in Hnd. apply NoDup_app in Hnd as (_ & Hd & _).
      intros Hin. apply (Hd (fst e0)).
      - apply list_elem_of_fmap. by exists e0.
      - left. }
    rewrite IH; cycle 1.
    { rewrite map_app in Hnd. by apply NoDup_app in Hnd as (? & _ & _). }
    { intros e e' He He'. apply Hnc; apply elem_of_app; by left. }
    unfold shadows. rewrite (applied_snoc A1 e0 T Hnew).
    rewrite (applies_last A1 e0 T Hnew).
    destruct e0 as [a c]. cbn [fst snd]. unfold normalize_step.
    rewrite !has_column_app. fold (shadows A1 T).
    rewrite (has_shadows_alias A1 T a); cycle 1.
    { intros e He. apply (Hnc (a, c) e); apply elem_of_app;
        [right; left | by left]. }
    rewrite orb_false_r.
    destruct (has_column T a) eqn:Ha; cbn [andb]; cycle 1.
    { by rewrite !app_nil_r. }
    destruct (has_column T c) eqn:Hc; cbn [andb orb negb]; cycle 1.
    + rewrite (has_shadows_canonical A1 T c Hc).
      rewrite negb_involutive.
      destruct (bool_decide (first_alias A1 T c = None)) eqn:Hf.
      * rewrite getitem_app.
        destruct (getitem_has T a Ha) as [col Hcol]. rewrite Hcol.
        rewrite setitem_new; cycle 1.
        { rewrite has_column_app, Hc, (has_shadows_canonical A1 T c Hc), Hf.
          done. }
        rewrite !map_app. cbn [map]. unfold shadow at 2, entry_msg at 2.
        cbn [fst snd]. rewrite Hcol. cbn [default].
        by rewrite <- !app_assoc.
      * by rewrite !app_nil_r.
    + by rewrite !app_nil_r.
Qed.

End NormalizeLoop.

(** ** The normalizer on the store *)

Lemma COLUMN_ALIASES_keys : NoDup (map fst COLUMN_ALIASES).
Proof. apply (bool_decide_unpack _). vm_compute. exact I. Qed.

Lemma COLUMN_ALIASES_no_chain : no_chain COLUMN_ALIASES.
Proof.
  assert (Forall (fun e => Forall (fun e' : pystr * pystr => fst e <> snd e')
                                  COLUMN_ALIASES) COLUMN_ALIASES) as H.
  { apply (bool_decide_unpack _). vm_compute. exact I. }
  intros e e' He He'.
  rewrite Forall_forall in H. specialize (H e He).
  rewrite Forall_forall in H. by apply H.
Qed.

Section NormalizerFacts.

Context {cell : Type}.
Implicit Types (T : DataFrame cell) (h : gmap loc (DataFrame cell)).
Implicit Types (self : VisualizationUtils).

Lemma normalize_loop_at (l' : loc) A h T (log : list pystr) :
  fold_left (normalize_step_at l') A (<[l' := T]> h, log)
  = (<[l' := fst (fold_left normalize_step A (T, log))]> h,
     snd (fold_left normalize_step A (T, log))).
Proof.
  revert T log. induction A as [|e A IH]; intros T log; [done|].
  cbn [fold_left]. unfold normalize_step_at at 2.
  rewrite lookup_total_insert_eq.
  destruct (normalize_step (T, log) e) as [T' log'] eqn:E.
  rewrite insert_insert_eq. apply IH.
Qed.

(** The method in one equation: the copy is a new object holding [T]
    followed by the shadow columns, and the log grows by one entry for
    each of them. *)
Lemma normalize_columns_eq self h :
  let T := h !!! df self in
  normalize_columns self h
  = (fresh (dom h),
     <[fresh (dom h) := T ++ shadows COLUMN_ALIASES T]> h,
     set_corrections_log self
       (corrections_log self
          ++ map entry_msg (applied COLUMN_ALIASES T))).
Proof.
  intros T. subst T. unfold normalize_columns, copy.
  rewrite normalize_loop_at.
  rewrite (normalize_loop COLUMN_ALIASES (h !!! df self) (corrections_log self)
             COLUMN_ALIASES_keys COLUMN_ALIASES_no_chain).
  done.
Qed.

Lemma applied_NoDup A T : NoDup (map fst A) -> NoDup (map snd (applied A T)).
Proof.
  intros Hk. apply NoDup_fmap_2_strong.
  - intros e e' He He' Heq.
    apply applied_elem in He as [_ He]. apply applied_elem in He' as [_ He'].
    unfold applies in *.
    apply andb_true_iff in He as [_ He]. apply bool_decide_eq_true in He.
    apply andb_true_iff in He' as [_ He']. apply bool_decide_eq_true in He'.
    rewrite Heq in He. congruence.
  - unfold applied. apply NoDup_filter. by eapply NoDup_fmap_1.
Qed.

Lemma shadows_well_formed A T :
  NoDup (map fst A) -> well_formed T -> well_formed (T ++ shadows A T).
Proof.
  intros Hk HT. unfold well_formed, columns. rewrite map_app.
  apply NoDup_app. split; [done|]. split.
  - intros name Hin Hin'. fold (columns (shadows A T)) in Hin'.
    rewrite columns_shadows in Hin'.
    apply list_elem_of_fmap in Hin' as (e & -> & He).
    apply applied_elem in He as [_ He]. unfold applies in He.
    apply andb_true_iff in He as [He _]. apply negb_true_iff in He.
    apply has_column_false in He. done.
  - fold (columns (shadows A T)). rewrite columns_shadows.
    by apply applied_NoDup.
Qed.

(** A canonical column that [T] lacks and some alias can supply is the
    shadow of the first such alias. *)
Lemma shadow_of_first_alias A T (alias canonical : pystr) :
  (alias, canonical) ∈ A ->
  has_column T alias = true -> has_column T canonical = false ->
  exists first col,
    first_alias A T canonical = Some (first, canonical) /\
    getitem T first = Some col /\
    getitem (T ++ shadows A T) canonical = Some col.
Proof.
  intros Hin Ha Hc.
  destruct (first_alias A T canonical) as [[first c']|] eqn:E; cycle 1.
  { pose proof (find_None_elem _ _ _ E Hin) as Hp. unfold present in Hp.
    cbn [fst snd] in Hp. rewrite pystr_eqb_refl, Ha in Hp. done. }
  pose proof E as E'. apply find_elem in E' as [He Hp].
  unfold present in Hp. cbn [fst snd] in Hp.
  apply andb_true_iff in Hp as [Hc' Hf]. apply pystr_eqb_eq in Hc'. subst c'.
  destruct (getitem_has T first Hf) as [col Hcol].
  exists first, col. split; [done|]. split; [done|].
  rewrite getitem_app.
  destruct (getitem T canonical) eqn:Eg.
  { apply getitem_elem in Eg.
    apply has_column_false in Hc. exfalso. apply Hc.
    apply list_elem_of_fmap. by eexists (_, _). }
  assert ((first, canonical) ∈ applied A T) as Happ.
  { apply applied_elem. split; [done|]. unfold applies. cbn [snd].
    rewrite Hc, E. cbn [negb andb]. by apply bool_decide_eq_true_2. }
  unfold shadows.
  assert (forall l : list (pystr * pystr),
            (forall e, e ∈ l -> snd e = canonical -> e = (first, canonical)) ->
            (first, canonical) ∈ l ->
            getitem (map (shadow T) l) canonical = Some col) as Hl.
  { clear -Hcol. induction l as [|e l IH]; intros Hu Hm.
    - by apply not_elem_of_nil in Hm.
    - cbn [map getitem]. unfold shadow at 1.
      destruct (pystr_eqb canonical (snd e)) eqn:Eq.
      + apply pystr_eqb_eq in Eq.
        rewrite (Hu e) by (by left || done). cbn [fst]. by rewrite Hcol.
      + apply IH.
        * intros e' He'. apply Hu. by right.
        * apply elem_of_cons in Hm as [<-|Hm]; [|done].
          cbn [snd] in Eq. by rewrite pystr_eqb_refl in Eq. }
  apply Hl; [|done].
  intros e1 He1 Hs. apply applied_elem in He1 as [_ He1].
  unfold applies in He1.
  apply andb_true_iff in He1 as [_ He1]. apply bool_decide_eq_true in He1.
  rewrite Hs in He1. congruence.
Qed.

End NormalizerFacts.

Lemma filter_none {X} (f : X -> bool) (l : list X) :
  (forall x, x ∈ l -> f x = false) -> filter (fun x => f x) l = [].
Proof.
  induction l as [|x l IH]; intros H; [done|].
  rewrite filter_cons, decide_False.
  - apply IH. intros y Hy. apply H. by right.
  - rewrite (H x) by left. intros [].
Qed.

Section NormalizerClaims.

Context {cell : Type}.
Implicit Types (T : DataFrame cell) (h : gmap loc (DataFrame cell)).
Implicit Types (self : VisualizationUtils).

Lemma fresh_loc_new h (l : loc) : is_Some (h !! l) -> fresh (dom h) <> l.
Proof.
  intros Hl Heq. apply elem_of_dom in Hl. rewrite <- Heq in Hl.
  by apply is_fresh in Hl.
Qed.

(** After one pass no mapping is left to apply. *)
Lemma applied_after_normalize T :
  applied COLUMN_ALIASES (T ++ shadows COLUMN_ALIASES T) = [].
Proof.
  set (A := COLUMN_ALIASES). set (T1 := T ++ shadows A T).
  apply filter_none. intros [a c] He. unfold applies. cbn [snd].
  destruct (has_column T1 c) eqn:Hc; [done|]. cbn [negb andb].
  apply bool_decide_eq_false_2. intros Hf.
  unfold T1 in Hc. rewrite has_column_app in Hc.
  apply orb_false_iff in Hc as [HcT HcS].
  rewrite (has_shadows_canonical A T c HcT) in HcS.
  apply negb_false_iff, bool_decide_eq_true in HcS.
  apply find_elem in Hf as [_ Hp]. unfold present in Hp. cbn [fst snd] in Hp.
  apply andb_true_iff in Hp as [_ Ha].
  unfold T1 in Ha. rewrite has_column_app in Ha.
  rewrite (has_shadows_alias A T a), orb_false_r in Ha; cycle 1.
  { intros e' He'. by apply (COLUMN_ALIASES_no_chain (a, c) e'). }
  pose proof (find_None_elem _ _ _ HcS He) as Hp. unfold present in Hp.
  cbn [fst snd] in Hp. rewrite pystr_eqb_refl, Ha in Hp. done.
Qed.

(** C2 (amended). [normalize_columns] returns a new table: the columns
    of [T], unchanged and in their order, followed by one canonical
    column for each applied mapping; the log grows by one entry for each
    applied mapping.  For a pair (alias, canonical) of [COLUMN_ALIASES]
    with [alias] in [T] and [canonical] not in [T], the canonical column
    holds the values of the first alias of that canonical name, in the
    order of the dict, that [T] has. *)
Theorem normalize_columns_first_alias self h T :
  h !! df self = Some T -> well_formed T ->
  exists added,
    normalize_columns self h
    = (fresh (dom h), <[fresh (dom h) := T ++ added]> h,
       set_corrections_log self
         (corrections_log self
            ++ map entry_msg (applied COLUMN_ALIASES T))) /\
    fresh (dom h) <> df self /\
    columns added = map snd (applied COLUMN_ALIASES T) /\
    well_formed (T ++ added) /\
    (forall alias canonical,
        (alias, canonical) ∈ COLUMN_ALIASES ->
        has_column T alias = true -> has_column T canonical = false ->
        exists first col,
          first_alias COLUMN_ALIASES T canonical = Some (first, canonical) /\
          getitem T first = Some col /\
          getitem (T ++ added) canonical = Some col) /\
    (forall name col,
        getitem T name = Some col -> getitem (T ++ added) name = Some col).
Proof.
  intros HT Hwf. exists (shadows COLUMN_ALIASES T).
  pose proof (normalize_columns_eq self h) as Heq. cbn zeta in Heq.
  rewrite (lookup_total_correct _ _ _ HT) in Heq.
  split; [done|]. split; [by apply fresh_loc_new; rewrite HT|].
  split; [apply columns_shadows|].
  split; [by apply shadows_well_formed; [apply COLUMN_ALIASES_keys|]|].
  split.
  - intros alias canonical. apply shadow_of_first_alias.
  - intros name col Hg. by rewrite getitem_app, Hg.
Qed.

(** C7. Normalizing the normalized table again gives a table equal to
    it, and logs nothing. *)
Theorem normalize_columns_idempotent self h T :
  h !! df self = Some T -> well_formed T ->
  let '(l1, h1, self1) := normalize_columns self h in
  let '(l2, h2, self2) := normalize_columns (init h1 l1) h1 in
  l2 <> l1 /\ h2 !! l2 = h1 !! l1 /\ h2 !! l1 = h1 !! l1 /\
  corrections_log self2 = [].
Proof.
  intros HT Hwf.
  pose proof (normalize_columns_eq self h) as Heq. cbn zeta in Heq.
  rewrite Heq. clear Heq.
  set (l1 := fresh (dom h)). set (T1 := (h !!! df self) ++ _).
  set (h1 := <[l1 := T1]> h).
  pose proof (normalize_columns_eq (init h1 l1) h1) as Heq. cbn zeta in Heq.
  rewrite Heq. clear Heq. cbn [df init corrections_log set_corrections_log].
  assert (h1 !!! l1 = T1) as -> by apply lookup_total_insert_eq.
  assert (applied COLUMN_ALIASES T1 = []) as Hnone
    by apply applied_after_normalize.
  unfold shadows at 1 2. rewrite Hnone. cbn [map]. rewrite !app_nil_r.
  assert (fresh (dom h1) <> l1) as Hne.
  { apply fresh_loc_new. unfold h1. rewrite lookup_insert_eq. by eexists. }
  split; [done|]. split.
  - rewrite lookup_insert_eq. unfold h1. by rewrite lookup_insert_eq.
  - split; [|done]. by rewrite lookup_insert_ne.
Qed.

(** C8 (amended). When the table has a Squad Name column and none named
    Team, Squad or Team Name, the normalized table has the Squad Name
    column and a Team column with the same values, and the log holds the
    entry for the mapping, which quotes the names with single quotes. *)
Theorem normalize_columns_squad_name self h T :
  h !! df self = Some T -> well_formed T ->
  has_column T (py "Squad Name") = true ->
  has_column T (py "Team") = false ->
  has_column T (py "Squad") = false ->
  has_column T (py "Team Name") = false ->
  let '(l', h', self') := normalize_columns self h in
  exists T' col,
    h' !! l' = Some T' /\
    getitem T (py "Squad Name") = Some col /\
    getitem T' (py "Squad Name") = Some col /\
    getitem T' (py "Team") = Some col /\
    squad_name_entry ∈ corrections_log self'.
Proof.
  intros HT Hwf Hsn Hteam Hsq Htn.
  pose proof (normalize_columns_eq self h) as Heq. cbn zeta in Heq.
  rewrite (lookup_total_correct _ _ _ HT) in Heq. rewrite Heq. clear Heq.
  set (added := shadows COLUMN_ALIASES T).
  pose proof (fun alias canonical =>
                shadow_of_first_alias COLUMN_ALIASES T alias canonical)
    as Hfirst.
  destruct (getitem_has T _ Hsn) as [col Hcol].
  exists (T ++ added), col.
  split; [by rewrite lookup_insert_eq|]. split; [done|].
  split; [by rewrite getitem_app, Hcol|].
  assert (first_alias COLUMN_ALIASES T (py "Team")
          = Some (py "Squad Name", py "Team")) as Hfa.
  { unfold first_alias, COLUMN_ALIASES. cbn [map List.find].
    unfold present. cbn [fst snd].
    rewrite Hsq, Htn, Hsn. rewrite !andb_false_r.
    by rewrite pystr_eqb_refl. }
  split.
  - destruct (Hfirst (py "Squad Name") (py "Team")) as (f & c & Hf & Hg & Hr);
      [|done|done|].
    { apply (bool_decide_unpack _). vm_compute. exact I. }
    assert (f = py "Squad Name") as -> by congruence.
    unfold added. congruence.
  - cbn [corrections_log set_corrections_log].
    apply elem_of_app. right.
    apply (list_elem_of_fmap_2 entry_msg _ (py "Squad Name", py "Team")).
    apply applied_elem. split.
    + apply (bool_decide_unpack _). vm_compute. exact I.
    + unfold applies. cbn [snd]. rewrite Hteam, Hfa.
      by apply bool_decide_eq_true_2.
Qed.

End NormalizerClaims.

Section FrameClaim.

Context {cell : Type}.
Variable dtype_str : column cell -> pystr.
Variable isna : cell -> bool.
Variable list_str : list cell -> pystr.
Variable autopep8_fix_code : pystr -> pystr + pystr.

(** C9. [normalize_columns] works on a copy: the table [self.df] refers
    to, and every other table of the store, is as before, and [self.df]
    still refers to it.  So the column report, the column matching of
    the repair pass and the [df] of the execution namespace are those of
    the table given to the constructor, not of the normalized one. *)
Theorem normalize_columns_leaves_source (self : VisualizationUtils)
    (h : gmap loc (DataFrame cell)) (T : DataFrame cell) :
  h !! df self = Some T ->
  let '(l', h', self') := normalize_columns self h in
  l' <> df self /\ df self' = df self /\ h' !! df self' = Some T /\
  (forall l, is_Some (h !! l) -> h' !! l = h !! l) /\
  get_available_columns_info dtype_str isna list_str self' h'
  = get_available_columns_info dtype_str isna list_str self h /\
  (forall code,
      auto_fix_plot_code autopep8_fix_code self' h' code
      = auto_fix_plot_code autopep8_fix_code self h code) /\
  h' !!! g_df (make_safe_globals self') = T.
Proof.
  intros HT.
  pose proof (normalize_columns_eq self h) as Heq. cbn zeta in Heq.
  rewrite Heq. clear Heq. cbn [df set_corrections_log].
  assert (fresh (dom h) <> df self) as Hne
    by (apply fresh_loc_new; by rewrite HT).
  assert (forall X : DataFrame cell,
             <[fresh (dom h) := X]> h !!! df self = h !!! df self) as Htot
    by (intros X; by apply lookup_total_insert_ne).
  split; [done|]. split; [done|].
  split; [by rewrite lookup_insert_ne|].
  split.
  { intros l Hl. apply lookup_insert_ne. by apply fresh_loc_new. }
  split.
  { unfold get_available_columns_info. cbn [df]. by rewrite Htot. }
  split.
  { intros code. unfold auto_fix_plot_code. cbn [df]. by rewrite Htot. }
  unfold make_safe_globals. cbn [g_df df]. rewrite Htot.
  by apply lookup_total_correct.
Qed.

End FrameClaim.

(** ** Instances of the normalizer claims *)


Lemma well_formed_dec (T : DataFrame N) :
  bool_decide (NoDup (columns T)) = true -> well_formed T.
Proof. intros H. by apply bool_decide_eq_true in H. Qed.

(** C2, as stated, fails on a table with two aliases of one canonical
    name: Club is in the table and Team is not, yet the Team column
    added holds the values of Squad, not those of Club. *)
Lemma normalize_columns_second_alias_counterexample :
  ~ (forall alias canonical,
        (alias, canonical) ∈ COLUMN_ALIASES ->
        has_column two_alias_table alias = true ->
        has_column two_alias_table canonical = false ->
        getitem (normalized two_alias_table) canonical
        = getitem two_alias_table alias).
Proof.
  intros H. specialize (H (py "Club") (py "Team")).
  assert (getitem (normalized two_alias_table) (py "Team")
          = getitem two_alias_table (py "Club")) as Heq.
  { apply H.
    - apply (bool_decide_unpack _). vm_compute. exact I.
    - vm_compute. reflexivity.
    - vm_compute. reflexivity. }
  vm_compute in Heq. discriminate.
Qed.

(** C2 (amended) on the table with the columns Squad and Club. *)
Lemma normalize_columns_first_alias_witness :
  exists added,
    normalize_columns (init (store_of two_alias_table) 1)
                      (store_of two_alias_table)
    = (fresh (dom (store_of two_alias_table)),
       <[fresh (dom (store_of two_alias_table)) := two_alias_table ++ added]>
         (store_of two_alias_table),
       set_corrections_log (init (store_of two_alias_table) 1)
         ([] ++ map entry_msg (applied COLUMN_ALIASES two_alias_table))) /\
    fresh (dom (store_of two_alias_table)) <> 1%positive /\
    columns added = map snd (applied COLUMN_ALIASES two_alias_table) /\
    well_formed (two_alias_table ++ added) /\
    (forall alias canonical,
        (alias, canonical) ∈ COLUMN_ALIASES ->
        has_column two_alias_table alias = true ->
        has_column two_alias_table canonical = false ->
        exists first col,
          first_alias COLUMN_ALIASES two_alias_table canonical
          = Some (first, canonical) /\
          getitem two_alias_table first = Some col /\
          getitem (two_alias_table ++ added) canonical = Some col) /\
    (forall name col,
        getitem two_alias_table name = Some col ->
        getitem (two_alias_table ++ added) name = Some col).
Proof.
  apply (normalize_columns_first_alias
           (init (store_of two_alias_table) 1) (store_of two_alias_table)
           two_alias_table).
  - reflexivity.
  - apply well_formed_dec. vm_compute. reflexivity.
Defined.

(** C7 on the table with the columns Squad Name and X. *)
Lemma normalize_columns_idempotent_witness :
  let '(l1, h1, self1) :=
    normalize_columns (init (store_of squad_table) 1) (store_of squad_table) in
  let '(l2, h2, self2) := normalize_columns (init h1 l1) h1 in
  l2 <> l1 /\ h2 !! l2 = h1 !! l1 /\ h2 !! l1 = h1 !! l1 /\
  corrections_log self2 = [].
Proof.
  apply (normalize_columns_idempotent
           (init (store_of squad_table) 1) (store_of squad_table) squad_table).
  - reflexivity.
  - apply well_formed_dec. vm_compute. reflexivity.
Defined.

(** C8, as stated, fails twice: the entry logged quotes the names with
    single quotes, so the entry with double quotes is never in the log;
    and when the table also has a Squad column, which comes first in
    [COLUMN_ALIASES], Team holds its values, not those of Squad Name. *)
Lemma normalize_columns_squad_name_counterexample :
  (has_column squad_table (py "Squad Name") = true /\
   has_column squad_table (py "Team") = false /\
   squad_name_entry_double_quoted ∉ log_after squad_table) /\
  (has_column squad_and_squad_name (py "Squad Name") = true /\
   has_column squad_and_squad_name (py "Team") = false /\
   getitem (normalized squad_and_squad_name) (py "Team") = Some [1] /\
   getitem (normalized squad_and_squad_name) (py "Squad Name") = Some [2]).
Proof.
  split.
  - split; [vm_compute; reflexivity|]. split; [vm_compute; reflexivity|].
    apply (bool_decide_unpack _). vm_compute. exact I.
  - repeat split; vm_compute; reflexivity.
Qed.

(** C8 (amended) on the table with the columns Squad Name and X. *)
Lemma normalize_columns_squad_name_witness :
  let '(l', h', self') :=
    normalize_columns (init (store_of squad_table) 1) (store_of squad_table) in
  exists T' col,
    h' !! l' = Some T' /\
    getitem squad_table (py "Squad Name") = Some col /\
    getitem T' (py "Squad Name") = Some col /\
    getitem T' (py "Team") = Some col /\
    squad_name_entry ∈ corrections_log self'.
Proof.
  apply (normalize_columns_squad_name
           (init (store_of squad_table) 1) (store_of squad_table) squad_table).
  - reflexivity.
  - apply well_formed_dec. vm_compute. reflexivity.
  - vm_compute. reflexivity.
  - vm_compute. reflexivity.
  - vm_compute. reflexivity.
  - vm_compute. reflexivity.
Defined.

(** C9 on the table with the columns Squad Name and X: the table of the
    instance is as before, and the normalized one is another. *)
Lemma normalize_columns_leaves_source_witness :
  let '(l', h', self') :=
    normalize_columns (init (store_of squad_table) 1) (store_of squad_table) in
  l' <> 1%positive /\ df self' = 1%positive /\
  h' !! df self' = Some squad_table /\
  h' !! l' <> Some squad_table.
Proof.
  pose proof (normalize_columns_leaves_source
                (fun _ => []) (fun _ => false) (fun _ => []) inl
                (init (store_of squad_table) 1) (store_of squad_table)
                squad_table eq_refl) as H.
  destruct (normalize_columns (init (store_of squad_table) 1)
                              (store_of squad_table))
    as [[l' h'] self'] eqn:E.
  destruct H as (H1 & H2 & H3 & _).
  split; [exact H1|]. split; [exact H2|]. split; [exact H3|].
  vm_compute in E. injection E as <- <- <-. vm_compute. discriminate.
Defined.

(** ** [str.replace] and [in] *)

Section ReplaceFacts.

Implicit Types (s old new n w : pystr).

Lemma replace_from_skip k old new s :
  replace_from k old new s = replace_from 0 old new (drop k s).
Proof.
  revert k. induction s as [|c t IH]; intros [|k]; try done.
  cbn [replace_from drop]. apply IH.
Qed.

Lemma replace_nil old new : replace [] old new = [].
Proof. done. Qed.

Lemma replace_match old new s :
  old <> [] -> startswith old s = true ->
  replace s old new = new ++ replace (drop (length old) s) old new.
Proof.
  intros Hne Hs. destruct s as [|c t].
  { destruct old; done. }
  unfold replace. cbn [replace_from]. rewrite Hs.
  rewrite replace_from_skip. destruct old as [|o old']; [done|].
  replace (length (o :: old') - 1)%nat with (length old') by (simpl; lia).
  done.
Qed.

Lemma replace_nomatch old new c t :
  startswith old (c :: t) = false ->
  replace (c :: t) old new = c :: replace t old new.
Proof. intros Hs. unfold replace. cbn [replace_from]. by rewrite Hs. Qed.

Lemma contains_here s n : startswith n s = true -> contains s n = true.
Proof. intros H. destruct s; cbn [contains]; by rewrite H. Qed.

Lemma contains_cons c s n : contains s n = true -> contains (c :: s) n = true.
Proof. intros H. cbn [contains]. rewrite H. apply orb_true_r. Qed.

Lemma contains_app_r p s n : contains s n = true -> contains (p ++ s) n = true.
Proof. intros H. induction p; [done|]. by apply contains_cons. Qed.

Lemma contains_drop s n :
  contains s n = true <-> exists k, startswith n (drop k s) = true.
Proof.
  split.
  - induction s as [|c t IH]; cbn [contains]; intros H.
    + rewrite orb_false_r in H. by exists 0%nat.
    + apply orb_true_iff in H as [H|H]; [by exists 0%nat|].
      destruct (IH H) as [k Hk]. by exists (S k).
  - intros [k Hk]. revert k Hk. induction s as [|c t IH]; intros k Hk.
    + rewrite drop_nil in Hk. by apply contains_here.
    + destruct k as [|k]; [by apply contains_here|].
      apply contains_cons. by apply (IH k).
Qed.

Lemma compat_of_prefixes a b s :
  startswith a s = true -> startswith b s = true -> compat a b = true.
Proof.
  unfold compat. revert b s. induction a as [|x a IH]; intros b s Ha Hb.
  { done. }
  destruct b as [|y b]; [by rewrite orb_true_r|].
  destruct s as [|z s]; [done|]. cbn [startswith] in *.
  apply andb_true_iff in Ha as [Hx Ha]. apply andb_true_iff in Hb as [Hy Hb].
  apply N.eqb_eq in Hx, Hy. subst. rewrite N.eqb_refl. cbn [andb].
  by apply (IH b s).
Qed.

Lemma tails_drop k l : (k < length l)%nat -> drop k l ∈ tails l.
Proof.
  revert k. induction l as [|c l IH]; intros k Hk; [simpl in Hk; lia|].
  destruct k as [|k]; [left|]. right. apply IH. simpl in Hk. lia.
Qed.

Lemma apart_l n w n2 : apart n w = true -> n2 ∈ tails n -> compat n2 w = false.
Proof.
  intros H Hin. apply andb_true_iff in H as [H _].
  rewrite forallb_forall in H. apply negb_true_iff, H.
  by apply list_elem_of_In.
Qed.

Lemma apart_r n w w2 : apart n w = true -> w2 ∈ tails w -> compat w2 n = false.
Proof.
  intros H Hin. apply andb_true_iff in H as [_ H].
  rewrite forallb_forall in H. apply negb_true_iff, H.
  by apply list_elem_of_In.
Qed.

(** [replace] passes over an occurrence of [n] that no [w] can touch. *)
Lemma replace_over n w r q :
  (forall n2, n2 ∈ tails n -> compat n2 w = false) ->
  replace (n ++ q) w r = n ++ replace q w r.
Proof.
  induction n as [|c n IH]; intros H; [done|].
  cbn [app]. rewrite replace_nomatch.
  - f_equal. apply IH. intros n2 Hn2. apply H. by right.
  - destruct (startswith w (c :: n ++ q)) eqn:E; [|done].
    assert (compat (c :: n) w = true) as Hc.
    { apply (compat_of_prefixes _ _ (c :: n ++ q)); [|done].
      apply (startswith_app (c :: n)). }
    rewrite H in Hc; [done | left].
Qed.

(** An occurrence of [n] survives the replacement of [w] when the two
    cannot overlap. *)
Lemma replace_keeps n w r s :
  w <> [] -> apart n w = true ->
  contains s n = true -> contains (replace s w r) n = true.
Proof.
  intros Hw Hap Hc. apply contains_drop in Hc as [k Hk].
  remember (length s) as m eqn:Hm. revert s k Hm Hk.
  induction m as [m IH] using lt_wf_ind. intros s k -> Hk.
  destruct s as [|c t].
  { rewrite drop_nil in Hk. by apply contains_here. }
  destruct (startswith w (c :: t)) eqn:Ew.
  - rewrite replace_match by done. apply contains_app_r.
    destruct (decide (length w <= k)%nat) as [Hle|Hgt].
    + apply (IH (length (drop (length w) (c :: t)))) with (k := (k - length w)%nat).
      * rewrite length_drop. destruct w; [done|]. simpl. lia.
      * done.
      * rewrite drop_drop. by replace (length w + (k - length w))%nat with k by lia.
    + exfalso. apply startswith_inv in Ew.
      rewrite Ew, drop_app_le in Hk by lia.
      assert (compat (drop k w) n = true) as Hcp.
      { apply (compat_of_prefixes _ _ _ (startswith_app _ _) Hk). }
      rewrite (apart_r n w) in Hcp; [done|done|]. apply tails_drop. lia.
  - rewrite replace_nomatch by done.
    destruct k as [|k].
    + cbn [drop] in Hk. apply startswith_inv in Hk.
      rewrite <- (replace_nomatch w r c t Ew).
      set (q := drop (length n) (c :: t)) in Hk. rewrite Hk.
      rewrite replace_over by (intros n2; by apply apart_l).
      apply contains_here, startswith_app.
    + apply contains_cons.
      apply (IH (length t)) with (k := k); [simpl; lia | done | done].
Qed.

Lemma replace_same n s : n <> [] -> replace s n n = s.
Proof.
  intros Hn. remember (length s) as m eqn:Hm. revert s Hm.
  induction m as [m IH] using lt_wf_ind. intros s ->.
  destruct s as [|c t]; [done|].
  destruct (startswith n (c :: t)) eqn:E.
  - rewrite replace_match by done.
    rewrite (IH (length (drop (length n) (c :: t)))); [| |done].
    + symmetry. by apply startswith_inv.
    + rewrite length_drop. destruct n; [done|]. simpl. lia.
  - rewrite replace_nomatch by done. f_equal.
    apply (IH (length t)); [simpl; lia | done].
Qed.

End ReplaceFacts.

(** ** The repair pass *)

Lemma replacements_split :
  replacements = replacements_before_plot ++ [(df_plot, df_plot)].
Proof. reflexivity. Qed.

Lemma replacement_loop_keeps (n : pystr) (R : list (pystr * pystr))
    (st : pystr * list pystr) :
  Forall (fun e => fst e <> [] /\ apart n (fst e) = true) R ->
  contains (fst st) n = true ->
  contains (fst (fold_left replacement_step R st)) n = true.
Proof.
  revert st. induction R as [|[w r] R IH]; intros [c corr] HR Hc; [done|].
  apply Forall_cons in HR as [[Hw Hap] HR]. cbn [fold_left].
  apply IH; [done|]. unfold replacement_step. cbn [fst snd] in *.
  destruct (contains c w); cbn [fst]; [|done].
  by apply replace_keeps.
Qed.

Lemma replacement_loop_log (R : list (pystr * pystr))
    (st : pystr * list pystr) :
  exists more, snd (fold_left replacement_step R st) = snd st ++ more.
Proof.
  revert st. induction R as [|[w r] R IH]; intros [c corr].
  { exists []. by rewrite app_nil_r. }
  cbn [fold_left]. unfold replacement_step at 2. cbn [fst snd].
  destruct (contains c w).
  - destruct (IH (replace c w r, corr ++ [code_fix_msg w r])) as [more ->].
    cbn [snd]. eexists. by rewrite <- app_assoc.
  - apply IH.
Qed.

(** Code with [df.plot()] in it gets the entry of the last replacement,
    whatever the earlier ones did. *)
Lemma replacement_loop_plot (code : pystr) :
  contains code df_plot = true ->
  code_fix_msg df_plot df_plot
    ∈ snd (fold_left replacement_step replacements (code, [])).
Proof.
  intros Hc. rewrite replacements_split, fold_left_app.
  pose proof (replacement_loop_keeps df_plot replacements_before_plot
                (code, [])) as Hk.
  destruct (fold_left replacement_step replacements_before_plot (code, []))
    as [c6 corr6].
  cbn [fold_left]. unfold replacement_step. cbn [fst snd] in *.
  rewrite Hk; [|clear Hk|done].
  - cbn [snd]. apply elem_of_app. right. left.
  - apply (bool_decide_unpack _). vm_compute. exact I.
Qed.

Lemma column_loop_raises (cols : list pystr) (ms : list pystr) (e : exn) :
  fold_left (column_step cols) ms (Raises e) = Raises e.
Proof. induction ms as [|m ms IH]; [done|]. apply IH. Qed.

Lemma column_step_log cols (c : pystr) (corr : list pystr) (m c' : pystr)
    (corr' : list pystr) :
  column_step cols (Returns (c, corr)) m = Returns (c', corr') ->
  exists more, corr' = corr ++ more.
Proof.
  unfold column_step. cbn [bind].
  destruct (negb (existsb (pystr_eqb m) cols)).
  - destruct (Difflib.get_close_matches m cols) as [|close rest].
    + intros [= <- <-]. by eexists.
    + destruct (re_sub_column_ref m _ c) as [c2|e]; cbn [bind]; [|done].
      intros [= <- <-]. by eexists.
  - intros [= <- <-]. exists []. by rewrite app_nil_r.
Qed.

Lemma column_loop_log cols (ms : list pystr) (c : pystr)
    (corr : list pystr) (c' : pystr) (corr' : list pystr) :
  fold_left (column_step cols) ms (Returns (c, corr)) = Returns (c', corr') ->
  exists more, corr' = corr ++ more.
Proof.
  revert c corr. induction ms as [|m ms IH]; intros c corr.
  { intros [= <- <-]. exists []. by rewrite app_nil_r. }
  cbn [fold_left].
  destruct (column_step cols (Returns (c, corr)) m) as [[c1 corr1]|e] eqn:E.
  - apply column_step_log in E as [more1 ->].
    intros H. apply IH in H as [more2 ->]. eexists. by rewrite <- app_assoc.
  - by rewrite column_loop_raises.
Qed.

(** *** When [re.sub] accepts its template *)

Lemma parse_template_literal (s : pystr) :
  backslash ∉ s -> parse_template s = Some (map PChar s).
Proof.
  unfold parse_template. induction s as [|c s IH]; intros H; [done|].
  cbn [parse_template_from map].
  apply not_elem_of_cons in H as [Hc Hs].
  destruct (c =? backslash) eqn:E; [apply N.eqb_eq in E; done|].
  by rewrite IH.
Qed.

Lemma max_scored_elem (l : list (Q * pystr)) (p : Q * pystr) :
  Difflib.max_scored l = Some p -> p ∈ l.
Proof.
  unfold Difflib.max_scored.
  assert (forall init,
             fold_left (fun best p =>
                          match best with
                          | None => Some p
                          | Some q => if Difflib.scored_gt p q
                                      then Some p else Some q
                          end) l init = Some p ->
             p ∈ l \/ init = Some p) as H.
  { induction l as [|x l IH]; intros init Hf; [by right|].
    cbn [fold_left] in Hf. apply IH in Hf as [Hf|Hf].
    - left. by right.
    - destruct init as [q|].
      + destruct (Difflib.scored_gt x q).
        * injection Hf as <-. left. left.
        * by right.
      + injection Hf as <-. left. left. }
  intros Hf. by destruct (H None Hf).
Qed.

Lemma get_close_matches_elem (word : pystr) (cols : list pystr) (x : pystr) :
  x ∈ Difflib.get_close_matches word cols -> x ∈ cols.
Proof.
  unfold Difflib.get_close_matches.
  set (step := fun (result : list (Q * pystr)) (x : pystr) => _).
  assert (forall acc, Forall (fun p => snd p ∈ cols) acc ->
            forall ps, (forall y, y ∈ ps -> y ∈ cols) ->
            Forall (fun p => snd p ∈ cols) (fold_left step ps acc)) as H.
  { intros acc Hacc ps. revert acc Hacc.
    induction ps as [|y ps IH]; intros acc Hacc Hps; [done|].
    cbn [fold_left]. apply IH.
    - unfold step. destruct (_ && _); [|done].
      apply Forall_app. split; [done|]. apply Forall_singleton. cbn [snd].
      apply Hps. left.
    - intros z Hz. apply Hps. by right. }
  specialize (H [] (Forall_nil_2 _) cols (fun y Hy => Hy)).
  destruct (Difflib.max_scored (fold_left step cols [])) as [[score y]|] eqn:E.
  - intros Hx. apply list_elem_of_singleton in Hx as ->.
    apply max_scored_elem in E. rewrite Forall_forall in H.
    by apply (H (score, y)).
  - intros Hx. by apply not_elem_of_nil in Hx.
Qed.

Lemma column_loop_returns (cols ms : list pystr) (st : pystr * list pystr) :
  Forall (fun c => backslash ∉ c) cols ->
  exists st', fold_left (column_step cols) ms (Returns st) = Returns st'.
Proof.
  intros Hcols. revert st. induction ms as [|m ms IH]; intros [c corr].
  { by eexists. }
  cbn [fold_left].
  assert (exists st1, column_step cols (Returns (c, corr)) m = Returns st1)
    as [st1 ->]; [|apply IH].
  unfold column_step. cbn [bind].
  destruct (negb (existsb (pystr_eqb m) cols)); [|by eexists].
  destruct (Difflib.get_close_matches m cols) as [|close rest] eqn:E;
    [by eexists|].
  assert (close ∈ cols) as Hin.
  { apply (get_close_matches_elem m). rewrite E. left. }
  rewrite Forall_forall in Hcols. specialize (Hcols close Hin).
  unfold re_sub_column_ref. rewrite parse_template_literal.
  - cbn [bind]. by eexists.
  - intros Hb. apply elem_of_app in Hb as [Hb|Hb].
    + revert Hb. apply (bool_decide_unpack _). vm_compute. exact I.
    + apply elem_of_app in Hb as [Hb|Hb]; [done|].
      revert Hb. apply (bool_decide_unpack _). vm_compute. exact I.
Qed.

Section RepairClaims.

Context {cell : Type}.
Variable autopep8_fix_code : pystr -> pystr + pystr.
Implicit Types (h : gmap loc (DataFrame cell)) (self : VisualizationUtils).

Lemma auto_fix_plot_code_eq self h code :
  auto_fix_plot_code autopep8_fix_code self h code
  = bind (before_format self h code)
         (fun st => Returns (format_step autopep8_fix_code st)).
Proof. reflexivity. Qed.

(** C10. Whenever [auto_fix_plot_code] returns, the last correction is
    the one entry of the formatting step: the success entry with the
    formatter's output as the code, or the failure entry with the code
    as it was before formatting.  Code with [df.plot()] in it has the
    Code fix entry of that replacement, which changes no code.  The
    function returns whenever no column name holds a backslash. *)
Theorem auto_fix_plot_code_corrections self h code :
  (Forall (fun c => backslash ∉ c) (columns (h !!! df self)) ->
   exists r, auto_fix_plot_code autopep8_fix_code self h code = Returns r) /\
  (forall fixed corrections,
      auto_fix_plot_code autopep8_fix_code self h code
      = Returns (fixed, corrections) ->
      exists pre before entry,
        before_format self h code = Returns (pre, before) /\
        corrections = before ++ [entry] /\
        ((autopep8_fix_code pre = inl fixed /\ entry = formatted_msg) \/
         (exists e, autopep8_fix_code pre = inr e /\
                    entry = format_failed_msg e /\ fixed = pre)) /\
        (contains code df_plot = true ->
         code_fix_msg df_plot df_plot ∈ before)) /\
  (forall s, replace s df_plot df_plot = s).
Proof.
  split; [|split].
  - intros Hcols. rewrite auto_fix_plot_code_eq. unfold before_format.
    destruct (column_loop_returns (columns (h !!! df self))
                (findall_column_refs
                   (fst (fold_left replacement_step replacements (code, []))))
                (fold_left replacement_step replacements (code, [])) Hcols)
      as [st' ->].
    cbn [bind]. by eexists.
  - intros fixed corrections. rewrite auto_fix_plot_code_eq.
    destruct (before_format self h code) as [[pre before]|e] eqn:E;
      cbn [bind]; [|done].
    unfold format_step. intros Hf.
    exists pre, before.
    assert (contains code df_plot = true ->
            code_fix_msg df_plot df_plot ∈ before) as Hplot.
    { intros Hc. apply replacement_loop_plot in Hc.
      unfold before_format in E.
      destruct (fold_left replacement_step replacements (code, []))
        as [c1 corr1].
      apply column_loop_log in E as [more ->].
      apply elem_of_app. by left. }
    destruct (autopep8_fix_code pre) as [formatted|msg] eqn:Ef.
    + injection Hf as <- <-. exists formatted_msg.
      split; [done|]. split; [done|]. split; [by left|done].
    + injection Hf as <- <-. exists (format_failed_msg msg).
      split; [done|]. split; [done|]. split; [|done].
      right. by exists msg.
  - intros s. by apply replace_same.
Qed.

End RepairClaims.

(** ** [re.sub] on column references *)

Section SubFacts.

Implicit Types (s col : pystr) (tmpl : list piece).

Lemma sub_from_skip k col tmpl s :
  sub_from k col tmpl s = sub_from 0 col tmpl (drop k s).
Proof.
  revert k. induction s as [|c t IH]; intros [|k]; try done.
  cbn [sub_from drop]. apply IH.
Qed.

Lemma ref_matches_nil col : ref_matches col [] = false.
Proof. done. Qed.

Lemma sub_match col tmpl s :
  ref_matches col s = true ->
  sub_from 0 col tmpl s
  = expand_template tmpl (take (length col + 6) s)
      ++ sub_from 0 col tmpl (drop (length col + 6) s).
Proof.
  intros Hm. destruct s as [|c t]; [done|].
  cbn [sub_from]. rewrite Hm, sub_from_skip.
  replace (length col + 6)%nat with (S (length col + 5)) by lia. done.
Qed.

Lemma sub_nomatch col tmpl c t :
  ref_matches col (c :: t) = false ->
  sub_from 0 col tmpl (c :: t) = c :: sub_from 0 col tmpl t.
Proof. intros Hm. cbn [sub_from]. by rewrite Hm. Qed.

Lemma expand_literal (r matched : pystr) :
  expand_template (map PChar r) matched = r.
Proof.
  unfold expand_template. induction r as [|c r IH]; [done|].
  cbn [map concat app]. by rewrite IH.
Qed.

(** Where no reference to [col] occurs, [re.sub] changes nothing. *)
Lemma sub_no_match col tmpl s :
  (forall k, ref_matches col (drop k s) = false) ->
  sub_from 0 col tmpl s = s.
Proof.
  induction s as [|c t IH]; intros H; [done|].
  rewrite sub_nomatch by apply (H 0%nat). f_equal.
  apply IH. intros k. apply (H (S k)).
Qed.

End SubFacts.

(** *** Players to Player *)

Lemma parse_player_template :
  parse_template (py "df['" ++ Player ++ py "']") = Some player_template.
Proof. reflexivity. Qed.

Lemma sub_players_match s :
  ref_matches Players s = true ->
  sub_players s = py "df['Player']" ++ sub_players (drop 13 s).
Proof.
  intros Hm. unfold sub_players. rewrite sub_match by done.
  unfold player_template. by rewrite expand_literal.
Qed.

Lemma is_quote_cases (q : N) : is_quote q = true -> q = squote \/ q = dquote.
Proof.
  unfold is_quote. intros H. apply orb_true_iff in H as [H|H];
    apply N.eqb_eq in H; auto.
Qed.

(** The shape of a reference to [col]. *)
Lemma ref_matches_inv (col s : pystr) :
  ref_matches col s = true ->
  exists q q' rest,
    is_quote q = true /\ is_quote q' = true /\
    s = py "df[" ++ q :: col ++ q' :: rbracket :: rest.
Proof.
  unfold ref_matches. intros H. apply andb_true_iff in H as [H1 H2].
  apply startswith_inv in H1. rewrite H1. rewrite H1 in H2.
  change (length (py "df[")) with 3%nat in *.
  set (s1 := drop 3 s) in *. clearbody s1. clear H1.
  change (drop 3 (py "df[" ++ s1)) with s1 in H2.
  destruct s1 as [|q rest]; [done|].
  apply andb_true_iff in H2 as [H2 H3]. apply andb_true_iff in H2 as [Hq Hc].
  apply startswith_inv in Hc. rewrite Hc. rewrite Hc in H3.
  rewrite drop_app_length in H3.
  destruct (drop (length col) rest) as [|q' [|r rest']]; [done|done|].
  apply andb_true_iff in H3 as [Hq' Hr]. apply N.eqb_eq in Hr as ->.
  by exists q, q', rest'.
Qed.

Lemma ref_matches_intro (col : pystr) (q q' : N) (rest : pystr) :
  is_quote q = true -> is_quote q' = true ->
  ref_matches col (py "df[" ++ q :: col ++ q' :: rbracket :: rest) = true.
Proof.
  intros Hq Hq'. unfold ref_matches.
  rewrite (startswith_app (py "df[")). cbn [andb].
  change (drop 3 (py "df[" ++ ?x)) with x. cbv iota beta.
  rewrite Hq, startswith_app, drop_app_length, Hq'.
  unfold rbracket. by rewrite N.eqb_refl.
Qed.

(** A reference to Players starts with [d], which occurs nowhere else in
    it. *)
Lemma ref_matches_Players_inv s :
  ref_matches Players s = true ->
  exists w rest, s = 100 :: (w ++ rest) /\ (100 ∉ w) /\
                 forall rest', ref_matches Players (100 :: (w ++ rest')) = true.
Proof.
  intros H. apply ref_matches_inv in H as (q & q' & rest & Hq & Hq' & ->).
  exists ([102; 91] ++ q :: Players ++ [q'; rbracket]), rest.
  split; [|split].
  - cbn. rewrite <- ?app_assoc. reflexivity.
  - apply is_quote_cases in Hq as [-> | ->];
      apply is_quote_cases in Hq' as [-> | ->];
      apply (bool_decide_unpack _); vm_compute; exact I.
  - intros rest'.
    replace (100 :: (([102; 91] ++ q :: Players ++ [q'; rbracket]) ++ rest'))
      with (py "df[" ++ q :: Players ++ q' :: rbracket :: rest').
    + by apply ref_matches_intro.
    + cbn. rewrite <- ?app_assoc. reflexivity.
Qed.

Lemma sub_players_prefix (w t : pystr) :
  100 ∉ w -> startswith w (sub_players t) = true -> startswith w t = true.
Proof.
  revert t. induction w as [|x w IH]; intros t Hd Hs; [done|].
  apply not_elem_of_cons in Hd as [Hx Hw].
  destruct t as [|c t]; [done|].
  destruct (ref_matches Players (c :: t)) eqn:E.
  - rewrite sub_players_match in Hs by done. cbn in Hs.
    apply andb_true_iff in Hs as [Hs _]. apply N.eqb_eq in Hs. done.
  - unfold sub_players in Hs. rewrite sub_nomatch in Hs by done.
    cbn [startswith] in *. apply andb_true_iff in Hs as [-> Hs].
    cbn [andb]. by apply IH.
Qed.

(** After the substitution no reference to Players is left, in either
    quoting. *)
Lemma sub_players_clean s k :
  ref_matches Players (drop k (sub_players s)) = false.
Proof.
  remember (length s) as m eqn:Hm. revert s k Hm.
  induction m as [m IH] using lt_wf_ind. intros s k ->.
  destruct s as [|c t].
  { change (sub_players []) with (@nil N). by rewrite drop_nil. }
  destruct (ref_matches Players (c :: t)) eqn:E.
  - rewrite sub_players_match by done.
    destruct (decide (12 <= k)%nat) as [Hle|Hgt].
    + rewrite drop_app_ge by (simpl; lia).
      apply (IH (length (drop 13 (c :: t)))); [|done].
      rewrite length_drop. simpl. lia.
    + do 12 (destruct k as [|k]; [reflexivity|]). lia.
  - unfold sub_players. rewrite sub_nomatch by done. fold (sub_players t).
    destruct k as [|k]; [|apply (IH (length t)); [simpl; lia | done]].
    cbn [drop].
    destruct (ref_matches Players (c :: sub_players t)) eqn:E'; [|done].
    apply ref_matches_Players_inv in E' as (w & rest & Heq & Hd & Hall).
    injection Heq as -> Heq.
    assert (startswith w t = true) as Hw.
    { apply sub_players_prefix; [done|]. rewrite Heq. apply startswith_app. }
    apply startswith_inv in Hw. rewrite Hw, Hall in E. done.
Qed.

Lemma sub_players_idempotent s : sub_players (sub_players s) = sub_players s.
Proof. apply sub_no_match. intros k. apply sub_players_clean. Qed.

Section PlayersLoop.

Variable cols : list pystr.
Hypothesis Players_missing : existsb (pystr_eqb Players) cols = false.
Hypothesis Player_closest : Difflib.get_close_matches Players cols = [Player].

Lemma column_step_players (c : pystr) (corr : list pystr) :
  column_step cols (Returns (c, corr)) Players
  = Returns (sub_players c, corr ++ [players_fix]).
Proof.
  unfold column_step. cbn [bind]. rewrite Players_missing, Player_closest.
  cbn [negb]. unfold re_sub_column_ref. rewrite parse_player_template.
  done.
Qed.

Lemma column_step_real (c : pystr) (corr : list pystr) (m : pystr) :
  m ∈ cols -> column_step cols (Returns (c, corr)) m = Returns (c, corr).
Proof.
  intros Hm. unfold column_step. cbn [bind].
  assert (existsb (pystr_eqb m) cols = true) as ->; [|done].
  apply existsb_exists. exists m. split; [by apply list_elem_of_In|].
  apply pystr_eqb_refl.
Qed.

Lemma Players_not_real : Players ∉ cols.
Proof.
  intros Hin. assert (existsb (pystr_eqb Players) cols = true) as H.
  { apply existsb_exists. exists Players.
    split; [by apply list_elem_of_In | apply pystr_eqb_refl]. }
  congruence.
Qed.

Lemma column_step_unmatched (c : pystr) (corr : list pystr) (m : pystr) :
  m ∉ cols -> Difflib.get_close_matches m cols = [] ->
  column_step cols (Returns (c, corr)) m
  = Returns (c, corr ++ [warning_msg m]).
Proof.
  intros Hm Hnone. unfold column_step. cbn [bind].
  assert (existsb (pystr_eqb m) cols = false) as ->.
  { apply not_true_is_false. intros H. apply Hm.
    apply existsb_exists in H as (x & Hx & E).
    apply pystr_eqb_eq in E as ->. by apply list_elem_of_In. }
  cbn [negb]. by rewrite Hnone.
Qed.

Lemma column_loop_players (ms : list pystr) (c : pystr) (corr : list pystr) :
  Forall (fun m => m = Players \/ m ∈ cols
                   \/ Difflib.get_close_matches m cols = []) ms ->
  fold_left (column_step cols) ms (Returns (c, corr))
  = Returns (match players_count ms with
             | O => c
             | S _ => sub_players c
             end,
             corr ++ column_entries cols ms).
Proof.
  revert c corr. induction ms as [|m ms IH]; intros c corr Hms.
  { cbn. by rewrite app_nil_r. }
  apply Forall_cons in Hms as [Hm Hms]. cbn [fold_left].
  unfold players_count, column_entries. rewrite filter_cons.
  cbn [flat_map]. fold (column_entries cols ms).
  destruct (decide (m = Players)) as [->|Hne].
  - rewrite column_step_players, IH by done.
    cbn [length]. rewrite <- app_assoc.
    f_equal. f_equal.
    destruct (players_count ms); [done | apply sub_players_idempotent].
  - fold (players_count ms).
    destruct (decide (m ∈ cols)) as [Hin|Hout].
    + rewrite column_step_real by done.
      assert (existsb (pystr_eqb m) cols = true) as ->.
      { apply existsb_exists. exists m.
        split; [by apply list_elem_of_In | apply pystr_eqb_refl]. }
      by apply IH.
    + destruct Hm as [Hm|[Hm|Hm]]; [done..|].
      rewrite column_step_unmatched by done.
      assert (existsb (pystr_eqb m) cols = false) as ->.
      { apply not_true_is_false. intros H. apply Hout.
        apply existsb_exists in H as (x & Hx & E).
        apply pystr_eqb_eq in E as ->. by apply list_elem_of_In. }
      rewrite IH by done. by rewrite <- app_assoc.
Qed.

End PlayersLoop.

Lemma warning_not_players_fix (m : pystr) : warning_msg m <> players_fix.
Proof. intros H. vm_compute in H. discriminate H. Qed.

Lemma players_fixes_column_entries (cols ms : list pystr) :
  players_fixes (column_entries cols ms)
  = repeat players_fix (players_count ms).
Proof.
  unfold players_fixes, column_entries, players_count.
  induction ms as [|m ms IH]; [done|].
  cbn [flat_map]. rewrite filter_app, filter_cons, IH.
  destruct (decide (m = Players)) as [->|Hne].
  - rewrite filter_cons, decide_True by done. by rewrite filter_nil.
  - destruct (existsb (pystr_eqb m) cols); [by rewrite filter_nil|].
    rewrite filter_cons, decide_False by apply warning_not_players_fix.
    by rewrite filter_nil.
Qed.

Section PlayersClaim.

Context {cell : Type}.
Variable autopep8_fix_code : pystr -> pystr + pystr.
Implicit Types (h : gmap loc (DataFrame cell)) (self : VisualizationUtils).

(** C4 (amended). Let Players be no column of the table and Player the
    column closest to it, and let the scan of the code find the
    reference to Players, every other name it finds being a real column
    or a name with no close match, so that Players is the one name
    rewritten. Then [auto_fix_plot_code] returns; the code handed to the
    formatter is the code with every reference to Players, in either
    quoting, replaced by [df['Player']], so that none is left; and the
    corrections gain one column-fix entry for Players for each time the
    scan found the reference: exactly one when it found it once. *)
Theorem auto_fix_plot_code_players self h code :
  let cols := columns (h !!! df self) in
  let matches := findall_column_refs (fst (after_replacements code)) in
  existsb (pystr_eqb Players) cols = false ->
  Difflib.get_close_matches Players cols = [Player] ->
  Players ∈ matches ->
  Forall (fun m => m = Players \/ m ∈ cols
                   \/ Difflib.get_close_matches m cols = []) matches ->
  exists entries,
    entries = column_entries cols matches /\
    players_fixes entries = repeat players_fix (players_count matches) /\
    (1 <= players_count matches)%nat /\
    before_format self h code
    = Returns (sub_players (fst (after_replacements code)),
               snd (after_replacements code) ++ entries) /\
    (forall k,
        ref_matches Players
          (drop k (sub_players (fst (after_replacements code)))) = false) /\
    auto_fix_plot_code autopep8_fix_code self h code
    = Returns (format_step autopep8_fix_code
                 (sub_players (fst (after_replacements code)),
                  snd (after_replacements code) ++ entries)).
Proof.
  intros cols matches Hmiss Hclose Hin Hall.
  exists (column_entries cols matches).
  assert (1 <= players_count matches)%nat as Hn.
  { unfold players_count.
    assert (Players ∈ filter (fun m => m = Players) matches) as Hf
      by (by apply list_elem_of_filter).
    destruct (filter (fun m => m = Players) matches);
      [by apply not_elem_of_nil in Hf | simpl; lia]. }
  assert (before_format self h code
          = Returns (sub_players (fst (after_replacements code)),
                     snd (after_replacements code)
                       ++ column_entries cols matches)) as Hb.
  { unfold before_format. fold (after_replacements code). fold cols.
    fold matches. destruct (after_replacements code) as [c1 corr1] eqn:E.
    rewrite (column_loop_players cols Hmiss Hclose matches c1 corr1 Hall).
    cbn [fst snd]. destruct (players_count matches); [lia | done]. }
  split; [done|]. split; [apply players_fixes_column_entries|].
  split; [done|]. split; [done|].
  split; [intros k; apply sub_players_clean|].
  by rewrite auto_fix_plot_code_eq, Hb.
Qed.

End PlayersClaim.

(** ** Instances of the repair claims *)


(** C4, as stated, fails on code with the reference twice: both are
    rewritten, and two column-fix entries are logged. Nor is a column
    Player in the table enough: where Players is a column too, the
    reference stands; where another column is closer, the reference is
    rewritten to that one. *)
Lemma auto_fix_plot_code_two_fixes_counterexample :
  repair player_table (py "df['Players'] + df['Players']")
  = Returns (py "df['Player'] + df['Player']",
             [players_fix; players_fix; formatted_msg])
  /\ repair players_table (py "x = df['Players']")
     = Returns (py "x = df['Players']", [formatted_msg])
  /\ repair playerss_table (py "x = df['Players']")
     = Returns (py "x = df['Playerss']",
                [column_fix_msg Players (py "Playerss"); formatted_msg]).
Proof. repeat split; vm_compute; reflexivity. Qed.

(** C4 (amended) on the table with the columns Player and Team and code
    with one reference to Players and one to a name with no close
    match. *)
Lemma auto_fix_plot_code_players_witness :
  let code := py "x = df['Players'] + df['zzz']" in
  exists entries,
    entries = column_entries (columns player_table)
                (findall_column_refs (fst (after_replacements code))) /\
    players_fixes entries
    = repeat players_fix
        (players_count (findall_column_refs (fst (after_replacements code)))) /\
    (1 <= players_count
            (findall_column_refs (fst (after_replacements code))))%nat /\
    before_format (init (store_of player_table) 1) (store_of player_table)
                  code
    = Returns (sub_players (fst (after_replacements code)),
               snd (after_replacements code) ++ entries) /\
    (forall k,
        ref_matches Players
          (drop k (sub_players (fst (after_replacements code)))) = false) /\
    repair player_table code
    = Returns (format_step no_format
                 (sub_players (fst (after_replacements code)),
                  snd (after_replacements code) ++ entries)).
Proof.
  apply (auto_fix_plot_code_players no_format
           (init (store_of player_table) 1) (store_of player_table)
           (py "x = df['Players'] + df['zzz']")).
  - vm_compute. reflexivity.
  - vm_compute. reflexivity.
  - apply (bool_decide_unpack _). vm_compute. exact I.
  - apply (bool_decide_unpack _). vm_compute. exact I.
Defined.

(** The instance of the witness, evaluated: one entry, and the code
    rewritten. *)
Example auto_fix_plot_code_players_once :
  repair player_table (py "x = df['Players']")
  = Returns (py "x = df['Player']", [players_fix; formatted_msg]).
Proof. vm_compute. reflexivity. Qed.

(** C5, the failing input: the column closest to the reference holds a
    backslash and a digit, which [re.sub] reads as a group reference in
    its replacement template; the exception leaves
    [auto_fix_plot_code]. *)
Theorem auto_fix_plot_code_raises (fmt : pystr -> pystr + pystr) :
  auto_fix_plot_code fmt (init (store_of backslash_table) 1)
                     (store_of backslash_table) (py "df['Player1']")
  = Raises TemplateError.
Proof. vm_compute. reflexivity. Qed.

(** A reference with no close column stays as it is, with a warning. *)
Example auto_fix_plot_code_no_close_match :
  repair player_table (py "df['zzz']")
  = Returns (py "df['zzz']", [warning_msg (py "zzz"); formatted_msg]).
Proof. vm_compute. reflexivity. Qed.

(** When the formatter raises, the code before formatting is returned
    with the failure logged. *)
Example auto_fix_plot_code_format_failure :
  auto_fix_plot_code (fun _ => inr (py "boom"))
                     (init (store_of player_table) 1) (store_of player_table)
                     (py "df['zzz']")
  = Returns (py "df['zzz']",
             [warning_msg (py "zzz"); format_failed_msg (py "boom")]).
Proof. vm_compute. reflexivity. Qed.

(** ** The executor *)

Section ExecutorClaims.

Context {cell : Type}.
Variable autopep8_fix_code : pystr -> pystr + pystr.
Variable world : Type.

#[local] Abbreviation env := (gmap loc (DataFrame cell) * world)%type.

Variable logger_info : pystr -> env -> option thrown * env.
Variable exec_ : pystr -> safe_globals -> env -> option thrown * env.
Variable savefig : env -> (buffer + thrown) * env.
Variable clf : env -> option thrown * env.
Variable str_ : thrown -> env -> (pystr + thrown) * env.
Variable traceback_format_exc : thrown -> env -> (pystr + thrown) * env.
Variable logger_error : pystr -> env -> option thrown * env.

Implicit Types (h : gmap loc (DataFrame cell)) (self : VisualizationUtils).
Implicit Types (w : world) (en : env).

#[local] Abbreviation run :=
  (execute_code_safely autopep8_fix_code world logger_info exec_ savefig clf
                       str_ traceback_format_exc logger_error).





End ExecutorClaims.



(** It fails as well on code that raises an exception of a class of its
    own whose [__str__] raises: the code passes the safety gate, its
    exception derives from [Exception] and reaches the handler, and the
    [ZeroDivisionError] that [str(e)] raises there, although it derives
    from [Exception] too, leaves [execute_code_safely]. *)
Example execute_code_safely_handler_raises :
  check_code_safety bad_code = (true, []) /\
  derives_from_Exception Bad = true /\
  derives_from_Exception ZeroDivisionError = true /\
  fst (execute player_table bad_code) = Raises (Thrown ZeroDivisionError).
Proof. repeat split; vm_compute; reflexivity. Qed.

(** On the same interpreter: blocked code, code that runs through, and
    code whose exception is handled. *)
Example execute_code_safely_blocked :
  fst (execute player_table (py "import os"))
  = Returns (false,
             py "Code blocked for security reasons: Blocked dangerous pattern: import\s+os",
             None).
Proof. vm_compute. reflexivity. Qed.

Example execute_code_safely_success :
  fst (execute player_table (py "x = df['Players']"))
  = Returns (true, py "Code executed successfully. Corrections made: 2",
             Some []).
Proof. vm_compute. reflexivity. Qed.

Example execute_code_safely_handled :
  fst (execute player_table (py "x = 1 / 0"))
  = Returns (false,
             py "Execution error: division by zero" ++ [newline]
             ++ py "Traceback: Traceback (most recent call last): ZeroDivisionError: division by zero",
             None).
Proof. vm_compute. reflexivity. Qed.

(** ** Extraction of code blocks *)

Section ExtractionFacts.

Implicit Types (s sub close body : pystr).

Lemma first_at_unique sub s k k' :
  first_at sub s k -> first_at sub s k' -> k = k'.
Proof.
  intros [H1 H2] [H1' H2'].
  destruct (Nat.lt_trichotomy k k') as [Hlt|[Heq|Hlt]]; [|done|].
  - rewrite (H2' k Hlt) in H1. done.
  - rewrite (H2 k' Hlt) in H1'. done.
Qed.

Lemma first_at_cons sub c s k :
  startswith sub (c :: s) = false ->
  first_at sub s k -> first_at sub (c :: s) (S k).
Proof.
  intros Hc [H1 H2]. split; [done|].
  intros [|j] Hj; [done|]. apply H2. lia.
Qed.

Lemma contains_false_drop s sub k :
  contains s sub = false -> contains (drop k s) sub = false.
Proof.
  intros H. destruct (contains (drop k s) sub) eqn:E; [|done].
  apply contains_drop in E as [j Hj]. rewrite drop_drop in Hj.
  assert (contains s sub = true) as H' by (apply contains_drop; eauto).
  congruence.
Qed.

Lemma contains_false_here s sub :
  contains s sub = false -> startswith sub s = false.
Proof.
  intros H. destruct (startswith sub s) eqn:E; [|done].
  apply contains_here in E. congruence.
Qed.

(** [str.find] gives the first index of the substring, or [-1] when
    there is none. *)
Lemma find_spec s sub :
  (find s sub = (-1)%Z /\ contains s sub = false) \/
  (exists k, find s sub = Z.of_nat k /\ first_at sub s k).
Proof.
  induction s as [|c t IH]; cbn [find contains].
  - destruct (startswith sub []) eqn:E.
    + right. exists 0%nat. split; [done|]. split; [done | intros; lia].
    + left. done.
  - destruct (startswith sub (c :: t)) eqn:E.
    + right. exists 0%nat. split; [done|]. split; [done | intros; lia].
    + cbn [orb]. destruct IH as [[Hf Hc]|(k & Hf & Hk)].
      * left. by rewrite Hf.
      * right. exists (S k). rewrite Hf.
        destruct (Z.of_nat k =? -1)%Z eqn:Ek; [lia|].
        split; [lia|]. by apply first_at_cons.
Qed.

Lemma slice_from_first s sub k :
  first_at sub s k -> slice_from s (find s sub) = drop k s.
Proof.
  intros Hk. destruct (find_spec s sub) as [[_ Hc]|(k' & Hf & Hk')].
  - destruct Hk as [Hk _]. apply (contains_false_drop _ _ k) in Hc.
    apply contains_false_here in Hc. congruence.
  - rewrite Hf. unfold slice_from. rewrite Nat2Z.id.
    by rewrite (first_at_unique _ _ _ _ Hk Hk').
Qed.

(** The lazy group: everything before the first closing fence. *)
Lemma lazy_until_Some close s body :
  lazy_until close s = Some body ->
  first_at close s (length body) /\ body = take (length body) s.
Proof.
  revert body. induction s as [|c t IH]; intros body; cbn [lazy_until].
  - destruct (startswith close []) eqn:E; [|done].
    intros [= <-]. split; [|done]. split; [done | cbn; intros; lia].
  - destruct (startswith close (c :: t)) eqn:E.
    + intros [= <-]. split; [|done]. split; [done | cbn; intros; lia].
    + destruct (lazy_until close t) as [b|]; [|done].
      intros [= <-]. destruct (IH b eq_refl) as [Hf Ht].
      split; [by apply first_at_cons|]. cbn [length take]. by f_equal.
Qed.

Lemma lazy_until_None close s :
  lazy_until close s = None -> contains s close = false.
Proof.
  induction s as [|c t IH]; cbn [lazy_until contains].
  - destruct (startswith close []); done.
  - destruct (startswith close (c :: t)); [done|].
    destruct (lazy_until close t); [done|]. intros _. by apply IH.
Qed.

Lemma findall_fences_skip k s :
  findall_fences_from k s = findall_fences_from 0 (drop k s).
Proof.
  revert k. induction s as [|c t IH]; intros [|k]; try done.
  cbn [findall_fences_from drop]. apply IH.
Qed.

Lemma findall_fences_match s body :
  match_fence s = Some body ->
  findall_fences s
  = body :: findall_fences
              (drop (length fence_open + length body + length fence_close) s).
Proof.
  intros Hm. destruct s as [|c t]; [done|].
  unfold findall_fences. cbn [findall_fences_from]. rewrite Hm.
  rewrite findall_fences_skip. f_equal.
Qed.

Lemma findall_fences_nomatch c t :
  match_fence (c :: t) = None -> findall_fences (c :: t) = findall_fences t.
Proof. intros Hm. unfold findall_fences. cbn [findall_fences_from]. by rewrite Hm. Qed.

(** A text that does not match at its first character has the blocks of
    its tail. *)
Lemma fenced_blocks_cons c t bs :
  match_fence (c :: t) = None ->
  fenced_blocks t bs -> fenced_blocks (c :: t) bs.
Proof.
  intros Hm Hb. unfold match_fence in Hm. inversion Hb as [s Hnone|s k body bs' Ho Hc Hbody Hrest]; subst.
  - apply fenced_none. intros [|k] Hk.
    + cbn [drop] in Hk. rewrite Hk in Hm. by apply lazy_until_None.
    + apply (Hnone k Hk).
  - apply (fenced_cons _ (S k) body bs'); try done.
    apply first_at_cons; [|done].
    destruct (startswith fence_open (c :: t)) eqn:E; [|done].
    apply lazy_until_None in Hm.
    apply (contains_false_drop _ _ (S k + length body)) in Hm.
    apply contains_false_here in Hm.
    destruct Hc as [Hc _]. rewrite drop_drop in Hc, Hm.
    replace (length fence_open + (S k + length body))%nat
      with (S (k + length fence_open + length body)) in Hm by lia.
    cbn [drop] in Hm. congruence.
Qed.

(** [re.findall] computes the fenced blocks. *)
Lemma findall_fences_blocks s : fenced_blocks s (findall_fences s).
Proof.
  remember (length s) as m eqn:Hm. revert s Hm.
  induction m as [m IH] using lt_wf_ind. intros s ->.
  destruct s as [|c t].
  { apply fenced_none. intros k Hk. by rewrite drop_nil in Hk. }
  destruct (match_fence (c :: t)) as [body|] eqn:E.
  - rewrite (findall_fences_match _ _ E).
    unfold match_fence in E.
    destruct (startswith fence_open (c :: t)) eqn:Eo; [|done].
    apply lazy_until_Some in E as [Hc Hbody].
    apply (fenced_cons _ 0%nat body).
    + split; [done | intros; lia].
    + done.
    + done.
    + cbn [Nat.add]. apply (IH (length (drop (length fence_open + length body + length fence_close) (c :: t)))); [|done].
      rewrite length_drop. cbn. lia.
  - rewrite (findall_fences_nomatch _ _ E).
    apply fenced_blocks_cons; [done|].
    apply (IH (length t)); [simpl; lia | done].
Qed.

(** The fenced blocks of a text are determined. *)
Lemma fenced_blocks_unique s bs bs' :
  fenced_blocks s bs -> fenced_blocks s bs' -> bs = bs'.
Proof.
  intros H. revert bs'. induction H as [s Hnone|s k body bs Ho Hc Hbody Hrest IH];
    intros bs' H'.
  - inversion H' as [|s' k' body' bs2 Ho' Hc' _ _]; subst; [done|].
    destruct Ho' as [Ho' _]. specialize (Hnone k' Ho').
    destruct Hc' as [Hc' _].
    apply (contains_false_drop _ _ (length body')) in Hnone.
    apply contains_false_here in Hnone. congruence.
  - inversion H' as [s' Hnone|s' k' body' bs2 Ho' Hc' Hbody' Hrest']; subst.
    + destruct Ho as [Ho _]. specialize (Hnone k Ho).
      destruct Hc as [Hc _].
      apply (contains_false_drop _ _ (length body)) in Hnone.
      apply contains_false_here in Hnone. congruence.
    + assert (k' = k) as -> by (by eapply first_at_unique).
      assert (length body' = length body) as Hlen
        by (by eapply first_at_unique).
      assert (body' = body) as -> by congruence.
      f_equal. by apply IH.
Qed.

End ExtractionFacts.

Section StripFacts.

Implicit Types (s : pystr).

Lemma lstrip_split s : exists ws, s = ws ++ lstrip s /\ blank ws.
Proof.
  induction s as [|c t IH]; [exists []; split; [done | constructor]|].
  cbn [lstrip]. destruct (isspace c) eqn:E.
  - destruct IH as (ws & Heq & Hws). exists (c :: ws).
    split; [cbn; by f_equal | by constructor].
  - exists []. split; [done | constructor].
Qed.

Lemma lstrip_head s c t : lstrip s = c :: t -> isspace c = false.
Proof.
  induction s as [|d s IH]; [done|]. cbn [lstrip].
  destruct (isspace d) eqn:E; [done|]. by intros [= <- <-].
Qed.

Lemma lstrip_nil s : lstrip s = [] <-> blank s.
Proof.
  induction s as [|c t IH]; [split; [constructor | done]|].
  cbn [lstrip]. destruct (isspace c) eqn:E.
  - rewrite IH. split.
    + intros H. by constructor.
    + intros H. by inversion H.
  - split; [done|]. intros H. inversion H. congruence.
Qed.

Lemma blank_rev s : blank (rev s) <-> blank s.
Proof.
  unfold blank. split; intros H.
  - rewrite <- (rev_involutive s). by apply Forall_rev.
  - by apply Forall_rev.
Qed.

Lemma rstrip_split s : exists ws, s = rstrip s ++ ws /\ blank ws.
Proof.
  destruct (lstrip_split (rev s)) as (ws & Heq & Hws).
  exists (rev ws). split; [|by apply blank_rev].
  unfold rstrip. rewrite <- rev_app_distr, <- Heq. by rewrite rev_involutive.
Qed.

Lemma rstrip_last s t c : rstrip s = t ++ [c] -> isspace c = false.
Proof.
  unfold rstrip. intros H. apply (f_equal (@rev N)) in H.
  rewrite rev_involutive, rev_app_distr in H. cbn in H.
  by apply lstrip_head in H.
Qed.

Lemma rstrip_nil s : rstrip s = [] <-> blank s.
Proof.
  unfold rstrip. rewrite <- blank_rev, <- lstrip_nil. split.
  - intros H. apply (f_equal (@rev N)) in H. by rewrite rev_involutive in H.
  - intros ->. done.
Qed.

(** [strip] gives the empty string exactly on white space. *)
Lemma strip_nil s : strip s = [] <-> blank s.
Proof.
  unfold strip. rewrite rstrip_nil. split.
  - intros H. destruct (lstrip s) as [|c t] eqn:E; [by apply lstrip_nil|].
    apply lstrip_head in E. inversion H. congruence.
  - intros H. apply lstrip_nil in H. rewrite H. constructor.
Qed.

(** [strip] takes white space off both ends and nothing else: what is
    left neither starts nor ends with white space. *)
Lemma strip_spec s :
  exists l r,
    s = l ++ strip s ++ r /\ blank l /\ blank r /\
    (forall c t, strip s = c :: t -> isspace c = false) /\
    (forall t c, strip s = t ++ [c] -> isspace c = false).
Proof.
  destruct (lstrip_split s) as (l & Hl & Hbl).
  destruct (rstrip_split (lstrip s)) as (r & Hr & Hbr).
  exists l, r. fold (strip s) in Hr.
  split; [by rewrite <- Hr|]. split; [done|]. split; [done|]. split.
  - intros c t Hs. rewrite Hs in Hr. by apply lstrip_head in Hr.
  - intros t c. apply rstrip_last.
Qed.

Lemma trimmed_eq (blocks : list pystr) :
  map strip (filter (fun block => nonempty (strip block)) blocks)
  = trimmed blocks.
Proof.
  unfold trimmed. f_equal. apply list_filter_iff. intros b.
  fold (blank b). rewrite <- strip_nil.
  destruct (strip b); cbn; [tauto|]. split; [done|]. intros _. exact I.
Qed.

End StripFacts.

(** C6. With the marker in the text, [extract_code_blocks] returns the
    python-tagged fenced blocks of the text from the first marker on,
    trimmed and in order, those of white space only left out; without
    the marker, those of the whole text.  On the example of the
    specification it returns the one block X. *)
Theorem extract_code_blocks_spec (text : pystr) :
  (forall k blocks,
      first_at marker text k ->
      fenced_blocks (drop k text) blocks ->
      extract_code_blocks text = trimmed blocks) /\
  (forall blocks,
      contains text marker = false ->
      fenced_blocks text blocks ->
      extract_code_blocks text = trimmed blocks) /\
  (forall s, exists blocks, fenced_blocks s blocks) /\
  extract_code_blocks extraction_example = [py "X"].
Proof.
  split; [|split; [|split]].
  - intros k blocks Hk Hb. unfold extract_code_blocks.
    destruct (find_spec text marker) as [[_ Hc]|(k' & Hf & Hk')].
    { destruct Hk as [Hk _]. apply (contains_false_drop _ _ k) in Hc.
      apply contains_false_here in Hc. congruence. }
    rewrite (slice_from_first _ _ _ Hk), Hf.
    destruct (Z.of_nat k' =? -1)%Z eqn:E; [lia|].
    rewrite trimmed_eq. f_equal.
    apply (fenced_blocks_unique (drop k text)); [|done].
    apply findall_fences_blocks.
  - intros blocks Hc Hb. unfold extract_code_blocks.
    destruct (find_spec text marker) as [[Hf _]|(k' & Hf & [Hk' _])].
    + rewrite Hf. cbn. rewrite trimmed_eq. f_equal.
      apply (fenced_blocks_unique text); [|done].
      apply findall_fences_blocks.
    + apply (contains_false_drop _ _ k') in Hc.
      apply contains_false_here in Hc. congruence.
  - intros s. exists (findall_fences s). apply findall_fences_blocks.
  - vm_compute. reflexivity.
Qed.

(** ** [get_matching_blocks] ends within its fuel *)

Section MatchingBlocks.

Import Difflib.

Variables a b : pystr.

Lemma scan_row_range (i alo ahi blo bhi : nat) (j2len : gmap nat nat)
    (js : list nat) (newj2len : gmap nat nat) (best : block) :
  (alo <= i)%nat -> (i < ahi)%nat ->
  map_Forall (fun _ v => (v <= i - alo)%nat) j2len ->
  map_Forall (fun _ v => (v <= i + 1 - alo)%nat) newj2len ->
  in_range alo ahi best ->
  map_Forall (fun _ v => (v <= i + 1 - alo)%nat)
             (fst (scan_row i blo bhi j2len js newj2len best)) /\
  in_range alo ahi (snd (scan_row i blo bhi j2len js newj2len best)).
Proof.
  intros Hlo Hhi Hold. revert newj2len best.
  induction js as [|j js IH]; intros newj2len best Hnew Hbest; [done|].
  cbn [scan_row].
  destruct (j <? blo)%nat; [by apply IH|].
  destruct (bhi <=? j)%nat; [done|].
  destruct best as [[besti bestj] bestsize].
  set (k := (match j with
             | O => 0
             | S j' => default 0 (j2len !! j')
             end + 1)%nat).
  assert (k <= i + 1 - alo)%nat as Hk.
  { unfold k. destruct j as [|j']; [lia|].
    destruct (j2len !! j') as [v|] eqn:E; cbn; [|lia].
    specialize (Hold j' v E). cbn in Hold. lia. }
  apply IH.
  - by apply map_Forall_insert_2.
  - destruct (bestsize <? k)%nat; [|done]. cbn. lia.
Qed.

Lemma scan_rows_range (alo ahi blo bhi : nat) :
  (alo <= ahi)%nat ->
  in_range alo ahi (snd (scan_rows a b alo ahi blo bhi)).
Proof.
  intros Hle. unfold scan_rows.
  match goal with |- context [fold_left ?f _ _] => set (step := f) end.
  assert (forall n i0 st,
             (alo <= i0)%nat -> (i0 + n <= ahi)%nat ->
             map_Forall (fun _ v => (v <= i0 - alo)%nat) (fst st) ->
             in_range alo ahi (snd st) ->
             in_range alo ahi (snd (fold_left step (seq i0 n) st))) as H.
  { induction n as [|n IH]; intros i0 [j2len best] Hi0 Hn Hm Hb; [done|].
    cbn [seq fold_left]. cbn [fst snd] in Hm, Hb.
    assert (map_Forall (fun _ v => (v <= i0 + 1 - alo)%nat)
                       (fst (step (j2len, best) i0)) /\
            in_range alo ahi (snd (step (j2len, best) i0))) as [H1 H2].
    { unfold step. apply scan_row_range;
        [done | lia | done | apply map_Forall_empty | done]. }
    apply IH; [lia | lia | | done].
    replace (S i0 - alo)%nat with (i0 + 1 - alo)%nat by lia. done. }
  apply (H (ahi - alo)%nat alo); [lia | lia | apply map_Forall_empty |].
  cbn. lia.
Qed.

Lemma extend_left_range (alo blo ahi besti bestj bestsize : nat) :
  in_range alo ahi (besti, bestj, bestsize) ->
  in_range alo ahi (extend_left a b alo blo besti bestj bestsize).
Proof.
  revert bestj bestsize. induction besti as [|i' IH]; intros bestj bestsize H.
  { done. }
  cbn [extend_left]. destruct bestj as [|j']; [done|].
  destruct (_ && _) eqn:E; [|done].
  apply andb_true_iff in E as [E _]. apply andb_true_iff in E as [E _].
  apply Nat.ltb_lt in E. apply IH. cbn in *. lia.
Qed.

Lemma extend_right_range (alo ahi bhi n besti bestj bestsize : nat) :
  in_range alo ahi (besti, bestj, bestsize) ->
  in_range alo ahi (extend_right a b ahi bhi n besti bestj bestsize).
Proof.
  revert bestsize. induction n as [|n IH]; intros bestsize H; [done|].
  cbn [extend_right]. destruct (_ && _) eqn:E; [|done].
  apply andb_true_iff in E as [E _]. apply andb_true_iff in E as [E _].
  apply Nat.ltb_lt in E. apply IH. cbn in *. lia.
Qed.

(** [find_longest_match] answers with a block of the range it was given. *)
Lemma find_longest_match_range (alo ahi blo bhi : nat) :
  (alo <= ahi)%nat ->
  in_range alo ahi (find_longest_match a b alo ahi blo bhi).
Proof.
  intros Hle. unfold find_longest_match.
  pose proof (scan_rows_range alo ahi blo bhi Hle) as H.
  destruct (scan_rows a b alo ahi blo bhi) as [m [[besti bestj] bestsize]].
  cbn [snd] in H.
  pose proof (extend_left_range alo blo ahi besti bestj bestsize H) as H'.
  destruct (extend_left a b alo blo besti bestj bestsize)
    as [[besti' bestj'] bestsize'].
  by apply extend_right_range.
Qed.

Lemma queue_weight_cons (alo ahi blo bhi : nat)
    (queue : list (nat * nat * nat * nat)) :
  queue_weight ((alo, ahi, blo, bhi) :: queue)
  = (2 * (ahi - alo) + 1 + queue_weight queue)%nat.
Proof. reflexivity. Qed.

Lemma blocks_loop_fuel (fuel : nat) (queue : list (nat * nat * nat * nat))
    (acc : list block) :
  queue_ok queue -> (queue_weight queue <= fuel)%nat ->
  is_Some (blocks_loop fuel a b queue acc).
Proof.
  revert queue acc. induction fuel as [|fuel IH]; intros queue acc Hok Hw.
  { destruct queue as [|[[[alo ahi] blo] bhi] q]; [by eexists|].
    rewrite queue_weight_cons in Hw. lia. }
  destruct queue as [|[[[alo ahi] blo] bhi] q]; [by eexists|].
  apply Forall_cons in Hok as [Hle Hok].
  rewrite queue_weight_cons in Hw.
  cbn [blocks_loop].
  pose proof (find_longest_match_range alo ahi blo bhi Hle) as Hr.
  destruct (find_longest_match a b alo ahi blo bhi) as [[i j] k].
  cbn in Hr. destruct Hr as [Hi Hk].
  destruct (k =? 0)%nat eqn:Ek.
  { apply IH; [done | lia]. }
  apply Nat.eqb_neq in Ek.
  apply IH.
  - destruct ((i + k <? ahi)%nat && (j + k <? bhi)%nat) eqn:E2;
      destruct ((alo <? i)%nat && (blo <? j)%nat) eqn:E1;
      repeat (apply Forall_cons; split); try done; lia.
  - destruct ((i + k <? ahi)%nat && (j + k <? bhi)%nat);
      destruct ((alo <? i)%nat && (blo <? j)%nat);
      rewrite ?queue_weight_cons; lia.
Qed.

(** The loop of [get_matching_blocks] empties its queue within the
    rounds [matching_blocks] allows it. *)
Lemma matching_blocks_fuel :
  is_Some (blocks_loop (2 * length a + 1) a b
                       [(0, length a, 0, length b)%nat] []).
Proof.
  apply blocks_loop_fuel.
  - apply Forall_singleton. lia.
  - rewrite queue_weight_cons.
    change (queue_weight []) with 0%nat. lia.
Qed.

End MatchingBlocks.

(** * Properties of the rest of the application *)

(** ** Substrings and sublists *)

Lemma contains_infix (s n : pystr) :
  contains s n = true <-> exists pre post, s = pre ++ n ++ post.
Proof.
  rewrite contains_drop. split.
  - intros [k Hk]. apply startswith_iff in Hk as [r Hr].
    exists (take k s), r. by rewrite <- Hr, take_drop.
  - intros (pre & post & ->). exists (length pre).
    rewrite drop_app_length. apply startswith_app.
Qed.

Lemma contains_trans (s m n : pystr) :
  contains s m = true -> contains m n = true -> contains s n = true.
Proof.
  rewrite !contains_infix. intros (a & b & ->) (c & d & ->).
  exists (a ++ c), (d ++ b). by rewrite <- !app_assoc.
Qed.

Lemma contains_false_infix (s m n : pystr) :
  contains s m = true -> contains s n = false -> contains m n = false.
Proof.
  intros Hm Hn. destruct (contains m n) eqn:E; [|done].
  by rewrite (contains_trans s m n) in Hn.
Qed.

Lemma sublist_map {X Y} (f : X -> Y) (l1 l2 : list X) :
  l1 `sublist_of` l2 -> map f l1 `sublist_of` map f l2.
Proof. induction 1; cbn; by constructor. Qed.

(** ** More on the safety gate *)

Lemma found_in_context (p pre code post : pystr) :
  found_in p code -> found_in p (pre ++ code ++ post).
Proof.
  intros (a & m & b & -> & Hm). exists (pre ++ a), m, (b ++ post).
  split; [|done]. by rewrite <- !app_assoc.
Qed.

Lemma filter_sublist_impl {X} (P Q : X -> Prop) `{!forall x, Decision (P x)}
    `{!forall x, Decision (Q x)} (l : list X) :
  (forall x, P x -> Q x) -> filter P l `sublist_of` filter Q l.
Proof.
  intros HPQ. induction l as [|x l IH]; [done|].
  rewrite !filter_cons. destruct (decide (P x)) as [HP|HP].
  - rewrite decide_True by auto. by constructor.
  - destruct (decide (Q x)); [by constructor|done].
Qed.

(** X1. Text put before or after a piece of code takes no violation
    away: the violations of the piece are among those of the whole, in
    the same order, so the whole is safe only if the piece is. *)
Theorem check_code_safety_context (pre code post : pystr) :
  snd (check_code_safety code)
    `sublist_of` snd (check_code_safety (pre ++ code ++ post)) /\
  (fst (check_code_safety (pre ++ code ++ post)) = true ->
   fst (check_code_safety code) = true).
Proof.
  assert (matched_patterns code
            `sublist_of` matched_patterns (pre ++ code ++ post)) as Hs.
  { apply filter_sublist_impl. intros p Hp.
    apply re_search_ignorecase_spec. apply found_in_context.
    by apply re_search_ignorecase_spec. }
  split.
  - rewrite !check_code_safety_issues. by apply sublist_map.
  - rewrite !check_code_safety_safe. intros H. rewrite H in Hs.
    by apply sublist_nil_r in Hs.
Qed.

Lemma ascii_letter_range (c : N) :
  (is_ascii_upper c || is_ascii_lower c) = true ->
  (65 <= c /\ c <= 90) \/ (97 <= c /\ c <= 122).
Proof.
  unfold is_ascii_upper, is_ascii_lower. intros H.
  apply orb_prop in H as [H|H]; apply andb_prop in H as [H1 H2];
    apply N.leb_le in H1, H2; lia.
Qed.

Lemma isspace_ascii_letter (c : N) : 65 <= c <= 122 -> isspace c = false.
Proof.
  intros Hc. unfold isspace. rewrite !orb_false_iff.
  repeat split;
    first [ apply N.eqb_neq; lia
          | apply andb_false_iff; left; apply N.leb_gt; lia
          | apply andb_false_iff; right; apply N.leb_gt; lia ].
Qed.

Lemma unicode_tolower_ascii (c : N) :
  c <= 122 -> unicode_tolower c = ascii_tolower c.
Proof.
  intros Hc. unfold unicode_tolower, ascii_tolower.
  destruct (is_ascii_upper c); [done|].
  destruct (N.eqb_spec c 304); [lia|]. destruct (N.eqb_spec c 8490); [lia|done].
Qed.

Lemma atom_matches_same_letter (a : atom) (c d : N) :
  same_letter c d -> atom_matches a c = atom_matches a d.
Proof.
  intros [->|(Hc & Hd & Hcd)]; [done|].
  apply ascii_letter_range in Hc as Hc', Hd as Hd'.
  destruct a as [p|]; cbn [atom_matches].
  - unfold lit_matches.
    destruct (is_ascii_upper p || is_ascii_lower p) eqn:Hp.
    + apply ascii_letter_range in Hp as Hp'.
      cbv zeta. rewrite !unicode_tolower_ascii by lia. by rewrite Hcd.
    + destruct (N.eqb_spec c p) as [->|]; [congruence|].
      destruct (N.eqb_spec d p) as [->|]; [congruence|done].
  - rewrite !isspace_ascii_letter by lia. done.
Qed.

Lemma match_here_same_letter (its : list item) (s s' : pystr) :
  Forall2 same_letter s s' -> match_here its s' = match_here its s.
Proof.
  intros H. revert its. induction H as [|c d s s' Hcd Hs IH]; intros its.
  { by destruct its. }
  destruct its as [|[a plus] rest]; [done|].
  rewrite !match_here_cons, (atom_matches_same_letter a c d Hcd).
  by rewrite !IH.
Qed.

Lemma search_items_same_letter (its : list item) (s s' : pystr) :
  Forall2 same_letter s s' -> search_items its s' = search_items its s.
Proof.
  intros H. induction H as [|c d s s' Hcd Hs IH]; [done|].
  cbn [search_items]. rewrite IH.
  by rewrite (match_here_same_letter its (c :: s) (d :: s')) by by constructor.
Qed.

Lemma check_step_same_letter (code code' : pystr) :
  Forall2 same_letter code code' ->
  forall ps acc, fold_left (check_step code') ps acc
                 = fold_left (check_step code) ps acc.
Proof.
  intros H. induction ps as [|p ps IH]; intros acc; [done|].
  cbn [fold_left]. rewrite IH. f_equal. unfold check_step.
  unfold re_search_ignorecase.
  by rewrite (search_items_same_letter _ code code').
Qed.

(** X2. The verdict and the violations do not depend on the case of the
    ASCII letters of the code. *)
Theorem check_code_safety_letter_case (code code' : pystr) :
  Forall2 same_letter code code' ->
  check_code_safety code' = check_code_safety code.
Proof.
  intros H. unfold check_code_safety.
  by rewrite (check_step_same_letter code code' H).
Qed.

(** The same code in capitals. *)
Lemma check_code_safety_letter_case_witness :
  check_code_safety (py "IMPORT Os; PRINT(x)")
  = check_code_safety (py "import os; print(x)").
Proof.
  apply (check_code_safety_letter_case (py "import os; print(x)")
                                       (py "IMPORT Os; PRINT(x)")).
  apply (bool_decide_unpack _). vm_compute. exact I.
Defined.

(** ** The correction log *)

Lemma join_contains (sep : pystr) (l : list pystr) (c : pystr) :
  c ∈ l -> contains (join sep l) c = true.
Proof.
  induction l as [|x l IH]; intros Hc; [by apply not_elem_of_nil in Hc|].
  assert (join sep (x :: l) = x \/ join sep (x :: l) = x ++ sep ++ join sep l)
    as Hj by (destruct l; [by left | by right]).
  apply elem_of_cons in Hc as [->|Hc].
  - apply contains_infix. destruct Hj as [-> | ->].
    + exists [], []. by rewrite app_nil_r.
    + by exists [], (sep ++ join sep l).
  - destruct l as [|y l]; [by apply not_elem_of_nil in Hc|].
    change (join sep (x :: y :: l)) with (x ++ sep ++ join sep (y :: l)).
    do 2 apply contains_app_r. by apply IH.
Qed.

Lemma join_head (sep : pystr) (x : pystr) (l : list pystr) (c : N)
    (t : pystr) :
  x = c :: t -> exists t', join sep (x :: l) = c :: t'.
Proof. intros ->. destruct l; cbn; by eexists. Qed.

(** X3. The summary is the fixed sentence exactly when the log is empty;
    otherwise every logged correction occurs in it. *)
Theorem get_corrections_summary_spec (self : VisualizationUtils) :
  (get_corrections_summary self = py "No corrections were made."
   <-> corrections_log self = []) /\
  (forall c, c ∈ corrections_log self ->
             contains (get_corrections_summary self) c = true).
Proof.
  unfold get_corrections_summary.
  destruct (corrections_log self) as [|x l] eqn:E.
  - split; [done|]. intros c Hc. by apply not_elem_of_nil in Hc.
  - split.
    + split; [|done]. rewrite map_cons.
      destruct (join_head [newline] ([bullet] ++ py " " ++ x)
                  (map (fun correction => [bullet] ++ py " " ++ correction) l)
                  bullet (py " " ++ x) eq_refl) as [t' ->].
      discriminate.
    + intros c Hc.
      apply (contains_trans _ ([bullet] ++ py " " ++ c)).
      * apply join_contains. apply list_elem_of_In, in_map_iff.
        exists c. split; [done|]. by apply list_elem_of_In.
      * do 2 apply contains_app_r. apply contains_infix; exists [], []; by rewrite app_nil_r.
Qed.

Section NormalizerLog.

Context {cell : Type}.
Implicit Types (h : gmap loc (DataFrame cell)) (self : VisualizationUtils).
Implicit Types (T : DataFrame cell) (A : list (pystr * pystr)).

(** No mapping applies exactly when every alias column of the table has
    its canonical column already. *)
Lemma applied_nil_iff A T :
  applied A T = [] <->
  forall e, e ∈ A -> has_column T (fst e) = true ->
            has_column T (snd e) = true.
Proof.
  split.
  - intros Hnil e He Ha. destruct (has_column T (snd e)) eqn:Hc; [done|].
    destruct (first_alias A T (snd e)) as [e'|] eqn:Hf.
    + pose proof Hf as Hf'. apply find_elem in Hf' as [He' Hp].
      unfold present in Hp. apply andb_prop in Hp as [Hs _].
      apply pystr_eqb_eq in Hs.
      assert (e' ∈ applied A T) as Hin.
      { apply applied_elem. split; [done|]. unfold applies.
        rewrite Hs, Hc. cbn [negb andb]. by apply bool_decide_eq_true. }
      rewrite Hnil in Hin. by apply not_elem_of_nil in Hin.
    + apply (find_None_elem _ _ e) in Hf; [|done].
      unfold present in Hf. by rewrite pystr_eqb_refl, Ha in Hf.
  - intros Hclosed. apply filter_none. intros e He. unfold applies.
    destruct (has_column T (snd e)) eqn:Hc; [done|]. cbn [negb andb].
    apply bool_decide_eq_false. intros Hf.
    apply find_elem in Hf as [_ Hp]. unfold present in Hp.
    apply andb_prop in Hp as [_ Ha].
    specialize (Hclosed e He Ha). congruence.
Qed.

(** X4. [normalize_columns] logs nothing exactly when every alias column
    of the table has its canonical column already, and then the table it
    returns is the table it started from. *)
Theorem normalize_columns_nothing_to_map self h T :
  h !! df self = Some T ->
  let '(l', h', self') := normalize_columns self h in
  (corrections_log self' = corrections_log self <->
   forall alias canonical,
     (alias, canonical) ∈ COLUMN_ALIASES ->
     has_column T alias = true -> has_column T canonical = true) /\
  (corrections_log self' = corrections_log self -> h' !! l' = Some T).
Proof.
  intros HT. pose proof (normalize_columns_eq self h) as Heq.
  cbn zeta in Heq.
  rewrite (lookup_total_correct _ _ _ HT) in Heq. rewrite Heq. clear Heq.
  cbn [corrections_log set_corrections_log].
  assert (corrections_log self ++ map entry_msg (applied COLUMN_ALIASES T)
          = corrections_log self <-> applied COLUMN_ALIASES T = []) as Hlog.
  { split.
    - intros H. apply (f_equal length) in H.
      rewrite length_app, length_map in H.
      destruct (applied COLUMN_ALIASES T); [done | simpl in H; lia].
    - intros ->. apply app_nil_r. }
  split.
  - rewrite Hlog, applied_nil_iff. split.
    + intros H alias canonical. apply (H (alias, canonical)).
    + intros H [alias canonical]. apply H.
  - intros H. apply Hlog in H. unfold shadows. rewrite H. cbn [map].
    by rewrite app_nil_r, lookup_insert_eq.
Qed.

(** X5. A second call on the same instance starts from the original
    table again: it returns an equal table in a new object and appends
    the same entries to the log once more. *)
Theorem normalize_columns_twice self h T :
  h !! df self = Some T ->
  let '(l1, h1, self1) := normalize_columns self h in
  let '(l2, h2, self2) := normalize_columns self1 h1 in
  l2 <> l1 /\ h2 !! l2 = h1 !! l1 /\ h2 !! l1 = h1 !! l1 /\
  corrections_log self1
  = corrections_log self ++ map entry_msg (applied COLUMN_ALIASES T) /\
  corrections_log self2
  = corrections_log self ++ map entry_msg (applied COLUMN_ALIASES T)
      ++ map entry_msg (applied COLUMN_ALIASES T).
Proof.
  intros HT. pose proof (normalize_columns_eq self h) as Heq.
  cbn zeta in Heq.
  rewrite (lookup_total_correct _ _ _ HT) in Heq. rewrite Heq. clear Heq.
  set (l1 := fresh (dom h)). set (T1 := T ++ shadows COLUMN_ALIASES T).
  set (h1 := <[l1 := T1]> h).
  set (self1 := set_corrections_log self _).
  assert (l1 <> df self) as Hne by (apply fresh_loc_new; by eexists).
  assert (h1 !! df self1 = Some T) as HT1.
  { unfold h1, self1. cbn [df set_corrections_log].
    by rewrite lookup_insert_ne. }
  pose proof (normalize_columns_eq self1 h1) as Heq.
  cbn zeta in Heq.
  rewrite (lookup_total_correct _ _ _ HT1) in Heq. rewrite Heq. clear Heq.
  assert (fresh (dom h1) <> l1) as Hne2.
  { apply fresh_loc_new. unfold h1. rewrite lookup_insert_eq. by eexists. }
  split; [done|]. split.
  - rewrite lookup_insert_eq. unfold h1. by rewrite lookup_insert_eq.
  - split; [by rewrite lookup_insert_ne|]. split; [done|].
    unfold self1. cbn [corrections_log set_corrections_log].
    by rewrite <- app_assoc.
Qed.

End NormalizerLog.

(** On the table with the columns Player and Team, where no alias is
    present. *)
Lemma normalize_columns_nothing_to_map_witness :
  let '(l', h', self') :=
    normalize_columns (init (store_of player_table) 1) (store_of player_table) in
  (corrections_log self' = corrections_log (init (store_of player_table) 1) <->
   forall alias canonical,
     (alias, canonical) ∈ COLUMN_ALIASES ->
     has_column player_table alias = true ->
     has_column player_table canonical = true) /\
  (corrections_log self' = corrections_log (init (store_of player_table) 1) ->
   h' !! l' = Some player_table).
Proof.
  apply (normalize_columns_nothing_to_map
           (init (store_of player_table) 1) (store_of player_table)
           player_table).
  reflexivity.
Defined.

(** On the table with Squad Name and X, which gets two mappings. *)
Lemma normalize_columns_twice_witness :
  let '(l1, h1, self1) :=
    normalize_columns (init (store_of squad_table) 1) (store_of squad_table) in
  let '(l2, h2, self2) := normalize_columns self1 h1 in
  l2 <> l1 /\ h2 !! l2 = h1 !! l1 /\ h2 !! l1 = h1 !! l1 /\
  corrections_log self1
  = corrections_log (init (store_of squad_table) 1)
      ++ map entry_msg (applied COLUMN_ALIASES squad_table) /\
  corrections_log self2
  = corrections_log (init (store_of squad_table) 1)
      ++ map entry_msg (applied COLUMN_ALIASES squad_table)
      ++ map entry_msg (applied COLUMN_ALIASES squad_table).
Proof.
  apply (normalize_columns_twice
           (init (store_of squad_table) 1) (store_of squad_table) squad_table).
  reflexivity.
Defined.

(** ** The extracted blocks *)

Lemma strip_infix (s : pystr) : contains s (strip s) = true.
Proof.
  destruct (strip_spec s) as (l & r & Hs & _). apply contains_infix.
  by exists l, r.
Qed.

Lemma blank_app (a b : pystr) : blank (a ++ b) <-> blank a /\ blank b.
Proof. apply Forall_app. Qed.

(** Stripping twice is stripping once. *)
Lemma strip_strip (s : pystr) : strip (strip s) = strip s.
Proof.
  destruct (strip_spec s) as (l & r & _ & _ & _ & Hfirst & Hlast). clear l r.
  remember (strip s) as u eqn:Eu in *. clear Eu s.
  assert (lstrip u = u) as Hl.
  { destruct u as [|c t]; [done|]. cbn [lstrip].
    by rewrite (Hfirst c t eq_refl). }
  unfold strip. rewrite Hl. unfold rstrip.
  destruct (rev u) as [|c t] eqn:E.
  { apply (f_equal (@rev N)) in E. rewrite rev_involutive in E.
    by rewrite E. }
  assert (u = rev t ++ [c]) as Hu.
  { apply (f_equal (@rev N)) in E. by rewrite rev_involutive in E. }
  cbn [lstrip]. rewrite (Hlast (rev t) c Hu). by rewrite <- E, rev_involutive.
Qed.

(** Every block of a text is a stretch of it that holds no closing
    fence. *)
Lemma fenced_blocks_elem (s : pystr) (bs : list pystr) (b : pystr) :
  fenced_blocks s bs -> b ∈ bs ->
  contains s b = true /\ contains b fence_close = false.
Proof.
  induction 1 as [s Hnone | s k body bs Hopen Hclose Hbody Hrest IH];
    intros Hb; [by apply not_elem_of_nil in Hb|].
  apply elem_of_cons in Hb as [->|Hb].
  - split.
    + apply contains_infix.
      exists (take (k + length fence_open) s),
             (drop (length body) (drop (k + length fence_open) s)).
      rewrite <- (take_drop (k + length fence_open) s) at 1. f_equal.
      rewrite <- (take_drop (length body) (drop (k + length fence_open) s))
        at 1.
      by rewrite <- Hbody.
    + destruct (contains body fence_close) eqn:E; [|done].
      apply contains_drop in E as [j Hj].
      destruct Hclose as [_ Hbefore].
      assert (j < length body)%nat as Hjlt.
      { destruct (decide (j < length body)%nat); [done|].
        rewrite drop_ge in Hj by lia. done. }
      specialize (Hbefore j Hjlt).
      apply startswith_iff in Hj as [r Hr].
      assert (startswith fence_close
                (drop j (drop (k + length fence_open) s)) = true) as Hc;
        [|congruence].
      apply startswith_iff.
      exists (r ++ drop (length body) (drop (k + length fence_open) s)).
      rewrite <- (take_drop (length body) (drop (k + length fence_open) s))
        at 1.
      rewrite <- Hbody. rewrite drop_app_le by lia. rewrite Hr.
      by rewrite <- app_assoc.
  - destruct (IH Hb) as [Hin Hfree]. split; [|done].
    apply (contains_trans _
             (drop (k + length fence_open + length body + length fence_close)
                   s)); [|done].
    apply contains_infix. eexists (take _ s), []. rewrite app_nil_r.
    by rewrite take_drop.
Qed.

(** X6. Every block [extract_code_blocks] returns is a non-empty stretch
    of the text with no white space at either end and no closing fence
    inside. *)
Theorem extract_code_blocks_blocks (text b : pystr) :
  b ∈ extract_code_blocks text ->
  b <> [] /\ strip b = b /\
  contains b fence_close = false /\ contains text b = true.
Proof.
  unfold extract_code_blocks.
  set (s := if (find text marker =? -1)%Z then text
            else slice_from text (find text marker)).
  assert ((if (find text marker =? -1)%Z then findall_fences text
           else findall_fences (slice_from text (find text marker)))
          = findall_fences s) as -> by (unfold s; by destruct (_ =? _)%Z).
  assert (contains text s = true) as Hs.
  { unfold s. destruct (_ =? _)%Z.
    - apply contains_infix. exists [], []. by rewrite app_nil_r.
    - unfold slice_from. apply contains_infix.
      eexists (take _ text), []. by rewrite app_nil_r, take_drop. }
  intros Hb. apply list_elem_of_In, in_map_iff in Hb as (block & <- & Hb).
  apply list_elem_of_In, list_elem_of_filter in Hb as [Hne Hb].
  destruct (fenced_blocks_elem s _ block (findall_fences_blocks s) Hb)
    as [Hin Hfree].
  split; [|split; [|split]].
  - intros E. by rewrite E in Hne.
  - apply strip_strip.
  - apply (contains_false_infix block); [apply strip_infix | done].
  - apply (contains_trans _ s); [done|].
    apply (contains_trans _ block); [done | apply strip_infix].
Qed.

(** On the block of the extraction example. *)
Lemma extract_code_blocks_blocks_witness :
  py "X" <> [] /\ strip (py "X") = py "X" /\
  contains (py "X") fence_close = false /\
  contains extraction_example (py "X") = true.
Proof.
  apply (extract_code_blocks_blocks extraction_example (py "X")).
  apply (bool_decide_unpack _). vm_compute. exact I.
Defined.

(** ** Code the repair pass leaves alone *)

Lemma replacement_loop_none (R : list (pystr * pystr)) (code : pystr)
    (corr : list pystr) :
  Forall (fun e => contains code (fst e) = false) R ->
  fold_left replacement_step R (code, corr) = (code, corr).
Proof.
  induction 1 as [|[w r] R Hw HR IH]; [done|].
  cbn [fold_left]. unfold replacement_step at 2. cbn [fst snd] in *.
  by rewrite Hw.
Qed.

Lemma column_loop_unchanged (cols ms : list pystr) (c : pystr)
    (corr : list pystr) :
  Forall (fun m => m ∈ cols \/ Difflib.get_close_matches m cols = []) ms ->
  fold_left (column_step cols) ms (Returns (c, corr))
  = Returns (c, corr ++ warnings cols ms).
Proof.
  unfold warnings. revert corr.
  induction ms as [|m ms IH]; intros corr Hms.
  { cbn. by rewrite app_nil_r. }
  apply Forall_cons in Hms as [Hm Hms]. cbn [fold_left].
  rewrite filter_cons. destruct (decide (m ∈ cols)) as [Hin|Hout].
  - rewrite column_step_real by done. rewrite decide_False by tauto.
    by apply IH.
  - destruct Hm as [Hm|Hm]; [done|].
    rewrite column_step_unmatched by done. rewrite decide_True by done.
    rewrite IH by done. cbn [map]. by rewrite <- app_assoc.
Qed.

Section KeepsCode.

Context {cell : Type}.
Variable autopep8_fix_code : pystr -> pystr + pystr.
Implicit Types (h : gmap loc (DataFrame cell)) (self : VisualizationUtils).

(** X7. Code that holds none of the six mistakes the replacements
    correct, and in which every reference found is a column of the
    table or has no close match, reaches the formatter unchanged; the
    corrections before formatting are the entry for [df.plot()], if the
    code holds it, and one warning for each reference that names no
    column. *)
Theorem auto_fix_plot_code_keeps_code self h code :
  let cols := columns (h !!! df self) in
  Forall (fun e => contains code (fst e) = false) replacements_before_plot ->
  Forall (fun m => m ∈ cols \/ Difflib.get_close_matches m cols = [])
         (findall_column_refs code) ->
  before_format self h code
  = Returns (code, plot_entry code ++ warnings cols (findall_column_refs code))
  /\
  auto_fix_plot_code autopep8_fix_code self h code
  = Returns (format_step autopep8_fix_code
               (code,
                plot_entry code ++ warnings cols (findall_column_refs code))).
Proof.
  intros cols Hrep Hrefs.
  assert (fold_left replacement_step replacements (code, [])
          = (code, plot_entry code)) as Hloop.
  { rewrite replacements_split, fold_left_app.
    rewrite replacement_loop_none by done.
    cbn [fold_left]. unfold replacement_step, plot_entry. cbn [fst snd].
    destruct (contains code df_plot); [|done].
    by rewrite replace_same. }
  assert (before_format self h code
          = Returns (code,
                     plot_entry code
                       ++ warnings cols (findall_column_refs code))) as Hb.
  { unfold before_format. rewrite Hloop. cbn [fst].
    by apply column_loop_unchanged. }
  split; [done|]. by rewrite auto_fix_plot_code_eq, Hb.
Qed.

End KeepsCode.

(** On code with a real column, a name with no close match and
    [df.plot()]. *)
Lemma auto_fix_plot_code_keeps_code_witness :
  let code := py "ax.scatter(df['Player'], df['zzz']); df.plot()" in
  before_format (init (store_of player_table) 1) (store_of player_table) code
  = Returns (code,
             plot_entry code
               ++ warnings (columns player_table) (findall_column_refs code))
  /\
  repair player_table code
  = Returns (format_step no_format
               (code,
                plot_entry code
                  ++ warnings (columns player_table)
                       (findall_column_refs code))).
Proof.
  apply (auto_fix_plot_code_keeps_code no_format
           (init (store_of player_table) 1) (store_of player_table)
           (py "ax.scatter(df['Player'], df['zzz']); df.plot()")).
  - apply (bool_decide_unpack _). vm_compute. exact I.
  - apply (bool_decide_unpack _). vm_compute. exact I.
Defined.

(** ** The entries of the column pass *)

Lemma column_step_entry (cols : list pystr) (c : pystr) (corr : list pystr)
    (m c' : pystr) (corr' : list pystr) :
  column_step cols (Returns (c, corr)) m = Returns (c', corr') ->
  exists entries, corr' = corr ++ entries /\
                  Forall (column_entry cols [m]) entries.
Proof.
  unfold column_step. cbn [bind].
  destruct (existsb (pystr_eqb m) cols) eqn:Hm; cbn [negb].
  { intros [= <- <-]. exists []. by rewrite app_nil_r. }
  assert (m ∉ cols) as Hout.
  { intros Hin. assert (existsb (pystr_eqb m) cols = true) as H; [|congruence].
    apply existsb_exists. exists m.
    split; [by apply list_elem_of_In | apply pystr_eqb_refl]. }
  destruct (Difflib.get_close_matches m cols) as [|close rest] eqn:E.
  - intros [= <- <-]. eexists. split; [done|]. apply Forall_singleton.
    exists m. split; [left|]. split; [done|]. by left.
  - destruct (re_sub_column_ref m _ c) as [c2|e]; cbn [bind]; [|done].
    intros [= <- <-]. eexists. split; [done|]. apply Forall_singleton.
    exists m. split; [left|]. split; [done|]. right. exists close.
    split; [|done]. apply (get_close_matches_elem m). rewrite E. left.
Qed.

Lemma column_entry_mono (cols refs refs' : list pystr) (e : pystr) :
  (forall m, m ∈ refs -> m ∈ refs') ->
  column_entry cols refs e -> column_entry cols refs' e.
Proof.
  intros Hsub (col & Hin & H). exists col. split; [by apply Hsub | done].
Qed.

Lemma column_loop_entries (cols ms : list pystr) (c : pystr)
    (corr : list pystr) (c' : pystr) (corr' : list pystr) :
  fold_left (column_step cols) ms (Returns (c, corr)) = Returns (c', corr') ->
  exists entries, corr' = corr ++ entries /\
                  Forall (column_entry cols ms) entries.
Proof.
  revert c corr. induction ms as [|m ms IH]; intros c corr.
  { intros [= <- <-]. exists []. by rewrite app_nil_r. }
  cbn [fold_left].
  destruct (column_step cols (Returns (c, corr)) m) as [[c1 corr1]|e] eqn:E.
  - apply column_step_entry in E as (e1 & -> & H1).
    intros H. apply IH in H as (e2 & -> & H2).
    exists (e1 ++ e2). split; [by rewrite <- app_assoc|].
    apply Forall_app. split.
    + eapply Forall_impl; [exact H1|]. intros e. apply column_entry_mono.
      intros x Hx. apply list_elem_of_singleton in Hx as ->. left.
    + eapply Forall_impl; [exact H2|]. intros e. apply column_entry_mono.
      intros x Hx. by right.
  - by rewrite column_loop_raises.
Qed.

Section RepairEntries.

Context {cell : Type}.
Implicit Types (h : gmap loc (DataFrame cell)) (self : VisualizationUtils).

(** X8. The column pass never writes a name that is no column: every
    entry it logs is a warning for a reference that names no column and
    has no close match, or the fix of such a reference to a column of
    the table. *)
Theorem auto_fix_plot_code_column_entries self h code (pre : pystr)
    (before : list pystr) :
  before_format self h code = Returns (pre, before) ->
  exists entries,
    before = snd (after_replacements code) ++ entries /\
    Forall (column_entry (columns (h !!! df self))
                         (findall_column_refs (fst (after_replacements code))))
           entries.
Proof.
  unfold before_format. fold (after_replacements code).
  destruct (after_replacements code) as [c1 corr1]. cbn [fst snd].
  apply column_loop_entries.
Qed.

End RepairEntries.

(** On the fix of Players to Player. *)
Lemma auto_fix_plot_code_column_entries_witness :
  exists entries,
    [players_fix]
    = snd (after_replacements (py "x = df['Players']")) ++ entries /\
    Forall (column_entry
              (columns (store_of player_table !!! df (init (store_of player_table) 1)))
              (findall_column_refs
                 (fst (after_replacements (py "x = df['Players']")))))
           entries.
Proof.
  apply (auto_fix_plot_code_column_entries
           (init (store_of player_table) 1) (store_of player_table)
           (py "x = df['Players']") (py "x = df['Player']") [players_fix]).
  vm_compute. reflexivity.
Defined.

(** ** The text processing of [generate_report] *)

Import App.

Section GenerateReport.

Implicit Types (s t full : pystr).

Lemma first_at_split sub s k :
  first_at sub s k -> s = take k s ++ sub ++ drop (k + length sub) s.
Proof.
  intros [Hk _]. apply startswith_inv in Hk.
  rewrite <- (take_drop k s) at 1. f_equal. rewrite Hk at 1.
  by rewrite drop_drop.
Qed.

Lemma first_at_take sub s k :
  sub <> [] -> first_at sub s k -> contains (take k s) sub = false.
Proof.
  intros Hne [_ Hbefore]. destruct (contains (take k s) sub) eqn:E; [|done].
  apply contains_drop in E as [j Hj].
  assert (j < k)%nat as Hjk.
  { destruct (decide (j < k)%nat); [done|].
    rewrite drop_ge in Hj;
      [by destruct sub
      |rewrite length_take; etrans; [apply Nat.le_min_l | lia]]. }
  apply startswith_iff in Hj as [r Hr].
  assert (startswith sub (drop j s) = true) as Hs; [|by rewrite Hbefore in Hs].
  apply startswith_iff. exists (r ++ drop k s).
  rewrite <- (take_drop k s) at 1.
  rewrite drop_app_le; [by rewrite Hr, <- app_assoc|].
  apply (f_equal length) in Hr. rewrite length_drop, length_app in Hr.
  destruct sub; [done | simpl in Hr; lia].
Qed.

Lemma find_first_at s sub k : first_at sub s k -> find s sub = Z.of_nat k.
Proof.
  intros Hk. destruct (find_spec s sub) as [[_ Hc]|(k' & Hf & Hk')].
  - destruct Hk as [Hk _]. apply (contains_false_drop _ _ k) in Hc.
    apply contains_false_here in Hc. congruence.
  - by rewrite Hf, (first_at_unique _ _ _ _ Hk Hk').
Qed.

Lemma contains_first_at s sub :
  contains s sub = true -> exists k, first_at sub s k.
Proof.
  intros Hc. destruct (find_spec s sub) as [[_ Hn]|(k & _ & Hk)];
    [congruence | by exists k].
Qed.

(** X9. The response is cut at the first marker: the written report is
    the text before it and holds no marker; a response without marker
    is all written report. *)
Theorem report_text_viz_section_spec full :
  let '(report_text, viz_section) := report_text_viz_section full in
  (contains full marker = true ->
   full = report_text ++ marker ++ viz_section /\
   contains report_text marker = false) /\
  (contains full marker = false ->
   report_text = full /\ viz_section = []).
Proof.
  unfold report_text_viz_section.
  destruct (contains full marker) eqn:E; [|done].
  unfold split_once. split; [intros _|done].
  apply contains_first_at in E as [k Hk].
  rewrite (find_first_at _ _ _ Hk), Nat2Z.id.
  split; [by apply first_at_split | by apply first_at_take].
Qed.

Lemma extract_code_blocks_at text k :
  first_at marker text k ->
  extract_code_blocks text
  = map strip (filter (fun block => nonempty (strip block))
                      (findall_fences (drop k text))).
Proof.
  intros Hk. unfold extract_code_blocks.
  rewrite (slice_from_first _ _ _ Hk), (find_first_at _ _ _ Hk).
  destruct (Z.of_nat k =? -1)%Z eqn:Ek; [apply Z.eqb_eq in Ek; lia | done].
Qed.

(** X10. What [generate_report] shows: with a marker in the response, the
    blocks [extract_code_blocks] finds in the response itself; without
    one, nothing, whatever blocks the response holds. *)
Theorem code_blocks_spec full :
  (contains full marker = true ->
   code_blocks full = extract_code_blocks full) /\
  (contains full marker = false -> code_blocks full = []).
Proof.
  unfold code_blocks, report_text_viz_section. split; intros E; rewrite E.
  - apply contains_first_at in E as [k Hk].
    unfold split_once. rewrite (find_first_at _ _ _ Hk), Nat2Z.id.
    cbn [snd].
    assert (first_at marker (marker ++ drop (k + length marker) full) 0)
      as H0.
    { split; [apply startswith_app | intros j Hj; lia]. }
    assert (drop k full = marker ++ drop (k + length marker) full) as Hd.
    { destruct Hk as [Hk _]. apply startswith_inv in Hk.
      rewrite Hk at 1. by rewrite drop_drop. }
    rewrite (extract_code_blocks_at _ _ H0), (extract_code_blocks_at _ _ Hk).
    by rewrite drop_0, Hd.
  - cbn [snd]. vm_compute. reflexivity.
Qed.

Lemma re_sub_fence_skip k open s :
  re_sub_fence_from k open s = re_sub_fence_from 0 open (drop k s).
Proof.
  revert k. induction s as [|c t IH]; intros k; [by destruct k|].
  destruct k as [|k]; [done|]. cbn [re_sub_fence_from drop]. apply IH.
Qed.

Lemma re_sub_fence_match open c t body :
  fence_match open (c :: t) = Some body ->
  re_sub_fence open (c :: t)
  = re_sub_fence open
      (drop (length open + length body + length fence_close) (c :: t)).
Proof.
  unfold fence_match, re_sub_fence. intros Hm.
  cbn [re_sub_fence_from]. rewrite Hm. rewrite re_sub_fence_skip.
  set (n := (length open + length body + length fence_close)%nat).
  assert (1 <= n)%nat as Hn by (unfold n; simpl; lia).
  destruct n as [|m]; [lia|]. cbn [drop].
  by replace (S m - 1)%nat with m by lia.
Qed.

Lemma re_sub_fence_nomatch open c t :
  fence_match open (c :: t) = None ->
  re_sub_fence open (c :: t) = c :: re_sub_fence open t.
Proof.
  unfold fence_match, re_sub_fence. intros Hm.
  cbn [re_sub_fence_from]. by rewrite Hm.
Qed.

Lemma fence_pair_cons c t : fence_pair t -> fence_pair (c :: t).
Proof. intros (i & j & Hij & Hi & Hj). exists (S i), (S j). by repeat split; [lia|..]. Qed.

Lemma fence_pair_drop k t : fence_pair (drop k t) -> fence_pair t.
Proof.
  intros (i & j & Hij & Hi & Hj). rewrite drop_drop in Hi, Hj.
  exists (k + i)%nat, (k + j)%nat. by repeat split; [lia|..].
Qed.

Lemma fence_match_pair c t body :
  fence_match fence_close (c :: t) = Some body -> fence_pair (c :: t).
Proof.
  unfold fence_match. destruct (startswith fence_close (c :: t)) eqn:Hs; [|done].
  intros Hl. apply lazy_until_Some in Hl as [[Hb _] _].
  rewrite drop_drop in Hb.
  exists 0%nat, (length fence_close + length body)%nat.
  split; [lia|]. by split.
Qed.

(** A text without a pair of fences is left as it is. *)
Lemma re_sub_fence_no_pair s :
  ~ fence_pair s -> re_sub_fence fence_close s = s.
Proof.
  induction s as [|c t IH]; intros Hn; [done|].
  destruct (fence_match fence_close (c :: t)) as [body|] eqn:Hm.
  - destruct Hn. by apply (fence_match_pair c t body).
  - rewrite re_sub_fence_nomatch by done. f_equal. apply IH.
    intros Hp. apply Hn. by apply fence_pair_cons.
Qed.

Lemma re_sub_fence_first s k body :
  first_at fence_close s k ->
  lazy_until fence_close (drop (k + length fence_close) s) = Some body ->
  re_sub_fence fence_close s
  = take k s
      ++ re_sub_fence fence_close
           (drop (k + length fence_close + length body + length fence_close)
                 s).
Proof.
  revert s. induction k as [|k IH]; intros s [Hk Hbefore] Hl.
  - destruct s as [|c t]; [done|]. rewrite drop_0 in Hk.
    rewrite (re_sub_fence_match _ c t body); [done|].
    unfold fence_match. by rewrite Hk.
  - destruct s as [|c t]; [done|].
    pose proof (Hbefore 0%nat ltac:(lia)) as H0. rewrite drop_0 in H0.
    rewrite re_sub_fence_nomatch by (unfold fence_match; by rewrite H0).
    cbn [take drop Nat.add app]. f_equal. apply IH; [|done].
    split; [done|]. intros j Hj. apply (Hbefore (S j)). lia.
Qed.

Lemma first_at_no_pair s k :
  first_at fence_close s k ->
  lazy_until fence_close (drop (k + length fence_close) s) = None ->
  ~ fence_pair s.
Proof.
  intros [Hk Hbefore] Hl (i & j & Hij & Hi & Hj).
  apply lazy_until_None in Hl.
  assert (k <= i)%nat as Hki.
  { destruct (decide (k <= i)%nat); [done|].
    rewrite Hbefore in Hi by lia. done. }
  apply (contains_false_drop _ _ (j - (k + length fence_close))) in Hl.
  apply contains_false_here in Hl. rewrite drop_drop in Hl.
  replace (k + length fence_close + (j - (k + length fence_close)))%nat
    with j in Hl by lia.
  congruence.
Qed.

Lemma contains_false_no_pair s : contains s fence_close = false -> ~ fence_pair s.
Proof.
  intros Hc (i & j & _ & Hi & _).
  apply (contains_false_drop _ _ i) in Hc. apply contains_false_here in Hc.
  congruence.
Qed.

(** A fence that starts in a text [a] and ends in what follows it also
    stands when a fence follows [a]. *)
Lemma fence_across (a b r : pystr) :
  a <> [] -> startswith fence_close (a ++ b) = true ->
  startswith fence_close (a ++ fence_close ++ r) = true.
Proof.
  intros Ha H. destruct a as [|c1 [|c2 [|c3 a]]]; [done|..];
    cbn in H |- *;
    repeat match goal with
           | H : _ && _ = true |- _ => apply andb_prop in H as [? H]
           end;
    repeat match goal with
           | H : (_ =? _) = true |- _ => rewrite H; clear H
           end; done.
Qed.

Lemma no_pair_after_first s k b :
  first_at fence_close s k -> ~ fence_pair b -> ~ fence_pair (take k s ++ b).
Proof.
  intros Hk Hb (i & j & Hij & Hi & Hj). apply Hb. clear Hb.
  pose proof (first_at_split _ _ _ Hk) as Hs. destruct Hk as [Hk Hbefore].
  assert (k <= length s)%nat as Hks.
  { destruct (decide (k <= length s)%nat); [done|].
    rewrite drop_ge in Hk by lia. done. }
  assert (length (take k s) = k) as Hlen by by apply length_take_le.
  assert (k <= i)%nat as Hki.
  { destruct (decide (k <= i)%nat); [done|]. exfalso.
    rewrite drop_app_le in Hi by lia.
    apply (fence_across _ _ (drop (k + length fence_close) s)) in Hi.
    - rewrite <- drop_app_le, <- Hs in Hi by lia.
      rewrite Hbefore in Hi by lia. done.
    - intros E. apply (f_equal length) in E. rewrite length_drop in E.
      simpl in E. lia. }
  exists (i - k)%nat, (j - k)%nat. split; [lia|].
  rewrite !drop_app_ge in Hi, Hj by lia. rewrite Hlen in Hi, Hj. done.
Qed.

(** After [re.sub] with the pattern of the untagged fence no pair of
    fences is left. *)
Lemma re_sub_fence_clean s : ~ fence_pair (re_sub_fence fence_close s).
Proof.
  remember (length s) as n eqn:Hn. revert s Hn.
  induction (lt_wf n) as [n _ IH]. intros s ->.
  destruct (contains s fence_close) eqn:Hc.
  - apply contains_first_at in Hc as [k Hk].
    destruct (lazy_until fence_close (drop (k + length fence_close) s))
      as [body|] eqn:Hl.
    + rewrite (re_sub_fence_first s k body) by done.
      apply no_pair_after_first; [done|].
      apply (IH (length (drop (k + length fence_close + length body
                                 + length fence_close) s))); [|done].
      rewrite length_drop. destruct Hk as [Hk _].
      destruct s; [by rewrite drop_nil in Hk | simpl; lia].
    + pose proof (first_at_no_pair s k Hk Hl) as Hnp.
      by rewrite re_sub_fence_no_pair.
  - pose proof (contains_false_no_pair s Hc) as Hnp.
    by rewrite re_sub_fence_no_pair.
Qed.

Lemma no_pair_findall s : ~ fence_pair s -> findall_fences s = [].
Proof.
  intros Hn. apply (fenced_blocks_unique s); [apply findall_fences_blocks|].
  constructor. intros k Hk.
  destruct (contains (drop (k + length fence_open) s) fence_close) eqn:Hc;
    [|done].
  destruct Hn. apply contains_drop in Hc as [j Hj]. rewrite drop_drop in Hj.
  exists k, (k + length fence_open + j)%nat. split; [simpl; lia|].
  split; [|done]. apply startswith_iff in Hk as [r Hr].
  apply startswith_iff. exists (py "python" ++ r). by rewrite Hr.
Qed.

(** X11. The written report that [generate_report] shows and offers for
    download holds no fenced block, tagged or not: no two fences that do
    not overlap are left in it, and [extract_code_blocks] finds nothing
    in it. *)
Theorem report_text_clean_no_block full :
  ~ fence_pair (report_text_clean full) /\
  findall_fences (report_text_clean full) = [] /\
  extract_code_blocks (report_text_clean full) = [].
Proof.
  assert (~ fence_pair (report_text_clean full)) as Hn
    by apply re_sub_fence_clean.
  split; [done|]. split; [by apply no_pair_findall|].
  unfold extract_code_blocks.
  assert (forall k, findall_fences (drop k (report_text_clean full)) = [])
    as Hd.
  { intros k. apply no_pair_findall. intros Hp. apply Hn.
    by apply (fence_pair_drop k). }
  destruct (_ =? _)%Z.
  - by rewrite (no_pair_findall _ Hn).
  - unfold slice_from. by rewrite Hd.
Qed.

End GenerateReport.

(** ** [detect_file_type] *)

Section DetectFileTypeFacts.

Context {cell : Type}.
Variable unicode_lower : pystr -> pystr.
Implicit Types (T : DataFrame cell).

#[local] Abbreviation detect_file_type :=
  (@App.detect_file_type cell unicode_lower).
#[local] Abbreviation lower' := (lower unicode_lower).

Lemma lower_no_capital (s : pystr) (c : N) :
  lowers unicode_lower -> c ∈ lower' s -> is_ascii_upper c = false.
Proof.
  intros Hl. unfold lower. destruct (forallb is_ascii s); [|apply Hl].
  intros Hc. apply list_elem_of_In, in_map_iff in Hc as (x & <- & _).
  unfold ascii_tolower, is_ascii_upper.
  destruct ((65 <=? x) && (x <=? 90)) eqn:E; [|done].
  apply andb_prop in E as [E1 E2]. apply N.leb_le in E1, E2.
  apply andb_false_iff. right. apply N.leb_gt. lia.
Qed.

Lemma nonempty_inter (X : gset pystr) (l : list pystr) :
  X ∩ list_to_set l ≠ ∅ <-> exists c, c ∈ l /\ c ∈ X.
Proof.
  split.
  - intros H. apply set_choose_L in H as [c Hc].
    apply elem_of_intersection in Hc as [HX Hl].
    apply elem_of_list_to_set in Hl. by exists c.
  - intros (c & Hl & HX) E.
    assert (c ∈ X ∩ list_to_set l) as Hc
      by (apply elem_of_intersection; split;
          [done | by apply elem_of_list_to_set]).
    rewrite E in Hc. by apply elem_of_empty in Hc.
Qed.

Lemma scout_cols_elem (c : pystr) : c ∈ App.scout_cols <-> c ∈ scout_columns.
Proof.
  unfold App.scout_cols, scout_columns. cbn [map].
  rewrite !elem_of_union, !elem_of_singleton, !elem_of_cons, elem_of_nil.
  tauto.
Qed.

Lemma event_cols_elem (s : pystr) :
  lowers unicode_lower ->
  lower' s ∈ App.event_cols <-> lower' s ∈ coordinate_columns.
Proof.
  intros Hl. unfold App.event_cols, coordinate_columns.
  rewrite !elem_of_union, !elem_of_singleton, !elem_of_cons, elem_of_nil.
  assert (lower' s <> py "Event Type") as Hne.
  { intros E.
    assert (is_ascii_upper 69 = false) as H; [|done].
    apply (lower_no_capital s); [done|]. rewrite E. left. }
  tauto.
Qed.

(** X12. [detect_file_type] answers [scout_report] exactly when the table
    has a column Strengths, Weaknesses or Summary; otherwise
    [event_data] exactly when the name of some column, stripped and
    lower-cased, is [x], [y], [end_x] or [end_y]; otherwise [unknown].
    The entry Event Type of [event_cols] never decides: a lower-cased
    name holds no capital letter. *)
Theorem detect_file_type_spec T :
  lowers unicode_lower ->
  let scout := exists c, c ∈ columns T /\ c ∈ scout_columns in
  let event := exists c, c ∈ columns T /\
                         lower' (strip c) ∈ coordinate_columns in
  (detect_file_type T = py "scout_report" <-> scout) /\
  (detect_file_type T = py "event_data" <-> ~ scout /\ event) /\
  (detect_file_type T = py "unknown" <-> ~ scout /\ ~ event).
Proof.
  intros Hl scout event. unfold App.detect_file_type.
  assert (App.scout_cols ∩ list_to_set (columns T) ≠ ∅ <-> scout) as Hs.
  { rewrite nonempty_inter. unfold scout.
    split; intros (c & Hc & H); exists c; by apply scout_cols_elem in H. }
  assert (App.event_cols
            ∩ list_to_set (map (fun c => lower' (strip c)) (columns T)) ≠ ∅
          <-> event) as He.
  { rewrite nonempty_inter. unfold event. split.
    - intros (n & Hn & H). apply list_elem_of_In, in_map_iff in Hn
        as (c & <- & Hc).
      exists c. split; [by apply list_elem_of_In|].
      by apply event_cols_elem in H.
    - intros (c & Hc & H). exists (lower' (strip c)).
      split; [|by apply event_cols_elem].
      apply list_elem_of_In, in_map_iff. exists c.
      split; [done | by apply list_elem_of_In]. }
  destruct (decide (App.scout_cols ∩ list_to_set (columns T) ≠ ∅))
    as [H1|H1].
  - rewrite bool_decide_true by done. apply Hs in H1.
    repeat split; try done; try tauto; intros; try discriminate; tauto.
  - rewrite bool_decide_false by done. rewrite Hs in H1.
    destruct (decide (App.event_cols
                        ∩ list_to_set (map (fun c => lower' (strip c))
                                           (columns T)) ≠ ∅)) as [H2|H2].
    + rewrite bool_decide_true by done. apply He in H2.
      repeat split; try done; try tauto; intros; try discriminate; tauto.
    + rewrite bool_decide_false by done. rewrite He in H2.
      repeat split; try done; try tauto; intros; try discriminate; tauto.
Qed.

End DetectFileTypeFacts.

(** ** The uploaded file *)

Section UploadedFileFacts.

Context {cell : Type}.
Variable unicode_lower : pystr -> pystr.
Variable read_csv : UploadedFile -> DataFrame cell + thrown.

#[local] Abbreviation validate :=
  (DataValidator.validate_uploaded_file unicode_lower read_csv).

Lemma file_size_ok (n : nat) :
  Qle_bool (inject_Z (Z.of_nat n) / inject_Z (1024 * 1024))
           (inject_Z Settings.MAX_FILE_SIZE_MB) = true
  <-> (Z.of_nat n <= 50 * 1024 * 1024)%Z.
Proof.
  rewrite Qle_bool_iff. unfold Settings.MAX_FILE_SIZE_MB.
  change (inject_Z (1024 * 1024)) with (inject_Z 1048576).
  unfold Qle, Qdiv, Qmult, Qinv, inject_Z. cbn [Qnum Qden]. lia.
Qed.

Lemma is_csv (ext : pystr) :
  negb (existsb (pystr_eqb ext) [py ".csv"]) = false <-> ext = py ".csv".
Proof.
  cbn [existsb]. rewrite orb_false_r, negb_false_iff. apply pystr_eqb_eq.
Qed.

Lemma not_empty (df : DataFrame cell) :
  (length (columns df) <? 2)%nat = false ->
  (empty df = false <-> (1 <= nrows df)%nat).
Proof.
  intros Hc. apply Nat.ltb_ge in Hc. unfold empty.
  rewrite orb_false_iff, !Nat.eqb_neq. lia.
Qed.

(** X13. [validate_uploaded_file] accepts a file exactly when it holds at
    most 50 * 2^20 bytes, its name ends in [.csv] in any letter case,
    and the parser returns a table with at least one row and two
    columns; the table handed back is the parsed one.  An exception
    leaves the function only when the parser raises one that does not
    derive from [Exception]. *)
Theorem validate_uploaded_file_accepts
    (uploaded_file : option UploadedFile) :
  (forall msg d,
      validate uploaded_file = Returns (true, msg, d) <->
      exists f df,
        uploaded_file = Some f /\
        (Z.of_nat (length (getvalue f)) <= 50 * 1024 * 1024)%Z /\
        lower unicode_lower (suffix (file_name f)) = py ".csv" /\
        read_csv f = inl df /\
        (1 <= nrows df)%nat /\ (2 <= length (columns df))%nat /\
        msg = py "File validated successfully" /\ d = Some df) /\
  (forall e,
      validate uploaded_file = Raises e <->
      exists f t,
        uploaded_file = Some f /\
        (Z.of_nat (length (getvalue f)) <= 50 * 1024 * 1024)%Z /\
        lower unicode_lower (suffix (file_name f)) = py ".csv" /\
        read_csv f = inr t /\ derives_from_Exception t = false /\
        e = Thrown t).
Proof.
  unfold DataValidator.validate_uploaded_file.
  destruct uploaded_file as [f|].
  2:{ split; intros; (split; [done|]); by intros (? & ? & ? & _). }
  destruct (Qle_bool _ _) eqn:Hsize; cbn [negb].
  2:{ split; intros; (split; [done|]);
        intros (f' & ? & [= <-] & Hs & _);
        apply file_size_ok in Hs; congruence. }
  apply file_size_ok in Hsize.
  destruct (negb (existsb _ _)) eqn:Hext.
  { split; intros; (split; [done|]);
      intros (f' & ? & [= <-] & _ & He & _);
      apply is_csv in He; congruence. }
  apply is_csv in Hext.
  destruct (read_csv f) as [df|t] eqn:Hread.
  - split; [|intros e; split;
               [|intros (f' & ? & [= <-] & _ & _ & ? & _); congruence]].
    + intros msg d.
      destruct (length (columns df) <? 2)%nat eqn:Hcols.
      * destruct (empty df); (split; [done|]);
          intros (f' & df' & [= <-] & _ & _ & Hr & _ & Hc & _);
          assert (df' = df) as -> by congruence;
          apply Nat.ltb_lt in Hcols; lia.
      * pose proof (not_empty df Hcols) as Hne.
        apply Nat.ltb_ge in Hcols.
        destruct (empty df).
        -- split; [done|].
           intros (f' & df' & [= <-] & _ & _ & Hr & Hrows & _).
           assert (df' = df) as -> by congruence.
           apply Hne in Hrows. done.
        -- split.
           ++ intros [= <- <-]. exists f, df. repeat split; try done.
              by apply Hne.
           ++ intros (f' & df' & [= <-] & _ & _ & Hr & _ & _ & -> & ->).
              by assert (df' = df) as -> by congruence.
    + destruct (empty df); [done|]. by destruct (_ <? _)%nat.
  - split.
    + intros msg d. split; [by destruct (derives_from_Exception t)|].
      intros (f' & df' & [= <-] & _ & _ & ? & _). congruence.
    + intros e. destruct (derives_from_Exception t) eqn:Ht.
      * split; [done|].
        intros (f' & t' & [= <-] & _ & _ & Hr & Hd & _).
        assert (t' = t) as -> by congruence. congruence.
      * split.
        -- intros [= <-]. by exists f, t.
        -- intros (f' & t' & [= <-] & _ & _ & Hr & _ & ->).
           by assert (t' = t) as -> by congruence.
Qed.

End UploadedFileFacts.

(** ** The validators and the normalizer *)

Lemma dict_get_elem {V} (d : list (pystr * V)) (k : pystr) (v : V) :
  dict_get d k = Some v -> (k, v) ∈ d.
Proof.
  induction d as [|[k' v'] d IH]; [done|]. cbn [dict_get].
  destruct (pystr_eqb k k') eqn:E.
  - apply pystr_eqb_eq in E as ->. intros [= ->]. left.
  - intros H. right. by apply IH.
Qed.

Lemma filter_false_nil {X} (f : X -> bool) (l : list X) :
  filter (fun x => f x = false) l = [] <-> forallb f l = true.
Proof.
  induction l as [|x l IH]; [done|]. rewrite filter_cons. cbn [forallb].
  destruct (f x) eqn:E.
  - rewrite decide_False by done. by rewrite IH.
  - rewrite decide_True by done. done.
Qed.

Lemma forallb_Permutation {X} (f : X -> bool) (l l' : list X) :
  l ≡ₚ l' -> forallb f l = forallb f l'.
Proof.
  induction 1 as [|x l l' _ IH|x y l|l l' l'' _ IH1 _ IH2]; cbn [forallb].
  - done.
  - by rewrite IH.
  - by rewrite !andb_assoc, (andb_comm (f y)).
  - by rewrite IH1.
Qed.

Lemma coordinate_columns_elements :
  elements Settings.REQUIRED_VISUALIZATION_COLUMNS ≡ₚ coordinate_columns.
Proof.
  apply NoDup_Permutation.
  - apply NoDup_elements.
  - apply (bool_decide_unpack _). vm_compute. exact I.
  - intros c. rewrite elem_of_elements.
    unfold Settings.REQUIRED_VISUALIZATION_COLUMNS, coordinate_columns.
    rewrite !elem_of_union, !elem_of_singleton, !elem_of_cons.
    rewrite elem_of_nil. tauto.
Qed.

Section ReportColumns.

Context {cell : Type}.
Variable isnull : cell -> bool.
Variable format_1f : Q -> pystr.
Variable nunique : column cell -> nat.
Variable iter : gset pystr -> list pystr.
Implicit Types (df T : DataFrame cell) (col : pystr).
Implicit Types (h : gmap loc (DataFrame cell)) (self : VisualizationUtils).

Import DataValidator.

#[local] Abbreviation validate_dataframe_for_report :=
  (DataValidator.validate_dataframe_for_report isnull format_1f nunique).
#[local] Abbreviation validate_visualization_columns :=
  (@DataValidator.validate_visualization_columns cell iter).

Lemma found_iff df col :
  found df col = true <-> exists c, c ∈ columns df /\ normalized_col c = col.
Proof.
  unfold found. rewrite existsb_exists. split.
  - intros (c & Hc & E). exists c. split; [by apply list_elem_of_In|].
    by apply pystr_eqb_eq.
  - intros (c & Hc & <-). exists c. split; [by apply list_elem_of_In|].
    apply pystr_eqb_refl.
Qed.

Lemma normalized_col_cases (c col : pystr) :
  normalized_col c = col -> c = col \/ (c, col) ∈ Settings.COLUMN_ALIASES.
Proof.
  unfold normalized_col.
  destruct (dict_get Settings.COLUMN_ALIASES c) as [v|] eqn:E; cbn.
  - intros <-. right. by apply dict_get_elem.
  - by left.
Qed.

Lemma forallb_found df (cols : list pystr) :
  forallb (found df) cols = true <->
  forall col, col ∈ cols -> exists c, c ∈ columns df /\ normalized_col c = col.
Proof.
  rewrite forallb_forall. split.
  - intros H col Hcol. apply found_iff, H. by apply list_elem_of_In.
  - intros H col Hcol. apply found_iff, H. by apply list_elem_of_In.
Qed.

(** The verdicts of the two validators, as truth values. *)
Lemma validate_dataframe_for_report_fst df (report_type : pystr) :
  fst (validate_dataframe_for_report df report_type)
  = match dict_get Settings.REPORT_TYPES report_type with
    | Some cfg => forallb (found df) (Settings.required_columns cfg)
    | None => false
    end.
Proof.
  unfold DataValidator.validate_dataframe_for_report.
  destruct (dict_get Settings.REPORT_TYPES report_type) as [cfg|]; [|done].
  destruct (filter _ (Settings.required_columns cfg)) as [|m ms] eqn:E.
  - apply filter_false_nil in E. by rewrite E.
  - cbn [fst]. symmetry. apply not_true_is_false. intros H.
    apply filter_false_nil in H. congruence.
Qed.

Lemma validate_visualization_columns_fst df :
  fst (validate_visualization_columns df)
  = forallb (found df) (iter Settings.REQUIRED_VISUALIZATION_COLUMNS).
Proof.
  unfold DataValidator.validate_visualization_columns. cbn [fst].
  destruct (filter _ (iter _)) as [|m ms] eqn:E.
  - apply filter_false_nil in E. by rewrite E.
  - symmetry. apply not_true_is_false. intros H.
    apply filter_false_nil in H. congruence.
Qed.

(** X14. [validate_dataframe_for_report] accepts exactly when the report
    type is configured and each of its required columns is a column of
    the table or the canonical name of one by the alias dict of the
    configuration; when it rejects, the list it returns holds one
    message. *)
Theorem validate_dataframe_for_report_verdict df (report_type : pystr) :
  (fst (validate_dataframe_for_report df report_type) = true <->
   exists cfg,
     dict_get Settings.REPORT_TYPES report_type = Some cfg /\
     forall col, col ∈ Settings.required_columns cfg ->
                 exists c, c ∈ columns df /\ normalized_col c = col) /\
  (fst (validate_dataframe_for_report df report_type) = false ->
   length (snd (validate_dataframe_for_report df report_type)) = 1%nat).
Proof.
  split.
  - rewrite validate_dataframe_for_report_fst.
    destruct (dict_get Settings.REPORT_TYPES report_type) as [cfg|].
    + rewrite forallb_found. split; [by exists cfg|].
      by intros (cfg' & [= <-] & H).
    + split; [done | by intros (? & ? & _)].
  - unfold DataValidator.validate_dataframe_for_report.
    destruct (dict_get Settings.REPORT_TYPES report_type) as [cfg|]; [|done].
    by destruct (filter _ (Settings.required_columns cfg)).
Qed.

(** X15. The verdict of [validate_visualization_columns] does not depend
    on the order in which Python goes through the set of required
    columns: it is [True] exactly when each of [x], [y], [end_x] and
    [end_y] is a column or the canonical name of one; the list returned
    holds the other required names, each once, and is empty exactly when
    the verdict is [True]. *)
Theorem validate_visualization_columns_verdict df :
  iter Settings.REQUIRED_VISUALIZATION_COLUMNS
    ≡ₚ elements Settings.REQUIRED_VISUALIZATION_COLUMNS ->
  (fst (validate_visualization_columns df) = true <->
   forall col, col ∈ coordinate_columns ->
               exists c, c ∈ columns df /\ normalized_col c = col) /\
  snd (validate_visualization_columns df)
    ≡ₚ filter (fun col => found df col = false) coordinate_columns /\
  (fst (validate_visualization_columns df) = true <->
   snd (validate_visualization_columns df) = []).
Proof.
  intros Hiter. rewrite coordinate_columns_elements in Hiter.
  split; [|split].
  - rewrite validate_visualization_columns_fst.
    by rewrite (forallb_Permutation _ _ _ Hiter), forallb_found.
  - unfold DataValidator.validate_visualization_columns. cbn [snd].
    by rewrite Hiter.
  - unfold DataValidator.validate_visualization_columns. cbn [fst snd].
    rewrite Nat.eqb_eq. by destruct (filter _ (iter _)).
Qed.

(** On a table in which every alias column the normalizer knows has its
    canonical column, a name on which the two alias dicts agree is found
    exactly when it is a column. *)
Lemma found_closed T col :
  (forall e, e ∈ COLUMN_ALIASES -> has_column T (fst e) = true ->
             has_column T (snd e) = true) ->
  aliases_agree col -> found T col = has_column T col.
Proof.
  intros Hclosed [Hnone Hagree].
  destruct (has_column T col) eqn:Hc.
  - apply found_iff. exists col. split; [by apply has_column_true|].
    unfold normalized_col. by rewrite Hnone.
  - apply not_true_is_false. intros Hf.
    apply found_iff in Hf as (c & Hin & Hn).
    apply normalized_col_cases in Hn as [->|Hn].
    + apply has_column_true in Hin. congruence.
    + apply Hagree in Hn. apply has_column_true in Hin.
      specialize (Hclosed (c, col) Hn Hin). cbn [snd] in Hclosed. congruence.
Qed.

Lemma normalized_closed T :
  forall e, e ∈ COLUMN_ALIASES ->
            has_column (T ++ shadows COLUMN_ALIASES T) (fst e) = true ->
            has_column (T ++ shadows COLUMN_ALIASES T) (snd e) = true.
Proof. apply applied_nil_iff, applied_after_normalize. Qed.

Lemma aliases_agree_dec (col : pystr) :
  bool_decide (dict_get Settings.COLUMN_ALIASES col = None) = true ->
  forallb (fun e => negb (pystr_eqb (snd e) col)
                    || bool_decide (e ∈ COLUMN_ALIASES))
          Settings.COLUMN_ALIASES = true ->
  aliases_agree col.
Proof.
  intros H1 H2. split; [by apply bool_decide_eq_true in H1|].
  intros c Hc. rewrite forallb_forall in H2.
  specialize (H2 (c, col)). cbn [snd] in H2.
  rewrite pystr_eqb_refl in H2. cbn [negb orb] in H2.
  eapply bool_decide_eq_true_1, H2. by apply list_elem_of_In.
Qed.

(** X16. On the table [normalize_columns] returns, the Player Report is
    accepted exactly when the table has a column Player. *)
Theorem player_report_after_normalize self h T :
  h !! df self = Some T ->
  let '(l', h', _) := normalize_columns self h in
  fst (validate_dataframe_for_report (h' !!! l') (py "Player Report"))
  = has_column (h' !!! l') (py "Player").
Proof.
  intros HT. pose proof (normalize_columns_eq self h) as Heq.
  cbn zeta in Heq.
  rewrite (lookup_total_correct _ _ _ HT) in Heq. rewrite Heq. clear Heq.
  rewrite lookup_total_insert_eq, validate_dataframe_for_report_fst.
  change (dict_get Settings.REPORT_TYPES (py "Player Report"))
    with (Some (snd (List.hd (py "", {| Settings.description := [];
                                         Settings.required_columns := [];
                                         Settings.system_prompt := [] |})
                             Settings.REPORT_TYPES))).
  cbn [List.hd Settings.REPORT_TYPES snd Settings.required_columns forallb].
  rewrite andb_true_r. apply found_closed; [apply normalized_closed|].
  apply aliases_agree_dec; vm_compute; reflexivity.
Qed.

(** X17. On the table [normalize_columns] returns,
    [validate_visualization_columns] says what [app.py] tests directly:
    whether [x], [y], [end_x] and [end_y] are columns of the table. *)
Theorem visualization_columns_after_normalize self h T :
  h !! df self = Some T ->
  iter Settings.REQUIRED_VISUALIZATION_COLUMNS
    ≡ₚ elements Settings.REQUIRED_VISUALIZATION_COLUMNS ->
  let '(l', h', _) := normalize_columns self h in
  fst (validate_visualization_columns (h' !!! l'))
  = forallb (has_column (h' !!! l')) coordinate_columns.
Proof.
  intros HT Hiter. rewrite coordinate_columns_elements in Hiter.
  pose proof (normalize_columns_eq self h) as Heq.
  cbn zeta in Heq.
  rewrite (lookup_total_correct _ _ _ HT) in Heq. rewrite Heq. clear Heq.
  rewrite lookup_total_insert_eq, validate_visualization_columns_fst.
  rewrite (forallb_Permutation _ _ _ Hiter).
  unfold coordinate_columns. cbn [forallb].
  rewrite !found_closed; try apply normalized_closed; try done;
    apply aliases_agree_dec; vm_compute; reflexivity.
Qed.

(** X18. The two alias dicts differ on [squadName]: a table with that
    column and no column the normalizer maps to Team is accepted for the
    Opposition Report after [normalize_columns], though the table
    returned has no column Team. *)
Theorem opposition_report_without_team self h T :
  h !! df self = Some T ->
  has_column T (py "squadName") = true ->
  Forall (fun name => has_column T name = false) team_names ->
  let '(l', h', _) := normalize_columns self h in
  fst (validate_dataframe_for_report (h' !!! l') (py "Opposition Report"))
  = true /\
  has_column (h' !!! l') (py "Team") = false.
Proof.
  intros HT Hsq Hnone. pose proof (normalize_columns_eq self h) as Heq.
  cbn zeta in Heq.
  rewrite (lookup_total_correct _ _ _ HT) in Heq. rewrite Heq. clear Heq.
  rewrite lookup_total_insert_eq. split.
  - rewrite validate_dataframe_for_report_fst.
    assert (dict_get Settings.REPORT_TYPES (py "Opposition Report")
            = Some (snd (List.last Settings.REPORT_TYPES
                           (py "", {| Settings.description := [];
                                      Settings.required_columns := [];
                                      Settings.system_prompt := [] |}))))
      as -> by (vm_compute; reflexivity).
    cbn [List.last Settings.REPORT_TYPES snd Settings.required_columns
                   forallb].
    rewrite andb_true_r. apply found_iff. exists (py "squadName").
    split; [|vm_compute; reflexivity].
    apply has_column_true. by rewrite has_column_app, Hsq.
  - unfold team_names in Hnone. cbn [map] in Hnone.
    apply Forall_cons in Hnone as [HTeam Hnone].
    repeat (apply Forall_cons in Hnone as [? Hnone]).
    rewrite has_column_app, HTeam.
    rewrite has_shadows_canonical by done.
    assert (first_alias COLUMN_ALIASES T (py "Team") = None) as ->.
    { unfold first_alias, COLUMN_ALIASES. cbn [map List.find].
      unfold present. cbn [fst snd].
      repeat match goal with
             | H : has_column T _ = false |- _ => rewrite H; clear H
             end.
      rewrite ?andb_false_r. vm_compute. reflexivity. }
    done.
Qed.

End ReportColumns.

(** ** [sanitize_dataframe] *)

Lemma filter_iff_elem {X} (P Q : X -> Prop) `{!forall x, Decision (P x)}
    `{!forall x, Decision (Q x)} (l : list X) :
  (forall x, x ∈ l -> (P x <-> Q x)) -> filter P l = filter Q l.
Proof.
  induction l as [|x l IH]; intros Hiff; [done|].
  rewrite !filter_cons, IH by (intros y Hy; apply Hiff; by right).
  destruct (decide (P x)) as [HP|HP].
  - rewrite decide_True; [done|]. apply Hiff; [left | done].
  - rewrite decide_False; [done|]. intros HQ. apply HP, Hiff; [left | done].
Qed.

Section SanitizeFacts.

Context {cell : Type}.
Variable unicode_lower : pystr -> pystr.
Variable is_object : column cell -> bool.
Variable cell_str : cell -> pystr.
Variable str_cell : pystr -> cell.
Implicit Types (t T : DataFrame cell) (h : gmap loc (DataFrame cell)).

#[local] Abbreviation to_remove := (DataValidator.to_remove unicode_lower).
#[local] Abbreviation sanitize_dataframe :=
  (DataValidator.sanitize_dataframe unicode_lower is_object cell_str str_cell).
#[local] Abbreviation kept' := (@kept cell unicode_lower).
#[local] Abbreviation cleaned' := (cleaned is_object cell_str str_cell).
#[local] Abbreviation clean_column' := (clean_column cell_str str_cell).

Lemma getitem_middle (a b : DataFrame cell) (name : pystr)
    (col : column cell) :
  name ∉ columns a -> getitem (a ++ (name, col) :: b) name = Some col.
Proof.
  intros Hn. rewrite getitem_app.
  assert (getitem a name = None) as ->
    by (by apply getitem_None, has_column_false).
  cbn [getitem]. by rewrite pystr_eqb_refl.
Qed.

Lemma setitem_middle (a b : DataFrame cell) (name : pystr)
    (col col' : column cell) :
  name ∉ columns a ->
  setitem (a ++ (name, col) :: b) name col' = a ++ (name, col') :: b.
Proof.
  induction a as [|[k v] a IH]; intros Hn.
  - cbn. by rewrite pystr_eqb_refl.
  - cbn [app setitem]. cbn [columns map fst] in Hn.
    apply not_elem_of_cons in Hn as [Hk Hn].
    assert (pystr_eqb name k = false) as -> by by apply pystr_eqb_neq.
    f_equal. by apply IH.
Qed.

Lemma columns_cleaned t : columns (cleaned' t) = columns t.
Proof. unfold cleaned, columns. rewrite map_map. done. Qed.

(** The cleaning loop, on a table with distinct column names. *)
Lemma clean_loop (pre rest : DataFrame cell) :
  well_formed (pre ++ rest) ->
  fold_left clean_column' (columns (filter (fun kv => is_object (snd kv)) rest))
            (cleaned' pre ++ rest)
  = cleaned' (pre ++ rest).
Proof.
  unfold DataFrame in *.
  revert pre. induction rest as [|[n c] rest IH]; intros pre Hwf.
  { cbn. unfold cleaned. by rewrite !app_nil_r. }
  assert (n ∉ columns (cleaned' pre)) as Hn.
  { rewrite columns_cleaned. unfold well_formed, columns in Hwf.
    rewrite map_app in Hwf. apply NoDup_app in Hwf as (_ & Hdis & _).
    intros Hin. apply (Hdis n Hin). left. }
  assert (cleaned' (pre ++ [(n, c)]) ++ rest
          = cleaned' pre
              ++ (n, if is_object c
                     then DataValidator.astype_str_strip cell_str str_cell c
                     else c) :: rest) as Hstep.
  { unfold cleaned. rewrite map_app. cbn [map fst snd].
    by rewrite <- app_assoc. }
  replace (pre ++ (n, c) :: rest) with ((pre ++ [(n, c)]) ++ rest) in *
    by (by rewrite <- app_assoc).
  rewrite <- (IH (pre ++ [(n, c)]) Hwf), Hstep.
  rewrite filter_cons. cbn [snd].
  destruct (is_object c) eqn:Hc.
  - rewrite decide_True by done. cbn [columns map fst fold_left].
    unfold clean_column at 2.
    rewrite getitem_middle by done. cbn [default].
    by rewrite setitem_middle.
  - rewrite decide_False by (by intros []). done.
Qed.

Lemma clean_step_loop (l : loc) (names : list pystr) t h :
  fold_left (DataValidator.clean_step cell_str str_cell l) names (<[l := t]> h)
  = <[l := fold_left clean_column' names t]> h.
Proof.
  revert t. induction names as [|n names IH]; intros t; [done|].
  cbn [fold_left]. unfold DataValidator.clean_step at 2.
  rewrite lookup_total_insert_eq, insert_insert_eq. apply IH.
Qed.

Lemma well_formed_filter (P : pystr * column cell -> Prop)
    `{!forall kv, Decision (P kv)} T :
  well_formed T -> well_formed (filter P T).
Proof.
  unfold well_formed, columns, DataFrame in *. intros Hwf.
  eapply sublist_NoDup; [exact Hwf|]. apply sublist_map, sublist_filter.
Qed.

Lemma drop_columns_kept T :
  drop_columns T (filter (fun c => to_remove c = true) (columns T))
  = kept' T.
Proof.
  unfold drop_columns, kept, DataFrame in *.
  apply filter_iff_elem. intros [k v] Hkv. cbn [fst].
  destruct (to_remove k) eqn:E.
  - split; [|done]. intros H. apply Is_true_true, negb_true_iff in H.
    assert (existsb (pystr_eqb k)
              (filter (fun c => to_remove c = true) (columns T)) = true)
      as Hex; [|congruence].
    apply existsb_exists. exists k. split; [|apply pystr_eqb_refl].
    apply list_elem_of_In, list_elem_of_filter. split; [done|].
    apply list_elem_of_In, in_map_iff. exists (k, v).
    split; [done | by apply list_elem_of_In].
  - split; [done|]. intros _. apply Is_true_true, negb_true_iff.
    apply not_true_is_false. intros H.
    apply existsb_exists in H as (x & Hx & Heq).
    apply pystr_eqb_eq in Heq as <-.
    apply list_elem_of_In, list_elem_of_filter in Hx as [Hx _]. congruence.
Qed.

Lemma columns_kept T :
  columns (cleaned' (kept' T))
  = filter (fun c => to_remove c = false) (columns T).
Proof.
  rewrite columns_cleaned. unfold kept, columns, DataFrame.
  induction T as [|[k v] T IH]; [done|].
  rewrite filter_cons. cbn [map fst]. rewrite filter_cons.
  destruct (decide (to_remove k = false)); cbn [map fst]; by rewrite IH.
Qed.

(** What [sanitize_dataframe] returns and leaves behind. *)
Lemma sanitize_dataframe_eq h (df : loc) T :
  h !! df = Some T -> well_formed T ->
  exists l' h0,
    sanitize_dataframe h df = (l', <[l' := cleaned' (kept' T)]> h0) /\
    l' <> df /\ h0 !! df = Some T /\
    (forall l, is_Some (h !! l) -> l' <> l /\ h0 !! l = h !! l).
Proof.
  intros HT Hwf. unfold DataValidator.sanitize_dataframe, copy.
  rewrite (lookup_total_correct _ _ _ HT), lookup_total_insert_eq.
  set (l1 := fresh (dom h)).
  assert (l1 <> df) as Hl1 by (apply fresh_loc_new; by eexists).
  assert (forall l, is_Some (h !! l) -> l1 <> l) as Hfresh1
    by (intros l Hl; by apply fresh_loc_new).
  pose proof (clean_loop [] (kept' T)) as Hloop.
  cbn [app] in Hloop. unfold cleaned at 1 in Hloop. cbn [map app] in Hloop.
  specialize (Hloop (well_formed_filter _ T Hwf)).
  destruct (filter (fun c => to_remove c = true) (columns T))
    as [|r rs] eqn:Hrem; cbv beta iota zeta.
  - assert (kept' T = T) as Hk.
    { rewrite <- drop_columns_kept, Hrem. unfold drop_columns, DataFrame.
      clear. induction T as [|kv T IH]; [done|].
      rewrite filter_cons, decide_True by exact I. by rewrite IH. }
    rewrite Hk in *.
    unfold DataValidator.object_columns.
    rewrite lookup_total_insert_eq, clean_step_loop, Hloop.
    exists l1, h.
    split; [done|]. split; [done|]. split; [done|].
    intros l Hl. split; [by apply Hfresh1 | done].
  - rewrite <- Hrem, drop_columns_kept.
    set (h1 := <[l1 := T]> h). set (l2 := fresh (dom h1)).
    assert (l2 <> df) as Hl2.
    { apply fresh_loc_new. unfold h1. rewrite lookup_insert_ne by done.
      by eexists. }
    assert (forall l, is_Some (h !! l) -> l2 <> l) as Hfresh2.
    { intros l Hl. apply fresh_loc_new. unfold h1.
      rewrite lookup_insert_ne; [done | by apply Hfresh1]. }
    unfold DataValidator.object_columns.
    rewrite lookup_total_insert_eq, clean_step_loop, Hloop.
    exists l2, h1.
    split; [done|]. split; [done|].
    split; [unfold h1; by rewrite lookup_insert_ne|].
    intros l Hl. split; [by apply Hfresh2|].
    unfold h1. rewrite lookup_insert_ne; [done | by apply Hfresh1].
Qed.

(** X19. [sanitize_dataframe] returns a new table that holds the columns
    whose names the sensitive-name test lets through, in their order,
    the cells of the object columns turned into stripped strings and
    the other columns as they were; the caller's table and every other
    table stay as they are. *)
Theorem sanitize_dataframe_spec h (df : loc) T :
  h !! df = Some T -> well_formed T ->
  let '(l', h') := sanitize_dataframe h df in
  l' <> df /\ h' !! df = Some T /\
  (forall l, is_Some (h !! l) -> h' !! l = h !! l) /\
  h' !! l' = Some (cleaned' (kept' T)) /\
  columns (cleaned' (kept' T))
  = filter (fun c => to_remove c = false) (columns T).
Proof.
  intros HT Hwf.
  destruct (sanitize_dataframe_eq h df T HT Hwf)
    as (l' & h0 & -> & Hne & Hdf & Hold).
  split; [done|]. split; [by rewrite lookup_insert_ne|].
  split; [|split; [by rewrite lookup_insert_eq | apply columns_kept]].
  intros l Hl. destruct (Hold l Hl) as [Hl' <-]. by rewrite lookup_insert_ne.
Qed.

Lemma find_ext_elem {X} (f g : X -> bool) (l : list X) :
  (forall x, x ∈ l -> f x = g x) -> List.find f l = List.find g l.
Proof.
  induction l as [|x l IH]; intros Hfg; [done|]. cbn [List.find].
  rewrite (Hfg x) by left. rewrite IH; [done|].
  intros y Hy. apply Hfg. by right.
Qed.

(** The mappings that apply depend on the table only through the alias
    and canonical names it has. *)
Lemma applied_ext (A : list (pystr * pystr)) (T1 T2 : DataFrame cell) :
  (forall e, e ∈ A -> has_column T1 (fst e) = has_column T2 (fst e) /\
                      has_column T1 (snd e) = has_column T2 (snd e)) ->
  applied A T1 = applied A T2.
Proof.
  intros Hsame. unfold applied. apply filter_ext_elem. intros e He.
  unfold applies. destruct (Hsame e He) as [_ ->]. f_equal.
  unfold first_alias.
  rewrite (find_ext_elem (present T1 (snd e)) (present T2 (snd e))); [done|].
  intros e' He'. unfold present. by destruct (Hsame e' He') as [-> _].
Qed.

Lemma has_column_kept T (name : pystr) :
  to_remove name = false ->
  has_column (cleaned' (kept' T)) name = has_column T name.
Proof.
  intros Hn. destruct (has_column T name) eqn:E.
  - apply has_column_true. rewrite columns_kept.
    apply list_elem_of_filter. split; [done | by apply has_column_true].
  - apply has_column_false. rewrite columns_kept.
    intros Hin. apply list_elem_of_filter in Hin as [_ Hin].
    apply has_column_true in Hin. congruence.
Qed.

Lemma aliases_not_removed :
  forall e, e ∈ COLUMN_ALIASES ->
            to_remove (fst e) = false /\ to_remove (snd e) = false.
Proof.
  assert (forallb (fun e => negb (to_remove (fst e))
                            && negb (to_remove (snd e)))
                  COLUMN_ALIASES = true) as H by (vm_compute; reflexivity).
  rewrite forallb_forall in H. intros e He.
  apply list_elem_of_In, H, andb_prop in He as [H1 H2].
  by apply negb_true_iff in H1, H2.
Qed.

(** X20. Sanitizing before normalizing, as [main] does, takes nothing from
    the normalizer: the mappings logged are those the unsanitized table
    would get, and no column of the normalized table has a name the
    sensitive-name test catches. *)
Theorem sanitize_then_normalize h (l : loc) T :
  h !! l = Some T -> well_formed T ->
  let '(l1, h1) := sanitize_dataframe h l in
  let '(l2, h2, self2) := normalize_columns (init h1 l1) h1 in
  corrections_log self2 = map entry_msg (applied COLUMN_ALIASES T) /\
  Forall (fun c => to_remove c = false) (columns (h2 !!! l2)).
Proof.
  intros HT Hwf.
  destruct (sanitize_dataframe_eq h l T HT Hwf)
    as (l1 & h0 & -> & _ & _ & _).
  pose proof (normalize_columns_eq (init (<[l1 := cleaned' (kept' T)]> h0) l1)
                (<[l1 := cleaned' (kept' T)]> h0)) as Heq.
  cbn zeta in Heq. cbn [df init] in Heq.
  rewrite lookup_total_insert_eq in Heq. rewrite Heq. clear Heq.
  cbn [corrections_log set_corrections_log app].
  assert (applied COLUMN_ALIASES (cleaned' (kept' T))
          = applied COLUMN_ALIASES T) as Happ.
  { apply applied_ext. intros e He.
    destruct (aliases_not_removed e He) as [H1 H2].
    by rewrite !has_column_kept. }
  split; [by rewrite Happ|].
  rewrite lookup_total_insert_eq. unfold columns at 1. rewrite map_app.
  apply Forall_app. split.
  - fold (columns (cleaned' (kept' T))). rewrite columns_kept.
    apply Forall_forall. intros c Hc.
    by apply list_elem_of_filter in Hc as [Hc _].
  - fold (columns (shadows COLUMN_ALIASES (cleaned' (kept' T)))).
    rewrite columns_shadows. apply Forall_forall. intros c Hc.
    apply list_elem_of_In, in_map_iff in Hc as (e & <- & He).
    apply list_elem_of_In, applied_elem in He as [He _].
    by apply aliases_not_removed.
Qed.

End SanitizeFacts.

(** ** The generation service *)

Section ServiceFacts.

Import OpenAIService.

Variable secrets_get : pystr -> option pystr + thrown.
Variable getenv : pystr -> option pystr.
Implicit Types (self : OpenAIService) (OpenAI : pystr -> pystr -> option thrown).
Implicit Types (create_stream : Client -> request -> list (option pystr) * option thrown).

#[local] Abbreviation _get_api_key :=
  (OpenAIService._get_api_key secrets_get getenv).
#[local] Abbreviation _ensure_client :=
  (OpenAIService._ensure_client secrets_get getenv).
#[local] Abbreviation generate_report_stream :=
  (OpenAIService.generate_report_stream secrets_get getenv).
#[local] Abbreviation generate_report_sync :=
  (OpenAIService.generate_report_sync secrets_get getenv).

(** When [_ensure_client] answers [True], the instance holds a client
    made with the key the lookup gives now. *)
Lemma ensure_client_true OpenAI self self' :
  _ensure_client OpenAI self = (inl true, self') ->
  exists key c,
    _get_api_key = inl (Some key) /\ key <> [] /\
    client self' = Some c /\ api_key c = key /\
    base_url self' = base_url self /\ model self' = model self /\
    temperature self' = temperature self.
Proof.
  unfold OpenAIService._ensure_client.
  destruct _get_api_key as [[[|k key]|]|e]; [done| |done|done].
  destruct (client self) as [c|] eqn:Hc.
  - destruct (negb (pystr_eqb (api_key c) (k :: key))) eqn:Hk.
    + destruct (OpenAI _ _) as [e|].
      * by destruct (derives_from_Exception e).
      * intros [= <-]. eexists _, _. by repeat split.
    + intros [= <-]. apply negb_false_iff, pystr_eqb_eq in Hk.
      exists (k :: key), c. by repeat split.
  - destruct (OpenAI _ _) as [e|].
    + by destruct (derives_from_Exception e).
    + intros [= <-]. eexists _, _. by repeat split.
Qed.

(** X21. Once [_ensure_client] has answered [True], a further call in the
    same environment answers [True] again, leaves the instance as it is
    and does not run the constructor. *)
Theorem ensure_client_stable OpenAI OpenAI' self self' :
  _ensure_client OpenAI self = (inl true, self') ->
  _ensure_client OpenAI' self' = (inl true, self').
Proof.
  intros H. apply ensure_client_true in H
    as (key & c & Hkey & Hne & Hc & Hk & _).
  unfold OpenAIService._ensure_client. rewrite Hkey, Hc, Hk.
  destruct key; [done|]. by rewrite pystr_eqb_refl.
Qed.

Lemma caught_raised (sofar : list pystr) (e e' : thrown) self :
  raised (caught sofar e self) = Some e' -> derives_from_Exception e' = false.
Proof.
  unfold caught. destruct (derives_from_Exception e) eqn:E; [done|].
  by intros [= <-].
Qed.

(** X22. No exception that derives from [Exception] leaves
    [generate_report_stream]: a failure of the key lookup, of the
    constructor or of the request becomes the last chunk, after the
    content that had arrived; and with an empty prompt the run is one
    chunk, whatever the service would answer. *)
Theorem generate_report_stream_errors OpenAI create_stream self
    (system_prompt user_prompt : pystr) (model_arg : option pystr)
    (temperature_arg : option Q) :
  let r := generate_report_stream OpenAI create_stream self system_prompt
                                  user_prompt model_arg temperature_arg in
  (forall e, raised r = Some e -> derives_from_Exception e = false) /\
  (forall self' c chunks e,
      _ensure_client OpenAI self = (inl true, self') ->
      system_prompt <> [] -> user_prompt <> [] ->
      client self' = Some c ->
      create_stream c (report_request self' system_prompt user_prompt
                                      model_arg temperature_arg true)
      = (chunks, Some e) ->
      derives_from_Exception e = true ->
      yielded r = omap id chunks ++ [error_text (message e)] /\
      raised r = None) /\
  (system_prompt = [] \/ user_prompt = [] ->
   (forall create_stream',
       generate_report_stream OpenAI create_stream' self system_prompt
                              user_prompt model_arg temperature_arg = r) /\
   (raised r = None -> length (yielded r) = 1%nat)).
Proof.
  intros r. unfold r, OpenAIService.generate_report_stream.
  split; [|split].
  - intros e. destruct (_ensure_client OpenAI self) as [[[|]|e0] self'].
    + destruct (negb (nonempty system_prompt) || negb (nonempty user_prompt));
        [done|].
      destruct (client self') as [c|]; [|done].
      destruct (create_stream c _) as [chunks [e1|]]; [|done].
      apply caught_raised.
    + done.
    + apply caught_raised.
  - intros self' c chunks e -> Hs Hu Hc Hstream He.
    destruct system_prompt; [done|]. destruct user_prompt; [done|].
    cbn [nonempty negb orb]. rewrite Hc, Hstream.
    unfold caught. by rewrite He.
  - intros Hempty.
    destruct (_ensure_client OpenAI self) as [[[|]|e0] self'].
    + assert (negb (nonempty system_prompt) || negb (nonempty user_prompt)
              = true) as ->; [|done].
      destruct Hempty as [-> | ->]; [done | apply orb_true_r].
    + done.
    + split; [done|]. unfold caught.
      by destruct (derives_from_Exception e0).
Qed.

(** X23. A temperature of zero and an empty model name count as not
    given: the run is that of a call without them, whatever the service
    answers. *)
Theorem generate_report_stream_defaults OpenAI create_stream self
    (system_prompt user_prompt : pystr) (model_arg : option pystr)
    (temperature_arg : option Q) (t : Q) :
  (t == 0)%Q ->
  generate_report_stream OpenAI create_stream self system_prompt user_prompt
                         model_arg (Some t)
  = generate_report_stream OpenAI create_stream self system_prompt
                           user_prompt model_arg None /\
  generate_report_stream OpenAI create_stream self system_prompt user_prompt
                         (Some []) temperature_arg
  = generate_report_stream OpenAI create_stream self system_prompt
                           user_prompt None temperature_arg.
Proof.
  intros Ht. unfold OpenAIService.generate_report_stream.
  assert (forall s m b, report_request s system_prompt user_prompt m (Some t) b
                        = report_request s system_prompt user_prompt m None b)
    as Hreq.
  { intros s m b. unfold report_request, or_temperature.
    apply Qeq_bool_iff in Ht. by rewrite Ht. }
  split; [|done].
  destruct (_ensure_client OpenAI self) as [[[|]|e0] self']; [|done..].
  destruct (negb (nonempty system_prompt) || negb (nonempty user_prompt));
    [done|].
  destruct (client self') as [c|]; [|done]. by rewrite Hreq.
Qed.

(** X24. A key that [InputValidator.validate_api_key] accepts is the key
    the service finds, with at least ten characters; if the constructor
    of the client does not raise, [_ensure_client] answers [True] and
    the client holds that key. *)
Theorem validated_api_key_reaches_service OpenAI self (msg : pystr) :
  InputValidator.validate_api_key secrets_get getenv = Returns (true, msg) ->
  exists key,
    _get_api_key = inl (Some key) /\ (10 <= length key)%nat /\
    (OpenAI (base_url self) key = None ->
     exists self' c,
       _ensure_client OpenAI self = (inl true, self') /\
       client self' = Some c /\ api_key c = key).
Proof.
  unfold InputValidator.validate_api_key, OpenAIService._get_api_key,
    OpenAIService._ensure_client, OpenAIService._get_api_key.
  destruct (secrets_get InputValidator.OPENROUTER_API_KEY) as [secret|e];
    [|done].
  destruct (or_ secret (getenv InputValidator.OPENROUTER_API_KEY))
    as [[|k key]|]; [done| |done].
  destruct (length (k :: key) <? 10)%nat eqn:Hlen; [done|].
  intros _. apply Nat.ltb_ge in Hlen. exists (k :: key).
  split; [done|]. split; [done|]. intros Hnew.
  destruct (client self) as [c|] eqn:Hc.
  - destruct (negb (pystr_eqb (api_key c) (k :: key))) eqn:Hk.
    + rewrite Hnew. eexists _, _. by repeat split.
    + apply negb_false_iff, pystr_eqb_eq in Hk. exists self, c.
      by repeat split.
  - rewrite Hnew. eexists _, _. by repeat split.
Qed.

(** X25. [generate_report_sync] lets no exception that derives from
    [Exception] out: it returns the error text in place of the report.
    [validate_api_key] answers [False] when the test request raises
    one; the only such exception that leaves it is that of the secrets
    lookup, which is made outside its [try]. *)
Theorem generate_report_sync_errors OpenAI
    (create : Client -> request -> option pystr + thrown) self
    (system_prompt user_prompt : pystr) (model_arg : option pystr)
    (temperature_arg : option Q) :
  (forall e,
      fst (generate_report_sync OpenAI create self system_prompt user_prompt
                                model_arg temperature_arg) = inr e ->
      derives_from_Exception e = false) /\
  (forall self' c e,
      _ensure_client OpenAI self = (inl true, self') ->
      client self' = Some c ->
      create c (report_request self' system_prompt user_prompt model_arg
                               temperature_arg false) = inr e ->
      derives_from_Exception e = true ->
      generate_report_sync OpenAI create self system_prompt user_prompt
                           model_arg temperature_arg
      = (inl (Some (error_text (message e))), self')) /\
  (forall e,
      fst (OpenAIService.validate_api_key secrets_get getenv OpenAI create
                                          self) = inr e ->
      derives_from_Exception e = false \/
      secrets_get InputValidator.OPENROUTER_API_KEY = inr e) /\
  (forall self' c e,
      _ensure_client OpenAI self = (inl true, self') ->
      client self' = Some c ->
      create c (test_request self') = inr e ->
      derives_from_Exception e = true ->
      OpenAIService.validate_api_key secrets_get getenv OpenAI create self
      = (inl false, self')).
Proof.
  unfold OpenAIService.generate_report_sync, OpenAIService.validate_api_key.
  split; [|split; [|split]].
  - intros e. destruct (_ensure_client OpenAI self) as [[[|]|e0] self'].
    + destruct (client self') as [c|]; [|done].
      destruct (create c _) as [content|e1]; [done|].
      destruct (derives_from_Exception e1) eqn:E; [done|].
      by intros [= <-].
    + done.
    + destruct (derives_from_Exception e0) eqn:E; [done|]. by intros [= <-].
  - intros self' c e -> -> -> He. by rewrite He.
  - intros e.
    destruct (_ensure_client OpenAI self) as [[[|]|e0] self'] eqn:E.
    + destruct (client self') as [c|]; [|done].
      destruct (create c _) as [content|e1]; [done|].
      destruct (derives_from_Exception e1) eqn:E1; [done|].
      intros [= <-]. by left.
    + done.
    + cbn [fst]. intros [= <-]. revert E.
      unfold OpenAIService._ensure_client, OpenAIService._get_api_key.
      destruct (secrets_get InputValidator.OPENROUTER_API_KEY)
        as [secret|e1]; [|intros [= <- _]; by right].
      destruct (or_ secret (getenv InputValidator.OPENROUTER_API_KEY))
        as [[|k key]|]; [done| |done].
      destruct (match client self with
                | Some c => negb (pystr_eqb (api_key c) (k :: key))
                | None => true
                end); [|done].
      destruct (OpenAI _ _) as [e2|]; [|done].
      destruct (derives_from_Exception e2) eqn:E2; [done|].
      intros [= <- _]. by left.
  - intros self' c e -> -> -> He. by rewrite He.
Qed.

(** X26. A constructor that raises is reported as a missing key: when a
    key is found, the instance has no client for it and the constructor
    raises an exception that derives from [Exception], the run of
    [generate_report_stream] is the one chunk that says no key was
    found. *)
Theorem generate_report_stream_constructor_raises OpenAI create_stream self
    (system_prompt user_prompt : pystr) (model_arg : option pystr)
    (temperature_arg : option Q) (key : pystr) (e : thrown) :
  _get_api_key = inl (Some key) -> key <> [] ->
  (forall c, client self = Some c -> api_key c <> key) ->
  OpenAI (base_url self) key = Some e ->
  derives_from_Exception e = true ->
  generate_report_stream OpenAI create_stream self system_prompt user_prompt
                         model_arg temperature_arg
  = {| yielded := [key_missing_msg]; raised := None; after := self |}.
Proof.
  intros Hkey Hne Hclient Hnew He.
  unfold OpenAIService.generate_report_stream, OpenAIService._ensure_client.
  rewrite Hkey. destruct key as [|k key]; [done|].
  assert (match client self with
          | Some c => negb (pystr_eqb (api_key c) (k :: key))
          | None => true
          end = true) as ->.
  { destruct (client self) as [c|]; [|done].
    apply negb_true_iff, pystr_eqb_neq. by apply Hclient. }
  by rewrite Hnew, He.
Qed.

End ServiceFacts.

(** ** Instances *)

(** The verdict on the visualization columns, with the set gone through
    in the order of [elements]. *)
Lemma validate_visualization_columns_verdict_witness :
  (fst (validate_visualization player_table) = true <->
   forall col, col ∈ coordinate_columns ->
               exists c, c ∈ columns player_table /\
                         DataValidator.normalized_col c = col) /\
  snd (validate_visualization player_table)
    ≡ₚ filter (fun col => DataValidator.found player_table col = false)
              coordinate_columns /\
  (fst (validate_visualization player_table) = true <->
   snd (validate_visualization player_table) = []).
Proof.
  apply (validate_visualization_columns_verdict iter_elements player_table).
  reflexivity.
Defined.

(** On the table with the columns Player and Team. *)
Lemma player_report_after_normalize_witness :
  let '(l', h', _) :=
    normalize_columns (init (store_of player_table) 1)
                      (store_of player_table) in
  fst (validate_report (h' !!! l') (py "Player Report"))
  = has_column (h' !!! l') (py "Player").
Proof.
  apply (player_report_after_normalize no_null format_none nunique_zero
           (init (store_of player_table) 1) (store_of player_table)
           player_table).
  reflexivity.
Defined.

(** On the table with Squad Name and X. *)
Lemma visualization_columns_after_normalize_witness :
  let '(l', h', _) :=
    normalize_columns (init (store_of squad_table) 1) (store_of squad_table) in
  fst (validate_visualization (h' !!! l'))
  = forallb (has_column (h' !!! l')) coordinate_columns.
Proof.
  apply (visualization_columns_after_normalize iter_elements
           (init (store_of squad_table) 1) (store_of squad_table)
           squad_table); reflexivity.
Defined.

(** On the table with squadName and x. *)
Lemma opposition_report_without_team_witness :
  let '(l', h', _) :=
    normalize_columns (init (store_of squadName_table) 1)
                      (store_of squadName_table) in
  fst (validate_report (h' !!! l') (py "Opposition Report")) = true /\
  has_column (h' !!! l') (py "Team") = false.
Proof.
  apply (opposition_report_without_team no_null format_none nunique_zero
           (init (store_of squadName_table) 1) (store_of squadName_table)
           squadName_table).
  - reflexivity.
  - vm_compute. reflexivity.
  - apply (bool_decide_unpack _). vm_compute. exact I.
Defined.

(** On the table with the columns Player, Width, Player ID and email. *)
Lemma sanitize_dataframe_spec_witness :
  let '(l', h') := sanitize (store_of sensitive_table) 1 in
  l' <> 1%positive /\ h' !! 1%positive = Some sensitive_table /\
  (forall l, is_Some (store_of sensitive_table !! l) ->
             h' !! l = store_of sensitive_table !! l) /\
  h' !! l'
  = Some (cleaned all_object cell_str_char str_cell_head
            (kept lower_none sensitive_table)) /\
  columns (cleaned all_object cell_str_char str_cell_head
             (kept lower_none sensitive_table))
  = filter (fun c => DataValidator.to_remove lower_none c = false)
           (columns sensitive_table).
Proof.
  apply (sanitize_dataframe_spec lower_none all_object cell_str_char
           str_cell_head (store_of sensitive_table) 1 sensitive_table).
  - reflexivity.
  - apply well_formed_dec. vm_compute. reflexivity.
Defined.

(** On the same table. *)
Lemma sanitize_then_normalize_witness :
  let '(l1, h1) := sanitize (store_of sensitive_table) 1 in
  let '(l2, h2, self2) := normalize_columns (init h1 l1) h1 in
  corrections_log self2
  = map entry_msg (applied COLUMN_ALIASES sensitive_table) /\
  Forall (fun c => DataValidator.to_remove lower_none c = false)
         (columns (h2 !!! l2)).
Proof.
  apply (sanitize_then_normalize lower_none all_object cell_str_char
           str_cell_head (store_of sensitive_table) 1 sensitive_table).
  - reflexivity.
  - apply well_formed_dec. vm_compute. reflexivity.
Defined.

(** On the table with squadName and x. *)
Lemma detect_file_type_spec_witness :
  let scout := exists c, c ∈ columns squadName_table /\ c ∈ scout_columns in
  let event := exists c, c ∈ columns squadName_table /\
                         lower lower_none (strip c) ∈ coordinate_columns in
  (App.detect_file_type lower_none squadName_table = py "scout_report"
   <-> scout) /\
  (App.detect_file_type lower_none squadName_table = py "event_data"
   <-> ~ scout /\ event) /\
  (App.detect_file_type lower_none squadName_table = py "unknown"
   <-> ~ scout /\ ~ event).
Proof.
  apply (detect_file_type_spec lower_none squadName_table).
  intros s c Hc. by apply not_elem_of_nil in Hc.
Defined.

(** After a first call that built the client, a constructor that would
    raise is not run. *)
Lemma ensure_client_stable_witness :
  OpenAIService._ensure_client secrets_with_key getenv_none OpenAI_fails
    (OpenAIService.set_client OpenAIService.init
       {| OpenAIService.api_key := py "sk-or-0123456789";
          OpenAIService.client_base_url := Settings.OPENAI_BASE_URL |})
  = (inl true,
     OpenAIService.set_client OpenAIService.init
       {| OpenAIService.api_key := py "sk-or-0123456789";
          OpenAIService.client_base_url := Settings.OPENAI_BASE_URL |}).
Proof.
  apply (ensure_client_stable secrets_with_key getenv_none OpenAI_ok
           OpenAI_fails OpenAIService.init).
  vm_compute. reflexivity.
Defined.

(** With the temperature [0 # 5]. *)
Lemma generate_report_stream_defaults_witness :
  OpenAIService.generate_report_stream secrets_with_key getenv_none OpenAI_ok
    create_stream_two OpenAIService.init (py "s") (py "u") None (Some (0 # 5))
  = OpenAIService.generate_report_stream secrets_with_key getenv_none
      OpenAI_ok create_stream_two OpenAIService.init (py "s") (py "u") None
      None /\
  OpenAIService.generate_report_stream secrets_with_key getenv_none OpenAI_ok
    create_stream_two OpenAIService.init (py "s") (py "u") (Some []) None
  = OpenAIService.generate_report_stream secrets_with_key getenv_none
      OpenAI_ok create_stream_two OpenAIService.init (py "s") (py "u") None
      None.
Proof.
  apply (generate_report_stream_defaults secrets_with_key getenv_none
           OpenAI_ok create_stream_two OpenAIService.init (py "s") (py "u")
           None None (0 # 5)).
  reflexivity.
Defined.

(** With a key of sixteen characters in the secrets. *)
Lemma validated_api_key_reaches_service_witness :
  exists key,
    OpenAIService._get_api_key secrets_with_key getenv_none
    = inl (Some key) /\ (10 <= length key)%nat /\
    (OpenAI_ok (OpenAIService.base_url OpenAIService.init) key = None ->
     exists self' c,
       OpenAIService._ensure_client secrets_with_key getenv_none OpenAI_ok
         OpenAIService.init = (inl true, self') /\
       OpenAIService.client self' = Some c /\
       OpenAIService.api_key c = key).
Proof.
  apply (validated_api_key_reaches_service secrets_with_key getenv_none
           OpenAI_ok OpenAIService.init (py "API key validated")).
  vm_compute. reflexivity.
Defined.

(** With a key in the secrets and a constructor that raises. *)
Lemma generate_report_stream_constructor_raises_witness :
  OpenAIService.generate_report_stream secrets_with_key getenv_none
    OpenAI_fails create_stream_two OpenAIService.init (py "s") (py "u")
    None None
  = {| OpenAIService.yielded := [OpenAIService.key_missing_msg];
       OpenAIService.raised := None;
       OpenAIService.after := OpenAIService.init |}.
Proof.
  apply (generate_report_stream_constructor_raises secrets_with_key
           getenv_none OpenAI_fails create_stream_two OpenAIService.init
           (py "s") (py "u") None None (py "sk-or-0123456789")
           {| derives_from_Exception := true; message := py "no network";
              format_exc := [] |}).
  - reflexivity.
  - discriminate.
  - intros c Hc. discriminate Hc.
  - reflexivity.
  - reflexivity.
Defined.

(** *** The cases on single inputs *)

(** The run of the generator when all goes well: the content of the
    chunks that carry some. *)
Example generate_report_stream_two_chunks :
  OpenAIService.yielded
    (OpenAIService.generate_report_stream secrets_with_key getenv_none
       OpenAI_ok create_stream_two OpenAIService.init (py "s") (py "u")
       None None)
  = [py "Report"; py "."].
Proof. vm_compute. reflexivity. Qed.

(** Names [sanitize_dataframe] removes for the letters they hold, and
    the football id it keeps. *)
Example sanitize_dataframe_columns :
  columns (let '(l', h') := sanitize (store_of sensitive_table) 1 in h' !!! l')
  = [py "Player"; py "Player ID"].
Proof. vm_compute. reflexivity. Qed.

(** File names and their suffixes. *)
Example suffix_examples :
  map suffix [py "data.csv"; py "data.CSV"; py ".csv"; py "data.csv.";
              py "a.b/data"; py "archive.tar.gz"]
  = [py ".csv"; py ".CSV"; []; []; []; py ".gz"].
Proof. vm_compute. reflexivity. Qed.
